(** * Springer LNCS formatter: section detection, image numbering and style rendering

    A shallow embedding of the utility modules of the formatter
    ([document_parser.py], [image_processor.py], [style_applier.py],
    [template_manager.py]) and of the parts of [app.py] that check file
    names and chain the modules, followed by the properties the
    specification states about them and by further properties of the
    code.

    Python [str] values are sequences of Unicode code points and are modelled
    as lists of [N]; the regular expressions of the source are written as
    terms of a small regular-expression type and run by a backtracking
    matcher that follows the priorities of Python's [re] module. *)

From Stdlib Require Import String Ascii.
From Stdlib Require Import List NArith ZArith Bool Arith Lia.
From Stdlib Require QArith.
From Stdlib Require Import Sorting.Sorted DecimalString.
Import ListNotations.
Open Scope list_scope.

Set Implicit Arguments.

(* ===================================================================== *)
(** ** Text: Python strings *)
(* ===================================================================== *)

Module Text.

Local Open Scope N_scope.

Definition char := N.
Definition str := list char.

(** An ASCII literal of the source as a sequence of code points. *)
Definition lit (s : string) : str := map N_of_ascii (list_ascii_of_string s).

Definition char_eqb (a b : char) : bool := N.eqb a b.

Definition in_range (lo hi c : char) : bool := (N.leb lo c && N.leb c hi)%bool.

(** [str.isspace], which is also the class [\s] of [re] on [str] patterns
    and the separator set of [str.split()] and [str.strip()]. *)
Definition isspace (c : char) : bool :=
  (in_range 9 13 c || in_range 28 32 c || char_eqb c 133 || char_eqb c 160
   || char_eqb c 5760 || in_range 8192 8202 c || char_eqb c 8232
   || char_eqb c 8233 || char_eqb c 8239 || char_eqb c 8287
   || char_eqb c 12288)%bool.

(** First code points of the blocks of ten decimal digits of the Unicode
    category Nd (Unicode 14, the table of CPython 3.11); the block at
    U+1D7CE holds fifty digits and is listed as five blocks. *)
Definition unicode_Nd_blocks : list N :=
  [48; 1632; 1776; 1984; 2406; 2534; 2662; 2790; 2918; 3046; 3174; 3302;
   3430; 3558; 3664; 3792; 3872; 4160; 4240; 6112; 6160; 6470; 6608; 6784;
   6800; 6992; 7088; 7232; 7248; 42528; 43216; 43264; 43472; 43504; 43600;
   44016; 65296; 66720; 68912; 69734; 69872; 69942; 70096; 70384; 70736;
   70864; 71248; 71360; 71472; 71904; 72016; 72784; 73040; 73120; 92768;
   92864; 93008; 120782; 120792; 120802; 120812; 120822; 123200; 123632;
   125264; 130032].

(** The class [\d] of [re] on [str] patterns. *)
Definition is_digit (c : char) : bool :=
  existsb (fun b => in_range b (b + 9) c) unicode_Nd_blocks.

(** The class [[A-Z]] (no IGNORECASE flag). *)
Definition is_upper_AZ (c : char) : bool := in_range 65 90 c.

Definition newline : char := 10.

(** The class [.] (no DOTALL flag): anything but a line feed. *)
Definition is_dot (c : char) : bool := negb (char_eqb c newline).

Definition ascii_lower (c : char) : char :=
  if in_range 65 90 c then c + 32 else c.

(** Under [(?i)] a lower-case ASCII letter [p] of a pattern matches [p], its
    upper-case form, and the code points whose simple lower-case mapping or
    case equivalence leads to [p]: U+0130 and U+0131 for [i], U+017F for
    [s], U+212A for [k]. *)
Definition ci_extra (p : char) : list char :=
  if char_eqb p 105 then [304; 305]
  else if char_eqb p 115 then [383]
  else if char_eqb p 107 then [8490]
  else [].

Definition ci_lit (p c : char) : bool :=
  (char_eqb (ascii_lower c) p || existsb (char_eqb c) (ci_extra p))%bool.

Definition str_eq_dec : forall a b : str, {a = b} + {a <> b} :=
  list_eq_dec N.eq_dec.

Definition str_eqb (a b : str) : bool := if str_eq_dec a b then true else false.

(** Truthiness of a Python [str]: non-empty. *)
Definition truthy (s : str) : bool := match s with [] => false | _ => true end.

(** [str.lstrip()], [str.rstrip()], [str.strip()]. *)
Fixpoint lstrip (s : str) : str :=
  match s with
  | [] => []
  | c :: s' => if isspace c then lstrip s' else s
  end.

Definition rstrip (s : str) : str := rev (lstrip (rev s)).

Definition strip (s : str) : str := rstrip (lstrip s).

Definition push (cur : str) (done : list str) : list str :=
  match cur with [] => done | _ => cur :: done end.

(** One scan of [str.split()]: the token that starts at the head of [s]
    (empty when [s] starts with whitespace) and the tokens after it. *)
Fixpoint split_scan (s : str) : str * list str :=
  match s with
  | [] => ([], [])
  | c :: s' =>
      let '(cur, done) := split_scan s' in
      if isspace c then ([], push cur done) else (c :: cur, done)
  end.

(** [s.split()]: the maximal runs of non-whitespace characters. *)
Definition split_ws (s : str) : list str :=
  let '(cur, done) := split_scan s in push cur done.

(** [re.split] on a one-character class, and [s.split(c)]: the pieces
    between the delimiters, empty pieces kept. *)
Fixpoint split_on (delim : char -> bool) (s : str) : list str :=
  match s with
  | [] => [[]]
  | c :: s' =>
      if delim c then [] :: split_on delim s'
      else match split_on delim s' with
           | piece :: rest => (c :: piece) :: rest
           | [] => [[c]]
           end
  end.

(** [sep.join(l)]. *)
Fixpoint join (sep : str) (l : list str) : str :=
  match l with
  | [] => []
  | x :: rest =>
      match rest with
      | [] => x
      | _ => x ++ sep ++ join sep rest
      end
  end.

(** [str(n)] for a non-negative integer. *)
Definition str_of_nat (n : nat) : str :=
  lit (NilZero.string_of_uint (Nat.to_uint n)).

(** [s.startswith(w)] and [s.endswith(w)]. *)
Fixpoint startswith (w s : str) : bool :=
  match w with
  | [] => true
  | a :: w' =>
      match s with
      | c :: s' => char_eqb a c && startswith w' s'
      | [] => false
      end
  end.

Definition endswith (w s : str) : bool := startswith (rev w) (rev s).

(** [s.lower()], as far as the tests of the source can tell. The source
    compares a lower-cased text with ASCII words only: it tests that the
    text starts with "abstract", and that it is one of the file extensions
    "docx", "doc", "txt", "png", "jpg", "jpeg", "tiff", "tif", "bmp". In
    the tables of CPython 3.11 the only code points outside A to Z whose
    lower case holds an ASCII letter are U+0130, which becomes [i]
    followed by U+0307, and U+212A, which becomes [k]; every other code
    point becomes one code point. So a lower-cased text starts with a word
    without [i] and [k], or is equal to a word without [k], exactly when
    the text with A to Z lower-cased does. *)
Definition lower_ascii (s : str) : str := map ascii_lower s.

(** The class [[a-z]] (no IGNORECASE flag). *)
Definition is_lower_az (c : char) : bool := in_range 97 122 c.

(** The code points [str.isalnum] accepts, with the underscore: the ranges
    of the class [\w] of [re] on [str] patterns (Unicode 14, the table of
    CPython 3.11). *)
Definition unicode_word_ranges : list (N * N) :=
  [(48, 57); (65, 90); (95, 95); (97, 122); (170, 170); (178, 179);
   (181, 181); (185, 186); (188, 190); (192, 214); (216, 246); (248, 705);
   (710, 721); (736, 740); (748, 748); (750, 750); (880, 884); (886, 887);
   (890, 893); (895, 895); (902, 902); (904, 906); (908, 908); (910, 929);
   (931, 1013); (1015, 1153); (1162, 1327); (1329, 1366); (1369, 1369);
   (1376, 1416); (1488, 1514); (1519, 1522); (1568, 1610); (1632, 1641);
   (1646, 1647); (1649, 1747); (1749, 1749); (1765, 1766); (1774, 1788);
   (1791, 1791); (1808, 1808); (1810, 1839); (1869, 1957); (1969, 1969);
   (1984, 2026); (2036, 2037); (2042, 2042); (2048, 2069); (2074, 2074);
   (2084, 2084); (2088, 2088); (2112, 2136); (2144, 2154); (2160, 2183);
   (2185, 2190); (2208, 2249); (2308, 2361); (2365, 2365); (2384, 2384);
   (2392, 2401); (2406, 2415); (2417, 2432); (2437, 2444); (2447, 2448);
   (2451, 2472); (2474, 2480); (2482, 2482); (2486, 2489); (2493, 2493);
   (2510, 2510); (2524, 2525); (2527, 2529); (2534, 2545); (2548, 2553);
   (2556, 2556); (2565, 2570); (2575, 2576); (2579, 2600); (2602, 2608);
   (2610, 2611); (2613, 2614); (2616, 2617); (2649, 2652); (2654, 2654);
   (2662, 2671); (2674, 2676); (2693, 2701); (2703, 2705); (2707, 2728);
   (2730, 2736); (2738, 2739); (2741, 2745); (2749, 2749); (2768, 2768);
   (2784, 2785); (2790, 2799); (2809, 2809); (2821, 2828); (2831, 2832);
   (2835, 2856); (2858, 2864); (2866, 2867); (2869, 2873); (2877, 2877);
   (2908, 2909); (2911, 2913); (2918, 2927); (2929, 2935); (2947, 2947);
   (2949, 2954); (2958, 2960); (2962, 2965); (2969, 2970); (2972, 2972);
   (2974, 2975); (2979, 2980); (2984, 2986); (2990, 3001); (3024, 3024);
   (3046, 3058); (3077, 3084); (3086, 3088); (3090, 3112); (3114, 3129);
   (3133, 3133); (3160, 3162); (3165, 3165); (3168, 3169); (3174, 3183);
   (3192, 3198); (3200, 3200); (3205, 3212); (3214, 3216); (3218, 3240);
   (3242, 3251); (3253, 3257); (3261, 3261); (3293, 3294); (3296, 3297);
   (3302, 3311); (3313, 3314); (3332, 3340); (3342, 3344); (3346, 3386);
   (3389, 3389); (3406, 3406); (3412, 3414); (3416, 3425); (3430, 3448);
   (3450, 3455); (3461, 3478); (3482, 3505); (3507, 3515); (3517, 3517);
   (3520, 3526); (3558, 3567); (3585, 3632); (3634, 3635); (3648, 3654);
   (3664, 3673); (3713, 3714); (3716, 3716); (3718, 3722); (3724, 3747);
   (3749, 3749); (3751, 3760); (3762, 3763); (3773, 3773); (3776, 3780);
   (3782, 3782); (3792, 3801); (3804, 3807); (3840, 3840); (3872, 3891);
   (3904, 3911); (3913, 3948); (3976, 3980); (4096, 4138); (4159, 4169);
   (4176, 4181); (4186, 4189); (4193, 4193); (4197, 4198); (4206, 4208);
   (4213, 4225); (4238, 4238); (4240, 4249); (4256, 4293); (4295, 4295);
   (4301, 4301); (4304, 4346); (4348, 4680); (4682, 4685); (4688, 4694);
   (4696, 4696); (4698, 4701); (4704, 4744); (4746, 4749); (4752, 4784);
   (4786, 4789); (4792, 4798); (4800, 4800); (4802, 4805); (4808, 4822);
   (4824, 4880); (4882, 4885); (4888, 4954); (4969, 4988); (4992, 5007);
   (5024, 5109); (5112, 5117); (5121, 5740); (5743, 5759); (5761, 5786);
   (5792, 5866); (5870, 5880); (5888, 5905); (5919, 5937); (5952, 5969);
   (5984, 5996); (5998, 6000); (6016, 6067); (6103, 6103); (6108, 6108);
   (6112, 6121); (6128, 6137); (6160, 6169); (6176, 6264); (6272, 6276);
   (6279, 6312); (6314, 6314); (6320, 6389); (6400, 6430); (6470, 6509);
   (6512, 6516); (6528, 6571); (6576, 6601); (6608, 6618); (6656, 6678);
   (6688, 6740); (6784, 6793); (6800, 6809); (6823, 6823); (6917, 6963);
   (6981, 6988); (6992, 7001); (7043, 7072); (7086, 7141); (7168, 7203);
   (7232, 7241); (7245, 7293); (7296, 7304); (7312, 7354); (7357, 7359);
   (7401, 7404); (7406, 7411); (7413, 7414); (7418, 7418); (7424, 7615);
   (7680, 7957); (7960, 7965); (7968, 8005); (8008, 8013); (8016, 8023);
   (8025, 8025); (8027, 8027); (8029, 8029); (8031, 8061); (8064, 8116);
   (8118, 8124); (8126, 8126); (8130, 8132); (8134, 8140); (8144, 8147);
   (8150, 8155); (8160, 8172); (8178, 8180); (8182, 8188); (8304, 8305);
   (8308, 8313); (8319, 8329); (8336, 8348); (8450, 8450); (8455, 8455);
   (8458, 8467); (8469, 8469); (8473, 8477); (8484, 8484); (8486, 8486);
   (8488, 8488); (8490, 8493); (8495, 8505); (8508, 8511); (8517, 8521);
   (8526, 8526); (8528, 8585); (9312, 9371); (9450, 9471); (10102, 10131);
   (11264, 11492); (11499, 11502); (11506, 11507); (11517, 11517);
   (11520, 11557); (11559, 11559); (11565, 11565); (11568, 11623);
   (11631, 11631); (11648, 11670); (11680, 11686); (11688, 11694);
   (11696, 11702); (11704, 11710); (11712, 11718); (11720, 11726);
   (11728, 11734); (11736, 11742); (11823, 11823); (12293, 12295);
   (12321, 12329); (12337, 12341); (12344, 12348); (12353, 12438);
   (12445, 12447); (12449, 12538); (12540, 12543); (12549, 12591);
   (12593, 12686); (12690, 12693); (12704, 12735); (12784, 12799);
   (12832, 12841); (12872, 12879); (12881, 12895); (12928, 12937);
   (12977, 12991); (13312, 19903); (19968, 42124); (42192, 42237);
   (42240, 42508); (42512, 42539); (42560, 42606); (42623, 42653);
   (42656, 42735); (42775, 42783); (42786, 42888); (42891, 42954);
   (42960, 42961); (42963, 42963); (42965, 42969); (42994, 43009);
   (43011, 43013); (43015, 43018); (43020, 43042); (43056, 43061);
   (43072, 43123); (43138, 43187); (43216, 43225); (43250, 43255);
   (43259, 43259); (43261, 43262); (43264, 43301); (43312, 43334);
   (43360, 43388); (43396, 43442); (43471, 43481); (43488, 43492);
   (43494, 43518); (43520, 43560); (43584, 43586); (43588, 43595);
   (43600, 43609); (43616, 43638); (43642, 43642); (43646, 43695);
   (43697, 43697); (43701, 43702); (43705, 43709); (43712, 43712);
   (43714, 43714); (43739, 43741); (43744, 43754); (43762, 43764);
   (43777, 43782); (43785, 43790); (43793, 43798); (43808, 43814);
   (43816, 43822); (43824, 43866); (43868, 43881); (43888, 44002);
   (44016, 44025); (44032, 55203); (55216, 55238); (55243, 55291);
   (63744, 64109); (64112, 64217); (64256, 64262); (64275, 64279);
   (64285, 64285); (64287, 64296); (64298, 64310); (64312, 64316);
   (64318, 64318); (64320, 64321); (64323, 64324); (64326, 64433);
   (64467, 64829); (64848, 64911); (64914, 64967); (65008, 65019);
   (65136, 65140); (65142, 65276); (65296, 65305); (65313, 65338);
   (65345, 65370); (65382, 65470); (65474, 65479); (65482, 65487);
   (65490, 65495); (65498, 65500); (65536, 65547); (65549, 65574);
   (65576, 65594); (65596, 65597); (65599, 65613); (65616, 65629);
   (65664, 65786); (65799, 65843); (65856, 65912); (65930, 65931);
   (66176, 66204); (66208, 66256); (66273, 66299); (66304, 66339);
   (66349, 66378); (66384, 66421); (66432, 66461); (66464, 66499);
   (66504, 66511); (66513, 66517); (66560, 66717); (66720, 66729);
   (66736, 66771); (66776, 66811); (66816, 66855); (66864, 66915);
   (66928, 66938); (66940, 66954); (66956, 66962); (66964, 66965);
   (66967, 66977); (66979, 66993); (66995, 67001); (67003, 67004);
   (67072, 67382); (67392, 67413); (67424, 67431); (67456, 67461);
   (67463, 67504); (67506, 67514); (67584, 67589); (67592, 67592);
   (67594, 67637); (67639, 67640); (67644, 67644); (67647, 67669);
   (67672, 67702); (67705, 67742); (67751, 67759); (67808, 67826);
   (67828, 67829); (67835, 67867); (67872, 67897); (67968, 68023);
   (68028, 68047); (68050, 68096); (68112, 68115); (68117, 68119);
   (68121, 68149); (68160, 68168); (68192, 68222); (68224, 68255);
   (68288, 68295); (68297, 68324); (68331, 68335); (68352, 68405);
   (68416, 68437); (68440, 68466); (68472, 68497); (68521, 68527);
   (68608, 68680); (68736, 68786); (68800, 68850); (68858, 68899);
   (68912, 68921); (69216, 69246); (69248, 69289); (69296, 69297);
   (69376, 69415); (69424, 69445); (69457, 69460); (69488, 69505);
   (69552, 69579); (69600, 69622); (69635, 69687); (69714, 69743);
   (69745, 69746); (69749, 69749); (69763, 69807); (69840, 69864);
   (69872, 69881); (69891, 69926); (69942, 69951); (69956, 69956);
   (69959, 69959); (69968, 70002); (70006, 70006); (70019, 70066);
   (70081, 70084); (70096, 70106); (70108, 70108); (70113, 70132);
   (70144, 70161); (70163, 70187); (70272, 70278); (70280, 70280);
   (70282, 70285); (70287, 70301); (70303, 70312); (70320, 70366);
   (70384, 70393); (70405, 70412); (70415, 70416); (70419, 70440);
   (70442, 70448); (70450, 70451); (70453, 70457); (70461, 70461);
   (70480, 70480); (70493, 70497); (70656, 70708); (70727, 70730);
   (70736, 70745); (70751, 70753); (70784, 70831); (70852, 70853);
   (70855, 70855); (70864, 70873); (71040, 71086); (71128, 71131);
   (71168, 71215); (71236, 71236); (71248, 71257); (71296, 71338);
   (71352, 71352); (71360, 71369); (71424, 71450); (71472, 71483);
   (71488, 71494); (71680, 71723); (71840, 71922); (71935, 71942);
   (71945, 71945); (71948, 71955); (71957, 71958); (71960, 71983);
   (71999, 71999); (72001, 72001); (72016, 72025); (72096, 72103);
   (72106, 72144); (72161, 72161); (72163, 72163); (72192, 72192);
   (72203, 72242); (72250, 72250); (72272, 72272); (72284, 72329);
   (72349, 72349); (72368, 72440); (72704, 72712); (72714, 72750);
   (72768, 72768); (72784, 72812); (72818, 72847); (72960, 72966);
   (72968, 72969); (72971, 73008); (73030, 73030); (73040, 73049);
   (73056, 73061); (73063, 73064); (73066, 73097); (73112, 73112);
   (73120, 73129); (73440, 73458); (73648, 73648); (73664, 73684);
   (73728, 74649); (74752, 74862); (74880, 75075); (77712, 77808);
   (77824, 78894); (82944, 83526); (92160, 92728); (92736, 92766);
   (92768, 92777); (92784, 92862); (92864, 92873); (92880, 92909);
   (92928, 92975); (92992, 92995); (93008, 93017); (93019, 93025);
   (93027, 93047); (93053, 93071); (93760, 93846); (93952, 94026);
   (94032, 94032); (94099, 94111); (94176, 94177); (94179, 94179);
   (94208, 100343); (100352, 101589); (101632, 101640); (110576, 110579);
   (110581, 110587); (110589, 110590); (110592, 110882); (110928, 110930);
   (110948, 110951); (110960, 111355); (113664, 113770); (113776, 113788);
   (113792, 113800); (113808, 113817); (119520, 119539); (119648, 119672);
   (119808, 119892); (119894, 119964); (119966, 119967); (119970, 119970);
   (119973, 119974); (119977, 119980); (119982, 119993); (119995, 119995);
   (119997, 120003); (120005, 120069); (120071, 120074); (120077, 120084);
   (120086, 120092); (120094, 120121); (120123, 120126); (120128, 120132);
   (120134, 120134); (120138, 120144); (120146, 120485); (120488, 120512);
   (120514, 120538); (120540, 120570); (120572, 120596); (120598, 120628);
   (120630, 120654); (120656, 120686); (120688, 120712); (120714, 120744);
   (120746, 120770); (120772, 120779); (120782, 120831); (122624, 122654);
   (123136, 123180); (123191, 123197); (123200, 123209); (123214, 123214);
   (123536, 123565); (123584, 123627); (123632, 123641); (124896, 124902);
   (124904, 124907); (124909, 124910); (124912, 124926); (124928, 125124);
   (125127, 125135); (125184, 125251); (125259, 125259); (125264, 125273);
   (126065, 126123); (126125, 126127); (126129, 126132); (126209, 126253);
   (126255, 126269); (126464, 126467); (126469, 126495); (126497, 126498);
   (126500, 126500); (126503, 126503); (126505, 126514); (126516, 126519);
   (126521, 126521); (126523, 126523); (126530, 126530); (126535, 126535);
   (126537, 126537); (126539, 126539); (126541, 126543); (126545, 126546);
   (126548, 126548); (126551, 126551); (126553, 126553); (126555, 126555);
   (126557, 126557); (126559, 126559); (126561, 126562); (126564, 126564);
   (126567, 126570); (126572, 126578); (126580, 126583); (126585, 126588);
   (126590, 126590); (126592, 126601); (126603, 126619); (126625, 126627);
   (126629, 126633); (126635, 126651); (127232, 127244); (130032, 130041);
   (131072, 173791); (173824, 177976); (177984, 178205); (178208, 183969);
   (183984, 191456); (194560, 195101); (196608, 201546)].

(** The class [\w]. *)
Definition is_word (c : char) : bool :=
  existsb (fun r => in_range (fst r) (snd r) c) unicode_word_ranges.

(** [s.replace(old, new)] for one-character texts. *)
Definition replace_char (old new : char) (s : str) : str :=
  map (fun c => if char_eqb c old then new else c) s.

(** The text before the first occurrence of [c] in [s] and the text after
    it; [None] when [c] does not occur. *)
Fixpoint split_first (c : char) (s : str) : option (str * str) :=
  match s with
  | [] => None
  | x :: s' =>
      if char_eqb x c then Some ([], s')
      else match split_first c s' with
           | Some (before, after) => Some (x :: before, after)
           | None => None
           end
  end.

(** [s.rsplit(c, 1)] when [c] occurs in [s]: the text before the last
    occurrence and the text after it; [None] when [c] does not occur (the
    list [s.rsplit(c, 1)] is then [[s]]). *)
Definition rsplit1 (c : char) (s : str) : option (str * str) :=
  match split_first c (rev s) with
  | Some (after, before) => Some (rev before, rev after)
  | None => None
  end.

End Text.

Import Text.

(* ===================================================================== *)
(** ** Regex: the fragment of Python's [re] the source uses *)
(* ===================================================================== *)

Module Regex.

(** Patterns. Repetition occurs in the source only on one-character classes
    ([\s*], [\d+], [\s+], [.+]); [Opt] is the greedy [?]; [Eos] is [$]. *)
Inductive re : Type :=
| Eps : re
| Chr : (char -> bool) -> re
| Seq : re -> re -> re
| Alt : re -> re -> re
| Opt : re -> re
| Star : (char -> bool) -> re
| Plus : (char -> bool) -> re
| Eos : re.

(** Greedy repetition of a class, then the continuation; on failure of the
    continuation one character is given back at a time. *)
Fixpoint star_bt {A : Type} (p : char -> bool) (s : str)
  (k : str -> option A) : option A :=
  match s with
  | c :: s' =>
      if p c then
        match star_bt p s' k with
        | Some x => Some x
        | None => k s
        end
      else k s
  | [] => k s
  end.

(** [$] without MULTILINE: the end of the text, or just before a line feed
    that ends the text. *)
Definition at_end (s : str) : bool :=
  match s with
  | [] => true
  | c :: [] => char_eqb c newline
  | _ => false
  end.

(** The backtracking matcher in continuation-passing style: alternatives are
    tried left to right, optional and repeated parts longest first, and the
    first success of the continuation is the result. *)
Fixpoint bt {A : Type} (r : re) (s : str) (k : str -> option A) : option A :=
  match r with
  | Eps => k s
  | Chr p =>
      match s with
      | c :: s' => if p c then k s' else None
      | [] => None
      end
  | Seq a b => bt a s (fun s' => bt b s' k)
  | Alt a b =>
      match bt a s k with
      | Some x => Some x
      | None => bt b s k
      end
  | Opt a =>
      match bt a s k with
      | Some x => Some x
      | None => k s
      end
  | Star p => star_bt p s k
  | Plus p =>
      match s with
      | c :: s' => if p c then star_bt p s' k else None
      | [] => None
      end
  | Eos => if at_end s then k s else None
  end.

(** [re.match(r, s)] for a pattern anchored by [^]: the text that follows
    the match, or [None]. *)
Definition re_match (r : re) (s : str) : option str := bt r s (fun rest => Some rest).

Definition matches (r : re) (s : str) : bool :=
  match re_match r s with Some _ => true | None => false end.

(** [re.sub(r, '', s)] for a pattern anchored by [^] that matches no empty
    text: the match at the start, if any, is removed. *)
Definition re_sub_prefix (r : re) (s : str) : str :=
  match re_match r s with Some rest => rest | None => s end.

(** The text of a group that closes the pattern, [prefix(body)$]: the match
    object's [group(1)]. *)
Definition re_match_group (prefix body : re) (s : str) : option str :=
  bt prefix s (fun s1 =>
    bt (Seq body Eos) s1 (fun s2 => Some (firstn (length s1 - length s2)%nat s1))).

(** Pattern-building helpers. *)
Definition chr (c : char) : re := Chr (char_eqb c).

Definition ws_star : re := Star isspace.

Fixpoint seq_all (rs : list re) : re :=
  match rs with
  | [] => Eps
  | r :: rest => match rest with [] => r | _ => Seq r (seq_all rest) end
  end.

(** A word of lower-case letters under [(?i)]. *)
Definition ci_word (w : string) : re := seq_all (map (fun p => Chr (ci_lit p)) (lit w)).

(** What a pattern can consume: [accepts r s s'] when [r] matches a prefix
    of [s] and leaves [s']. *)
Inductive accepts : re -> str -> str -> Prop :=
| acc_eps : forall s, accepts Eps s s
| acc_chr : forall (p : char -> bool) c s, p c = true -> accepts (Chr p) (c :: s) s
| acc_seq : forall a b s s' s'', accepts a s s' -> accepts b s' s'' -> accepts (Seq a b) s s''
| acc_alt_l : forall a b s s', accepts a s s' -> accepts (Alt a b) s s'
| acc_alt_r : forall a b s s', accepts b s s' -> accepts (Alt a b) s s'
| acc_opt_some : forall a s s', accepts a s s' -> accepts (Opt a) s s'
| acc_opt_none : forall a s, accepts (Opt a) s s
| acc_star : forall (p : char -> bool) w s, forallb p w = true -> accepts (Star p) (w ++ s) s
| acc_plus : forall (p : char -> bool) c w s,
    p c = true -> forallb p w = true -> accepts (Plus p) (c :: w ++ s) s
| acc_eos : forall s, at_end s = true -> accepts Eos s s.

(** [re.findall(r, s)] for a pattern that matches no empty text: the texts
    of the matches from left to right, the search going on where the last
    match ended. [skip] counts the characters of the last match that are
    still to be passed. *)
Fixpoint findall_scan (r : re) (s : str) (skip : nat) : list str :=
  match s with
  | [] => []
  | _ :: s' =>
      match skip with
      | S n => findall_scan r s' n
      | O =>
          match re_match r s with
          | Some rest =>
              let n := (length s - length rest)%nat in
              firstn n s :: findall_scan r s' (n - 1)
          | None => findall_scan r s' 0
          end
      end
  end.

Definition findall (r : re) (s : str) : list str := findall_scan r s 0.

End Regex.

Import Regex.

(* ===================================================================== *)
(** ** DocumentParser ([utils/document_parser.py]) *)
(* ===================================================================== *)

Module DocumentParser.

(** The patterns of the source are quoted above their terms; in these
    comments a blank separates a star from a closing parenthesis that
    follows it, the patterns themselves have none. *)

Definition ch (a : ascii) : re := chr (N_of_ascii a).

Fixpoint alt_all (rs : list re) : re :=
  match rs with
  | [] => Eps
  | r :: rest => match rest with [] => r | _ => Alt r (alt_all rest) end
  end.

(** The optional heading number "(d\.?\s* )?" of the first six patterns. *)
Definition opt_number (d : ascii) : re :=
  Opt (seq_all [ch d; Opt (ch "."); ws_star]).

(** "(?i)^\s*(1\.?\s* )?introduction\s*$" *)
Definition pat_introduction : re :=
  seq_all [ws_star; opt_number "1"; ci_word "introduction"; ws_star; Eos].

(** "(?i)^\s*(2\.?\s* )?(related\s*work|literature\s*review|background)\s*$" *)
Definition pat_related_work : re :=
  seq_all [ws_star; opt_number "2";
           alt_all [seq_all [ci_word "related"; ws_star; ci_word "work"];
                    seq_all [ci_word "literature"; ws_star; ci_word "review"];
                    ci_word "background"];
           ws_star; Eos].

(** "(?i)^\s*(3\.?\s* )?(methodology|proposed\s*(method|approach|system)|method(s)?)\s*$" *)
Definition pat_methodology : re :=
  seq_all [ws_star; opt_number "3";
           alt_all [ci_word "methodology";
                    seq_all [ci_word "proposed"; ws_star;
                             alt_all [ci_word "method"; ci_word "approach"; ci_word "system"]];
                    seq_all [ci_word "method"; Opt (ci_word "s")]];
           ws_star; Eos].

(** "(?i)^\s*(4\.?\s* )?(results?|experiments?|evaluation|experimental\s*results)\s*$" *)
Definition pat_results : re :=
  seq_all [ws_star; opt_number "4";
           alt_all [seq_all [ci_word "result"; Opt (ci_word "s")];
                    seq_all [ci_word "experiment"; Opt (ci_word "s")];
                    ci_word "evaluation";
                    seq_all [ci_word "experimental"; ws_star; ci_word "results"]];
           ws_star; Eos].

(** "(?i)^\s*(5\.?\s* )?discussion\s*$" *)
Definition pat_discussion : re :=
  seq_all [ws_star; opt_number "5"; ci_word "discussion"; ws_star; Eos].

(** "(?i)^\s*(6\.?\s* )?(conclusion(s)?|summary|future\s*work)\s*$" *)
Definition pat_conclusion : re :=
  seq_all [ws_star; opt_number "6";
           alt_all [seq_all [ci_word "conclusion"; Opt (ci_word "s")];
                    ci_word "summary";
                    seq_all [ci_word "future"; ws_star; ci_word "work"]];
           ws_star; Eos].

(** "(?i)^\s*references?\s*$" *)
Definition pat_references : re :=
  seq_all [ws_star; ci_word "reference"; Opt (ci_word "s"); ws_star; Eos].

(** "(?i)^\s*(acknowledge?ments?)\s*$" *)
Definition pat_acknowledgments : re :=
  seq_all [ws_star; ci_word "acknowledg"; Opt (ci_word "e"); ci_word "ment";
           Opt (ci_word "s"); ws_star; Eos].

(** The class attribute [SECTION_PATTERNS]; a [dict] iterates in insertion
    order, so the table is kept as an ordered association list. *)
Definition SECTION_PATTERNS : list (string * re) :=
  [("introduction", pat_introduction);
   ("related_work", pat_related_work);
   ("methodology", pat_methodology);
   ("results", pat_results);
   ("discussion", pat_discussion);
   ("conclusion", pat_conclusion);
   ("references", pat_references);
   ("acknowledgments", pat_acknowledgments)]%string.

(** "^\s*\d+\.?\s+[A-Z]": the generic numbered heading. *)
Definition pat_numbered : re :=
  seq_all [ws_star; Plus is_digit; Opt (ch "."); Plus isspace; Chr is_upper_AZ].

(** "(?i)^\s*abstract\.?\s*" *)
Definition pat_abstract : re :=
  seq_all [ws_star; ci_word "abstract"; Opt (ch "."); ws_star].

(** "(?i)^\s*keywords?\.?\s*:", the end of the abstract. *)
Definition pat_keywords_stop : re :=
  seq_all [ws_star; ci_word "keyword"; Opt (ci_word "s"); Opt (ch "."); ws_star; ch ":"].

(** "(?i)^\s*keywords?\.?\s*:?\s*(.+)$", split before its group. *)
Definition pat_keywords_prefix : re :=
  seq_all [ws_star; ci_word "keyword"; Opt (ci_word "s"); Opt (ch "."); ws_star;
           Opt (ch ":"); ws_star].

Definition pat_keywords_group : re := Plus is_dot.

(** "^\s*\[?\d+\]?[\.\)]\s*", a numbered reference. *)
Definition pat_reference_number : re :=
  seq_all [ws_star; Opt (ch "["); Plus is_digit; Opt (ch "]");
           Chr (fun c => char_eqb c (N_of_ascii ".") || char_eqb c (N_of_ascii ")"));
           ws_star].

Fixpoint first_match (table : list (string * re)) (text : str) : option string :=
  match table with
  | [] => None
  | (section_type, pattern) :: rest =>
      if matches pattern text then Some section_type else first_match rest text
  end.

Definition _get_section_type (text : str) : option string :=
  match first_match SECTION_PATTERNS text with
  | Some section_type => Some section_type
  | None => if matches pat_numbered text then Some "numbered_section"%string else None
  end.

Definition _is_section_heading (text : str) : bool :=
  existsb (fun entry => matches (snd entry) text) SECTION_PATTERNS
  || matches pat_numbered text.

(** *** extract_abstract *)

Record abstract : Type := {
  abs_text : str;
  word_count : nat;
  is_valid : bool
}.

(** The loop of [extract_abstract], with its two local variables; the result
    is the final [abstract_text]. *)
Fixpoint abstract_loop (paragraphs : list str) (abstract_text : str)
  (abstract_started : bool) : str :=
  match paragraphs with
  | [] => abstract_text
  | para :: rest =>
      if matches pat_abstract para then
        abstract_loop rest (re_sub_prefix pat_abstract para) true
      else if abstract_started then
        if matches pat_keywords_stop para || _is_section_heading para
        then abstract_text
        else abstract_loop rest (abstract_text ++ lit " " ++ para) true
      else abstract_loop rest abstract_text abstract_started
  end.

Definition extract_abstract (paragraphs : list str) : abstract :=
  let abstract_text := abstract_loop paragraphs [] false in
  let word_count :=
    if truthy abstract_text then length (split_ws abstract_text) else 0 in
  {| abs_text := strip abstract_text;
     word_count := word_count;
     is_valid := (150 <=? word_count) && (word_count <=? 250) |}.

(** *** extract_keywords *)

(** The class [[,;·•]]. *)
Definition is_keyword_delimiter (c : char) : bool :=
  char_eqb c 44%N || char_eqb c 59%N || char_eqb c 183%N || char_eqb c 8226%N.

(** The list comprehension of [extract_keywords] over the pieces of
    [re.split]: the stripped pieces that are non-empty after stripping. *)
Definition split_keywords (keyword_text : str) : list str :=
  map strip (filter (fun k => truthy (strip k)) (split_on is_keyword_delimiter keyword_text)).

Fixpoint extract_keywords (paragraphs : list str) : list str :=
  match paragraphs with
  | [] => []
  | para :: rest =>
      match re_match_group pat_keywords_prefix pat_keywords_group para with
      | Some keyword_text => split_keywords keyword_text
      | None => extract_keywords rest
      end
  end.

(** *** detect_sections *)

Record section : Type := {
  sec_type : string;
  sec_title : str;
  sec_content : str;
  start_index : nat
}.

(** The dict [current_section] while a section is open. *)
Record open_section : Type := {
  cur_type : string;
  cur_title : str;
  cur_start : nat
}.

Definition nl : str := [newline].

Definition close_section (current_section : open_section) (current_content : list str) : section :=
  {| sec_type := cur_type current_section;
     sec_title := cur_title current_section;
     sec_content := join nl current_content;
     start_index := cur_start current_section |}.

Definition save_previous (sections : list section) (current_section : option open_section)
  (current_content : list str) : list section :=
  match current_section with
  | Some cur => sections ++ [close_section cur current_content]
  | None => sections
  end.

(** The loop of [detect_sections] from paragraph number [i] on, with the
    three local variables of the method. *)
Fixpoint detect_loop (paragraphs : list str) (i : nat) (sections : list section)
  (current_section : option open_section) (current_content : list str) : list section :=
  match paragraphs with
  | [] => save_previous sections current_section current_content
  | para :: rest =>
      match _get_section_type para with
      | Some section_type =>
          detect_loop rest (S i)
            (save_previous sections current_section current_content)
            (Some {| cur_type := section_type; cur_title := para; cur_start := i |})
            []
      | None =>
          match current_section with
          | Some _ => detect_loop rest (S i) sections current_section (current_content ++ [para])
          | None => detect_loop rest (S i) sections current_section current_content
          end
      end
  end.

Definition detect_sections (paragraphs : list str) : list section :=
  detect_loop paragraphs 0 [] None [].

(** *** extract_references *)

Fixpoint references_loop (paragraphs : list str) (references : list str)
  (in_references : bool) : list str :=
  match paragraphs with
  | [] => references
  | para :: rest =>
      if matches pat_references para then references_loop rest references true
      else if in_references then
        if matches pat_reference_number para || truthy para
        then references_loop rest (references ++ [para]) true
        else references_loop rest references true
      else references_loop rest references in_references
  end.

Definition extract_references (paragraphs : list str) : list str :=
  references_loop paragraphs [] false.

End DocumentParser.

Import DocumentParser.


(* ===================================================================== *)
(** ** ImageProcessor ([utils/image_processor.py]) *)
(* ===================================================================== *)

Module ImageProcessor.

(** The dict a successful [process_image] returns. *)
Record image_result : Type := {
  original_path : str;
  original_size : nat * nat;
  original_mode : string;
  resized : bool;
  new_size : nat * nat;
  dpi_warning : bool;
  processed_path : str;
  figure_number : nat
}.

(** [{'success': False, 'error': ...}] or a result with ['success': True]. *)
Inductive result : Type :=
| Failure (error : str)
| Success (r : image_result).

(** What the imaging library reports while the [try] block of
    [process_image] runs up to and including [img.save]. *)
Record image_facts : Type := {
  fact_original_size : nat * nat;
  fact_original_mode : string;
  fact_resized : bool;
  fact_new_size : nat * nat
}.

Record pil_outcome : Type := {
  (** the low-DPI warning appended to [self.warnings] before saving *)
  low_dpi_warning : option str;
  (** the text of the exception raised, or the facts of the saved image *)
  outcome : str + image_facts
}.

(** The object state of an [ImageProcessor]. *)
Record processor : Type := {
  output_dir : str;
  processed_images : list image_result;
  warnings : list str
}.

(** [ImageProcessor(output_dir)], with [None] for a call without argument:
    the directory is [output_dir or 'processed_images']. The directory
    the constructor creates is an effect on the file system only. *)
Definition init_processor (output_dir : option str) : processor :=
  {| output_dir :=
       match output_dir with
       | Some dir => if truthy dir then dir else lit "processed_images"
       | None => lit "processed_images"
       end;
     processed_images := [];
     warnings := [] |}.

(** [ImageProcessor(dir)] for a text [dir]. *)
Definition new_processor (dir : str) : processor := init_processor (Some dir).

Section WithFiles.

(** The file system and the imaging library: [os.path.exists], the base
    name of a path without its extension, [os.path.join], and the work of
    the imaging library on the image at a path for a target width and an
    output path. The target width is a float and is kept abstract. *)
Variable width_cm : Type.
Variable path_exists : str -> bool.
Variable base_name : str -> str.
Variable path_join : str -> str -> str.
Variable pil : str -> width_cm -> str -> pil_outcome.

Definition add_warning (w : option str) (ws : list str) : list str :=
  match w with Some msg => ws ++ [msg] | None => ws end.

Definition process_image (image_path : str) (target_width_cm : width_cm)
  (self : processor) : result * processor :=
  if negb (path_exists image_path) then
    (Failure (lit "File not found: " ++ image_path), self)
  else
    let n := length (processed_images self) + 1 in
    let output_filename :=
      lit "fig_" ++ str_of_nat n ++ lit "_" ++ base_name image_path ++ lit ".png" in
    let output_path := path_join (output_dir self) output_filename in
    let o := pil image_path target_width_cm output_path in
    let warnings' := add_warning (low_dpi_warning o) (warnings self) in
    match outcome o with
    | inl e =>
        (Failure e,
         {| output_dir := output_dir self;
            processed_images := processed_images self;
            warnings := warnings' |})
    | inr facts =>
        let r := {| original_path := image_path;
                    original_size := fact_original_size facts;
                    original_mode := fact_original_mode facts;
                    resized := fact_resized facts;
                    new_size := fact_new_size facts;
                    dpi_warning := match low_dpi_warning o with Some _ => true | None => false end;
                    processed_path := output_path;
                    figure_number := n |} in
        (Success r,
         {| output_dir := output_dir self;
            processed_images := processed_images self ++ [r];
            warnings := warnings' |})
    end.

Fixpoint process_image_list (image_paths : list str) (target_width_cm : width_cm)
  (self : processor) : list result * processor :=
  match image_paths with
  | [] => ([], self)
  | image_path :: rest =>
      let '(r, self1) := process_image image_path target_width_cm self in
      let '(results, self2) := process_image_list rest target_width_cm self1 in
      (r :: results, self2)
  end.

End WithFiles.

(** The figure numbers of the successful results, in order. *)
Fixpoint success_numbers (results : list result) : list nat :=
  match results with
  | [] => []
  | Failure _ :: rest => success_numbers rest
  | Success r :: rest => figure_number r :: success_numbers rest
  end.

Definition number_of (r : result) : option nat :=
  match r with Failure _ => None | Success i => Some (figure_number i) end.

End ImageProcessor.

(* ===================================================================== *)
(** ** StyleApplier ([utils/style_applier.py]) *)
(* ===================================================================== *)

Module StyleApplier.

(** *** The output document (the part of python-docx the renderer uses)

    Lengths are integers in English Metric Units, as python-docx keeps them. *)

Definition Pt (points : Z) : Z := (points * 12700)%Z.

Inductive alignment : Type := CENTER.

Inductive line_spacing : Type := SINGLE.

(** A font of python-docx: every attribute is unset ([None]) until the
    source assigns it. *)
Record font : Type := {
  font_name : option string;
  font_size : option Z;
  font_bold : option bool;
  font_italic : option bool;
  font_superscript : option bool
}.

(** An attribute the source sets to [True], or leaves unset. *)
Definition set_if (b : bool) : option bool := if b then Some true else None.

Definition plain_font : font :=
  {| font_name := None; font_size := None; font_bold := None;
     font_italic := None; font_superscript := None |}.

(** A run holds text, or a picture of a given width in inches. *)
Inductive run_content : Type :=
| RunText (text : str)
| RunPicture (image_path : str) (width_inches : QArith_base.Q).

Record run : Type := {
  content : run_content;
  run_font : font
}.

Record paragraph : Type := {
  para_style : option string;
  para_alignment : option alignment;
  runs : list run;
  space_before : option Z;
  space_after : option Z;
  left_indent : option Z;
  first_line_indent : option Z;
  line_spacing_rule : option line_spacing
}.

Record style : Type := {
  style_name : string;
  style_font : font;
  style_alignment : option alignment;
  style_space_before : option Z;
  style_space_after : option Z
}.

Record page_layout : Type := {
  page_width : Z;
  page_height : Z;
  top_margin : Z;
  bottom_margin : Z;
  left_margin : Z;
  right_margin : Z
}.

Record docx : Type := {
  layout : option page_layout;
  styles : list style;
  paragraphs : list paragraph
}.

(** [Document()]: the default template, with an empty body. *)
Definition Document : docx := {| layout := None; styles := []; paragraphs := [] |}.

Definition text_run (text : str) (f : font) : run :=
  {| content := RunText text; run_font := f |}.

(** The text the renderer gives to the runs of a paragraph, joined. *)
Definition run_text (r : run) : str :=
  match content r with RunText t => t | RunPicture _ _ => [] end.

Definition paragraph_text (p : paragraph) : str := concat (map run_text (runs p)).

(** The texts [add_run] takes. It hands the text to lxml, which raises
    [ValueError] unless the text is XML compatible: a text with a control
    character other than tab, line feed and carriage return, with a
    surrogate, or with U+FFFE or U+FFFF is refused. *)
Definition xml_char (c : char) : bool :=
  (char_eqb c 9%N || char_eqb c 10%N || char_eqb c 13%N || N.leb 32%N c)
  && negb (in_range 55296%N 57343%N c)
  && negb (char_eqb c 65534%N) && negb (char_eqb c 65535%N).

Definition xml_compatible (text : str) : bool := forallb xml_char text.

(** Whether [add_run] takes the content of a run, and whether it takes
    every run of a paragraph. *)
Definition run_accepted (r : run) : bool :=
  match content r with
  | RunText text => xml_compatible text
  | RunPicture _ _ => true
  end.

Definition accepted (p : paragraph) : bool := forallb run_accepted (runs p).

(** [add_run] stores a line feed and a carriage return of a text as line
    breaks, and python-docx reads a line break back as a line feed; every
    other character is read back as it was given. [docx_text] is the text
    python-docx reads back from a paragraph ([paragraph.text]). *)
Definition read_back (text : str) : str :=
  map (fun c => if char_eqb c 13%N then newline else c) text.

Definition docx_text (p : paragraph) : str := read_back (paragraph_text p).

(** *** SpringerStyles *)

Definition TIMES : string := "Times New Roman".
Definition TITLE_SIZE : Z := Pt 14.
Definition AUTHOR_SIZE : Z := Pt 11.
Definition ABSTRACT_SIZE : Z := Pt 10.
Definition BODY_SIZE : Z := Pt 11.
Definition HEADING1_SIZE : Z := Pt 12.
Definition HEADING2_SIZE : Z := Pt 11.
Definition HEADING3_SIZE : Z := Pt 10.
Definition CAPTION_SIZE : Z := Pt 10.
(** [Cm(2.5)], [Cm(21)], [Cm(29.7)], [Cm(0.5)] in EMU. *)
Definition MARGIN : Z := 900000.
Definition A4_WIDTH : Z := 7560000.
Definition A4_HEIGHT : Z := 10692000.
Definition HALF_CM : Z := 180000.
Definition PARAGRAPH_AFTER : Z := Pt 6.

(** *** The state of a StyleApplier *)

Record applier : Type := {
  document : option docx;
  figure_counter : nat;
  table_counter : nat;
  changes_log : list str
}.

(** [StyleApplier()] *)
Definition new_applier : applier :=
  {| document := None; figure_counter := 0; table_counter := 0; changes_log := [] |}.

(** A method body: the state after the call, or [None] when it raises. *)
Definition action : Type := applier -> option applier.

Definition and_then (a b : action) : action :=
  fun self => match a self with Some self' => b self' | None => None end.

Notation "a >> b" := (and_then a b) (at level 61, left associativity).

Definition skip : action := fun self => Some self.

Definition when (c : bool) (a : action) : action := if c then a else skip.

Fixpoint for_each {A : Type} (f : A -> action) (l : list A) : action :=
  match l with
  | [] => skip
  | x :: rest => f x >> for_each f rest
  end.

(** [self.document.add_paragraph()] followed by the [add_run] calls and the
    formatting of the new paragraph; raises when there is no document, and
    when [add_run] refuses the text of a run. *)
Definition add_paragraph (p : paragraph) : action :=
  fun self =>
    match document self with
    | None => None
    | Some d =>
        if accepted p then
          Some {| document := Some {| layout := layout d; styles := styles d;
                                      paragraphs := paragraphs d ++ [p] |};
                  figure_counter := figure_counter self;
                  table_counter := table_counter self;
                  changes_log := changes_log self |}
        else None
    end.

(** [self.changes_log.append(entry)] *)
Definition log (entry : str) : action :=
  fun self =>
    Some {| document := document self;
            figure_counter := figure_counter self;
            table_counter := table_counter self;
            changes_log := changes_log self ++ [entry] |}.

Definition set_document (d : docx) : action :=
  fun self =>
    Some {| document := Some d;
            figure_counter := figure_counter self;
            table_counter := table_counter self;
            changes_log := changes_log self |}.

Definition update_document (f : docx -> docx) : action :=
  fun self =>
    match document self with
    | None => None
    | Some d => set_document (f d) self
    end.

(** *** create_new_document *)

Definition _setup_page_layout : action :=
  update_document (fun d =>
    {| layout := Some {| page_width := A4_WIDTH; page_height := A4_HEIGHT;
                         top_margin := MARGIN; bottom_margin := MARGIN;
                         left_margin := MARGIN; right_margin := MARGIN |};
       styles := styles d; paragraphs := paragraphs d |})
  >> log (lit "Page margins set to 2.5cm all sides").

Definition has_style (name : string) (d : docx) : bool :=
  existsb (fun s => String.eqb (style_name s) name) (styles d).

Definition add_style (s : style) (d : docx) : docx :=
  if has_style (style_name s) d then d
  else {| layout := layout d; styles := styles d ++ [s]; paragraphs := paragraphs d |}.

Definition lncs_title_style : style :=
  {| style_name := "LNCS Title";
     style_font := {| font_name := Some TIMES; font_size := Some TITLE_SIZE;
                      font_bold := Some true; font_italic := None; font_superscript := None |};
     style_alignment := Some CENTER;
     style_space_before := None; style_space_after := Some (Pt 12) |}.

Definition lncs_author_style : style :=
  {| style_name := "LNCS Author";
     style_font := {| font_name := Some TIMES; font_size := Some AUTHOR_SIZE;
                      font_bold := None; font_italic := None; font_superscript := None |};
     style_alignment := Some CENTER;
     style_space_before := None; style_space_after := Some (Pt 6) |}.

Definition lncs_abstract_style : style :=
  {| style_name := "LNCS Abstract";
     style_font := {| font_name := Some TIMES; font_size := Some ABSTRACT_SIZE;
                      font_bold := None; font_italic := Some true; font_superscript := None |};
     style_alignment := None;
     style_space_before := None; style_space_after := Some (Pt 12) |}.

Definition lncs_caption_style : style :=
  {| style_name := "LNCS Caption";
     style_font := {| font_name := Some TIMES; font_size := Some CAPTION_SIZE;
                      font_bold := None; font_italic := None; font_superscript := None |};
     style_alignment := Some CENTER;
     style_space_before := Some (Pt 6); style_space_after := Some (Pt 12) |}.

Definition _create_styles : action :=
  update_document (fun d =>
    add_style lncs_caption_style
      (add_style lncs_abstract_style
        (add_style lncs_author_style
          (add_style lncs_title_style d)))).

Definition create_new_document : action :=
  set_document Document >> _setup_page_layout >> _create_styles.

(** *** The parsed content the renderer consumes *)

Record author : Type := {
  author_name : str;
  author_email : option str;
  author_affiliation : option str
}.

(** The dict [parse_sections] returns. *)
Record parsed_content : Type := {
  title : str;
  authors : list author;
  abstract : DocumentParser.abstract;
  keywords : list str;
  sections : list section;
  references : list str;
  raw_paragraphs : list str
}.

(** One entry of [images_data]. *)
Record image_info : Type := {
  img_path : str;
  img_caption : str;
  img_number : nat;
  img_width : QArith_base.Q;
  img_original_path : str
}.

(** *** add_title *)

Definition title_paragraph (t : str) : paragraph :=
  {| para_style := Some "LNCS Title"%string;
     para_alignment := Some CENTER;
     runs := [text_run t {| font_name := Some TIMES; font_size := Some TITLE_SIZE;
                            font_bold := Some true; font_italic := None;
                            font_superscript := None |}];
     space_before := None; space_after := None; left_indent := None;
     first_line_indent := None; line_spacing_rule := None |}.

(** [self.document.styles[name]] raises for a style the document lacks. *)
Definition require_style (name : string) : action :=
  fun self =>
    match document self with
    | None => None
    | Some d => if has_style name d then Some self else None
    end.

Definition add_title (t : str) : action :=
  require_style "LNCS Title"
  >> add_paragraph (title_paragraph t)
  >> log (lit "Title formatted (14pt, Bold, Center)").

(** *** add_authors *)

(** The runs of the authors from position [i] on, of [n] authors. *)
Fixpoint author_runs (i n : nat) (l : list author) : list run :=
  match l with
  | [] => []
  | a :: rest =>
      [text_run (author_name a)
         {| font_name := Some TIMES; font_size := Some AUTHOR_SIZE; font_bold := None;
            font_italic := None; font_superscript := None |};
       text_run (str_of_nat (i + 1))
         {| font_name := None; font_size := Some (Pt 8); font_bold := None;
            font_italic := None; font_superscript := Some true |}]
      ++ (if i <? n - 1 then [text_run (lit ", ") plain_font] else [])
      ++ author_runs (S i) n rest
  end.

Definition authors_paragraph (l : list author) : paragraph :=
  {| para_style := None; para_alignment := Some CENTER;
     runs := author_runs 0 (length l) l;
     space_before := None; space_after := None; left_indent := None;
     first_line_indent := None; line_spacing_rule := None |}.

Definition add_authors (l : list author) : action :=
  match l with
  | [] => skip
  | _ => add_paragraph (authors_paragraph l)
         >> log (lit "Authors formatted with superscript affiliations")
  end.

(** *** add_abstract *)

Definition abstract_font (bold italic : bool) : font :=
  {| font_name := Some TIMES; font_size := Some ABSTRACT_SIZE; font_bold := set_if bold;
     font_italic := set_if italic; font_superscript := None |}.

Definition abstract_paragraph (abstract_text : str) : paragraph :=
  {| para_style := None; para_alignment := None;
     runs := [text_run (lit "Abstract. ") (abstract_font true false);
              text_run abstract_text (abstract_font false true)];
     space_before := None; space_after := Some (Pt 12); left_indent := None;
     first_line_indent := None; line_spacing_rule := None |}.

Definition add_abstract (abstract_data : DocumentParser.abstract) : action :=
  let abstract_text := abs_text abstract_data in
  if truthy abstract_text then
    add_paragraph (abstract_paragraph abstract_text)
    >> log (lit "Abstract prefixed with " ++ [34%N] ++ lit "Abstract." ++ [34%N]
            ++ lit " (10pt, Italic)")
  else skip.

(** *** add_keywords *)

(** The separator of the keyword line: a middle dot between two blanks. *)
Definition keyword_separator : str := [32; 183; 32]%N.

Definition keywords_paragraph (l : list str) : paragraph :=
  {| para_style := None; para_alignment := None;
     runs := [text_run (lit "Keywords: ") (abstract_font true false);
              text_run (join keyword_separator l) (abstract_font false false)];
     space_before := None; space_after := Some (Pt 18); left_indent := None;
     first_line_indent := None; line_spacing_rule := None |}.

Definition add_keywords (l : list str) : action :=
  match l with
  | [] => skip
  | _ => add_paragraph (keywords_paragraph l)
         >> log (lit "Keywords formatted (" ++ str_of_nat (length l) ++ lit " keywords)")
  end.

(** *** add_heading, add_body_paragraph, add_section *)

(** "^\s*\d+\.?\s*", the number in front of a heading. *)
Definition pat_heading_number : re :=
  seq_all [ws_star; Plus is_digit; Opt (ch "."); ws_star].

Definition heading_paragraph (text : str) (level : nat) : paragraph :=
  let clean_text := re_sub_prefix pat_heading_number text in
  let size := if level =? 1 then HEADING1_SIZE
              else if level =? 2 then HEADING2_SIZE else HEADING3_SIZE in
  let before := if level =? 1 then Pt 18 else if level =? 2 then Pt 12 else Pt 9 in
  {| para_style := None; para_alignment := None;
     runs := [text_run clean_text
                {| font_name := Some TIMES; font_size := Some size; font_bold := Some true;
                   font_italic := None; font_superscript := None |}];
     space_before := Some before; space_after := Some (Pt 6); left_indent := None;
     first_line_indent := None; line_spacing_rule := None |}.

Definition add_heading (text : str) (level : nat) : action :=
  add_paragraph (heading_paragraph text level).

Definition body_paragraph (text : str) : paragraph :=
  {| para_style := None; para_alignment := None;
     runs := [text_run text
                {| font_name := Some TIMES; font_size := Some BODY_SIZE; font_bold := None;
                   font_italic := None; font_superscript := None |}];
     space_before := None; space_after := Some PARAGRAPH_AFTER; left_indent := None;
     first_line_indent := None; line_spacing_rule := Some SINGLE |}.

Definition add_body_paragraph (text : str) : action :=
  add_paragraph (body_paragraph text).

Definition level_1_sections : list string :=
  ["introduction"; "related_work"; "methodology"; "results"; "discussion";
   "conclusion"; "references"]%string.

Definition _get_heading_level (section_type : string) : nat :=
  if existsb (String.eqb section_type) level_1_sections then 1
  else if String.eqb section_type "numbered_section" then 1
  else 2.

(** The body paragraphs of a section: the lines of its content that are
    not blank, stripped. *)
Definition content_lines (content : str) : list str :=
  if truthy content then
    map strip (filter (fun para_text => truthy (strip para_text))
                      (split_on (char_eqb newline) content))
  else [].

Definition add_section (s : section) : action :=
  add_heading (sec_title s) (_get_heading_level (sec_type s))
  >> for_each add_body_paragraph (content_lines (sec_content s)).

(** *** add_references *)

Definition reference_font : font :=
  {| font_name := Some TIMES; font_size := Some (Pt 9); font_bold := None;
     font_italic := None; font_superscript := None |}.

(** The paragraph of the reference that [enumerate(references, 1)] numbers [i]. *)
Definition reference_paragraph (i : nat) (ref : str) : paragraph :=
  let clean_ref := re_sub_prefix pat_reference_number ref in
  {| para_style := None; para_alignment := None;
     runs := [text_run (lit "[" ++ str_of_nat i ++ lit "] ") reference_font;
              text_run clean_ref reference_font];
     space_before := None; space_after := Some (Pt 3);
     left_indent := Some HALF_CM; first_line_indent := Some (- HALF_CM)%Z;
     line_spacing_rule := None |}.

(** The loop over [enumerate(references, i)]. *)
Fixpoint add_reference_entries (i : nat) (refs : list str) : action :=
  match refs with
  | [] => skip
  | ref :: rest => add_paragraph (reference_paragraph i ref) >> add_reference_entries (S i) rest
  end.

Definition add_references (refs : list str) : action :=
  match refs with
  | [] => skip
  | _ => add_heading (lit "References") 1
         >> add_reference_entries 1 refs
         >> log (lit "References formatted: " ++ str_of_nat (length refs) ++ lit " items")
  end.

(** *** apply_springer_style *)

Definition reset_counters : action :=
  fun self =>
    Some {| document := document self; figure_counter := 0; table_counter := 0;
            changes_log := changes_log self |}.

Definition apply_springer_style (parsed : parsed_content) : action :=
  create_new_document
  >> reset_counters
  >> when (truthy (title parsed)) (add_title (title parsed))
  >> when (match authors parsed with [] => false | _ => true end) (add_authors (authors parsed))
  >> add_abstract (abstract parsed)   (* the abstract dict is never empty *)
  >> when (match keywords parsed with [] => false | _ => true end) (add_keywords (keywords parsed))
  >> for_each add_section (sections parsed)
  >> when (match references parsed with [] => false | _ => true end)
          (add_references (references parsed)).

Section WithFiles.

(** [os.path.exists], and whether [run.add_picture] returns for the file at
    a path and a width in inches: python-docx raises when it cannot read
    the file as a picture or cannot store the picture at that width. *)
Variable path_exists : str -> bool.
Variable picture_accepted : str -> QArith_base.Q -> bool.

(** *** add_figure *)

Definition picture_paragraph (image_path : str) (width_inches : QArith_base.Q) : paragraph :=
  {| para_style := None; para_alignment := Some CENTER;
     runs := [{| content := RunPicture image_path width_inches; run_font := plain_font |}];
     space_before := None; space_after := None; left_indent := None;
     first_line_indent := None; line_spacing_rule := None |}.

Definition caption_font (bold : bool) : font :=
  {| font_name := Some TIMES; font_size := Some CAPTION_SIZE; font_bold := set_if bold;
     font_italic := None; font_superscript := None |}.

(** The caption paragraph of figure number [n]. *)
Definition caption_paragraph (n : nat) (caption : str) : paragraph :=
  let caption_text :=
    if truthy caption then caption else lit "Description of figure " ++ str_of_nat n in
  {| para_style := None; para_alignment := Some CENTER;
     runs := [text_run (lit "Fig. " ++ str_of_nat n ++ lit ". ") (caption_font true);
              text_run caption_text (caption_font false)];
     space_before := None; space_after := Some (Pt 12); left_indent := None;
     first_line_indent := None; line_spacing_rule := None |}.

Definition increment_figure_counter : action :=
  fun self =>
    Some {| document := document self; figure_counter := figure_counter self + 1;
            table_counter := table_counter self; changes_log := changes_log self |}.

Definition add_picture (image_path : str) (width_inches : QArith_base.Q) : action :=
  fun self =>
    match document self with
    | None => None
    | Some _ => if picture_accepted image_path width_inches then Some self else None
    end.

Definition add_figure (image_path caption : str) (width_inches : QArith_base.Q) : action :=
  increment_figure_counter
  >> when (path_exists image_path)
          (add_picture image_path width_inches
           >> add_paragraph (picture_paragraph image_path width_inches))
  >> (fun self => add_paragraph (caption_paragraph (figure_counter self) caption) self)
  >> (fun self => log (lit "Figure " ++ str_of_nat (figure_counter self)
                       ++ lit " inserted with caption") self).

(** *** insert_images_at_positions *)

Definition insert_images_at_positions (images_data : list image_info) : action :=
  for_each (fun img_info => add_figure (img_path img_info) (img_caption img_info)
                                       (img_width img_info))
           images_data.

End WithFiles.

(** *** save_document, get_changes_log, apply_springer_format *)

Section WithSave.

(** Whether python-docx writes a document to a path without raising. *)
Variable save : docx -> str -> bool.

(** Every exception is caught, also the one raised when there is no
    document; the method returns [False] then. *)
Definition save_document (output_path : str) (self : applier) : bool :=
  match document self with
  | None => false
  | Some d => save d output_path
  end.

Definition get_changes_log (self : applier) : list str := changes_log self.

(** The dict [apply_springer_format] returns. *)
Record format_result : Type := {
  success : bool;
  output_path : str;
  changes : list str;
  figure_count : nat
}.

Definition apply_springer_format (parsed : parsed_content) (output_path : str)
  : option format_result :=
  match apply_springer_style parsed new_applier with
  | None => None
  | Some applier =>
      Some {| success := save_document output_path applier;
              output_path := output_path;
              changes := get_changes_log applier;
              figure_count := figure_counter applier |}
  end.

End WithSave.

End StyleApplier.

(* ===================================================================== *)
(** ** DocumentParser, continued: loading, title, authors, statistics *)
(* ===================================================================== *)

Module ParseSections.

Import StyleApplier.

(** The object state of a [DocumentParser] that the methods read. *)
Record parser : Type := {
  text_content : str;
  parser_paragraphs : list str
}.

(** *** load_from_text *)

(** The two assignments of the [try] block do not raise on a [str]: the
    method returns [True], with the new state. *)
Definition load_from_text (text : str) : bool * parser :=
  (true,
   {| text_content := text;
      parser_paragraphs :=
        map strip (filter (fun p => truthy (strip p))
                          (split_on (char_eqb newline) text)) |}).

(** *** extract_title *)

(** [para.lower().startswith('abstract')] *)
Definition starts_with_abstract (para : str) : bool :=
  startswith (lit "abstract") (lower_ascii para).

Definition extract_title (paragraphs : list str) : str :=
  match paragraphs with
  | [] => []
  | first :: _ =>
      match find (fun para => (length para <? 200) && negb (starts_with_abstract para))
                 (firstn 3 paragraphs) with
      | Some para => para
      | None => first
      end
  end.

(** *** extract_authors *)

(** "[A-Z][a-z]+" *)
Definition capitalised : re := Seq (Chr is_upper_AZ) (Plus is_lower_az).

(** "([A-Z][a-z]+\s+[A-Z][a-z]+(?:\s+[A-Z][a-z]+)?)"; its one group is the
    whole match. *)
Definition author_pattern : re :=
  seq_all [capitalised; Plus isspace; capitalised; Opt (Seq (Plus isspace) capitalised)].

(** The class "[\w\.-]". *)
Definition is_address_char (c : char) : bool :=
  is_word c || char_eqb c 46%N || char_eqb c 45%N.

(** "[\w\.-]+@[\w\.-]+\.\w+" *)
Definition email_pattern : re :=
  seq_all [Plus is_address_char; ch "@"; Plus is_address_char; ch "."; Plus is_word].

(** The loop over [enumerate(names)], from index [i] on. *)
Fixpoint authors_of (i : nat) (names emails : list str) : list author :=
  match names with
  | [] => []
  | name :: rest =>
      {| author_name := name;
         author_email := nth_error emails i;
         author_affiliation := None |}
      :: authors_of (S i) rest emails
  end.

(** The loop over [self.paragraphs[1:5]], with its [break]. *)
Fixpoint authors_loop (paragraphs : list str) (authors : list author) : list author :=
  match paragraphs with
  | [] => authors
  | para :: rest =>
      if starts_with_abstract para then authors
      else authors_loop rest
             (authors ++ authors_of 0 (findall author_pattern para)
                                      (findall email_pattern para))
  end.

Definition extract_authors (paragraphs : list str) : list author :=
  authors_loop (firstn 4 (skipn 1 paragraphs)) [].

(** *** parse_sections *)

Definition parse_sections (self : parser) : parsed_content :=
  {| title := extract_title (parser_paragraphs self);
     authors := extract_authors (parser_paragraphs self);
     abstract := extract_abstract (parser_paragraphs self);
     keywords := extract_keywords (parser_paragraphs self);
     sections := detect_sections (parser_paragraphs self);
     references := extract_references (parser_paragraphs self);
     raw_paragraphs := parser_paragraphs self |}.

(** *** get_document_stats *)

(** The integer entries of the dict; its fourth entry, [estimated_pages],
    is the float [round(word_count / 275, 1)] and is left out. *)
Record document_stats : Type := {
  stats_word_count : nat;
  character_count : nat;
  paragraph_count : nat
}.

Definition get_document_stats (self : parser) : document_stats :=
  {| stats_word_count := length (split_ws (text_content self));
     character_count := length (text_content self);
     paragraph_count := length (parser_paragraphs self) |}.

(** *** parse_text_content *)

(** [None] stands for the empty dict returned when loading fails. *)
Definition parse_text_content (text : str) : option parsed_content :=
  let '(loaded, parser) := load_from_text text in
  if loaded then Some (parse_sections parser) else None.

End ParseSections.

(* ===================================================================== *)
(** ** ImageProcessor, continued: captions and the data for the renderer *)
(* ===================================================================== *)

Module ImagesData.

Import ImageProcessor StyleApplier.



Section WithNames.

(** [os.path.splitext(os.path.basename(p))[0]], and [str.capitalize]. *)
Variable base_name : str -> str.
Variable capitalize : str -> str.

(** *** generate_caption *)


(** *** get_images_data *)



(** *** get_processing_summary *)

Record processing_summary : Type := {
  total_processed : nat;
  successful : nat;
  failed : nat;
  summary_warnings : list str;
  output_directory : str
}.

(** ['success'] of an entry of [processed_images]. *)
Definition succeeded (img : image_result) : bool := true.

Definition get_processing_summary (self : processor) : processing_summary :=
  let successful := length (filter succeeded (processed_images self)) in
  {| total_processed := length (processed_images self);
     successful := successful;
     failed := length (processed_images self) - successful;
     summary_warnings := warnings self;
     output_directory := output_dir self |}.

End WithNames.

End ImagesData.

(* ===================================================================== *)
(** ** TemplateManager ([utils/template_manager.py]) *)
(* ===================================================================== *)

Module TemplateManager.

Record margins : Type := {
  margin_top : QArith_base.Q;
  margin_bottom : QArith_base.Q;
  margin_left : QArith_base.Q;
  margin_right : QArith_base.Q
}.

(** An entry of the dict [AVAILABLE_TEMPLATES]. *)
Record template : Type := {
  template_name : str;
  template_description : str;
  template_page_size : str;
  template_margins : margins
}.

Definition all_sides (m : QArith_base.Q) : margins :=
  {| margin_top := m; margin_bottom := m; margin_left := m; margin_right := m |}.

(** The class attribute as the class body creates it; a [dict] keeps its
    keys in insertion order. *)
Definition AVAILABLE_TEMPLATES : list (str * template) :=
  [(lit "springer_lncs",
    {| template_name := lit "Springer LNCS";
       template_description := lit "Lecture Notes in Computer Science format";
       template_page_size := lit "A4";
       template_margins := all_sides (QArith_base.Qmake 5 2) |});
   (lit "ieee",
    {| template_name := lit "IEEE Conference";
       template_description := lit "IEEE two-column conference format";
       template_page_size := lit "Letter";
       template_margins :=
         {| margin_top := QArith_base.Qmake 2 1; margin_bottom := QArith_base.Qmake 2 1;
            margin_left := QArith_base.Qmake 7 4; margin_right := QArith_base.Qmake 7 4 |} |});
   (lit "acm",
    {| template_name := lit "ACM SIG";
       template_description := lit "ACM Special Interest Group format";
       template_page_size := lit "Letter";
       template_margins := all_sides (QArith_base.Qmake 5 2) |})].

(** The state of one [TemplateManager]. *)
Record manager : Type := {
  templates_dir : str;
  current_template : str
}.

(** [TemplateManager(templates_dir)]; the directory it creates is an effect
    on the file system only. *)
Definition new_manager (dir : option str) : manager :=
  {| templates_dir :=
       match dir with
       | Some d => if truthy d then d else lit "templates_storage"
       | None => lit "templates_storage"
       end;
     current_template := lit "springer_lncs" |}.

(** The dict [get_template_info] returns: a copy of the entry with its id
    and whether its file exists. *)
Record template_info : Type := {
  info : template;
  info_id : str;
  has_file : bool
}.

(** [template_id in self.AVAILABLE_TEMPLATES] and
    [self.AVAILABLE_TEMPLATES[template_id]]. *)
Fixpoint lookup (template_id : str) (available : list (str * template)) : option template :=
  match available with
  | [] => None
  | (key, entry) :: rest =>
      if str_eqb key template_id then Some entry else lookup template_id rest
  end.

Definition known (template_id : str) (available : list (str * template)) : bool :=
  match lookup template_id available with Some _ => true | None => false end.

Section WithFiles.

(** The file system: its states, [os.path.exists], [os.path.join],
    [shutil.copy2] (the state it leaves, and [false] when it raises), and
    [str.title]. *)
Variable files : Type.
Variable path_exists : files -> str -> bool.
Variable path_join : str -> str -> str.
Variable copy2 : files -> str -> str -> files * bool.
Variable title_case : str -> str.

(** What the instances share: the class attribute, which [upload_template]
    mutates, and the file system. *)
Record world : Type := {
  available : list (str * template);
  file_system : files
}.

Definition _get_template_path (self : manager) (template_id : str) : str :=
  path_join (templates_dir self) (template_id ++ lit ".docx").

Definition _template_file_exists (w : world) (self : manager) (template_id : str) : bool :=
  path_exists (file_system w) (_get_template_path self template_id).

Definition get_template_info (w : world) (self : manager) (template_id : str)
  : option template_info :=
  match lookup template_id (available w) with
  | Some entry =>
      Some {| info := entry; info_id := template_id;
              has_file := _template_file_exists w self template_id |}
  | None => None
  end.

Definition set_current_template (w : world) (self : manager) (template_id : str)
  : bool * manager :=
  if known template_id (available w)
  then (true, {| templates_dir := templates_dir self; current_template := template_id |})
  else (false, self).

Definition get_current_template (w : world) (self : manager) : option template_info :=
  get_template_info w self (current_template self).

Definition upload_template (w : world) (self : manager) (file_path template_id : str)
  : bool * world :=
  if negb (path_exists (file_system w) file_path) then (false, w)
  else
    let '(fs, copied) :=
      copy2 (file_system w) file_path (_get_template_path self template_id) in
    if copied then
      (true,
       {| available :=
            if known template_id (available w) then available w
            else available w
                 ++ [(template_id,
                      {| template_name := title_case (replace_char 95%N 32%N template_id);
                         template_description := lit "Custom uploaded template";
                         template_page_size := lit "A4";
                         template_margins := all_sides (QArith_base.Qmake 5 2) |})];
          file_system := fs |})
    else (false, {| available := available w; file_system := fs |}).

End WithFiles.

End TemplateManager.

(* ===================================================================== *)
(** ** File names and the rendering steps of [process_document] ([app.py]) *)
(* ===================================================================== *)

Module App.

Import StyleApplier.

(** The sets [ALLOWED_DOC_EXTENSIONS] and [ALLOWED_IMAGE_EXTENSIONS] of the
    configuration. *)
Definition ALLOWED_DOC_EXTENSIONS : list str := map lit ["docx"; "doc"; "txt"]%string.

Definition ALLOWED_IMAGE_EXTENSIONS : list str :=
  map lit ["png"; "jpg"; "jpeg"; "tiff"; "tif"; "bmp"]%string.

Definition allowed_file (filename : str) (file_type : string) : bool :=
  match rsplit1 46%N filename with
  | None => false
  | Some (_, ext) =>
      let ext := lower_ascii ext in
      if String.eqb file_type "doc" then existsb (str_eqb ext) ALLOWED_DOC_EXTENSIONS
      else if String.eqb file_type "image" then existsb (str_eqb ext) ALLOWED_IMAGE_EXTENSIONS
      else false
  end.

(** Lines 197 to 199 of [process_document]: the name of the formatted
    file, from the name of the uploaded document. *)
Definition output_filename (filename : str) : str :=
  let output_filename := lit "formatted_" ++ filename in
  if negb (endswith (lit ".docx") output_filename) then
    match rsplit1 46%N output_filename with
    | Some (stem, _) => stem
    | None => output_filename
    end ++ lit ".docx"
  else output_filename.

(** Lines 185 to 191 of [process_document]: a fresh [StyleApplier] applies
    the style to the parsed content, then the images are inserted when
    there are any. The result is the applier that is saved, or [None] when
    a step raised. *)
Definition process_document (path_exists : str -> bool)
  (picture_accepted : str -> QArith_base.Q -> bool)
  (parsed : parsed_content) (images_data : list image_info) : option applier :=
  (apply_springer_style parsed
   >> when (match images_data with [] => false | _ => true end)
           (insert_images_at_positions path_exists picture_accepted images_data))
  new_applier.

End App.

(* ===================================================================== *)
(** * Vocabulary of the properties

    Definitions the statements and proofs below are written with: what a
    method appends to the document and to the log, the blocks of the
    detected sections, and the concrete inputs of the examples. *)
(* ===================================================================== *)

Import ImageProcessor StyleApplier ParseSections ImagesData App.

(** ** Strings and keywords *)

(** A token as [extract_keywords] produces them: non-empty, trimmed, and
    free of the four delimiters. *)
Definition keyword_token (t : str) : Prop :=
  t <> [] /\ strip t = t /\ forallb (fun c => negb (is_keyword_delimiter c)) t = true.

(** The code points of [isspace], listed. *)
Definition whitespace_code_points : list N :=
  [9; 10; 11; 12; 13; 28; 29; 30; 31; 32; 133; 160; 5760; 8192; 8193; 8194;
   8195; 8196; 8197; 8198; 8199; 8200; 8201; 8202; 8232; 8233; 8239; 8287;
   12288]%N.

(** ** Sections *)

(** A paragraph that opens no section. *)
Definition plain (p : str) : Prop := _get_section_type p = None.

(** The paragraphs of a section: its heading, then its body. *)
Definition block (sb : section * list str) : list str := sec_title (fst sb) :: snd sb.

(** A detected section next to the paragraphs its content was built from. *)
Definition well_formed (sb : section * list str) : Prop :=
  _get_section_type (sec_title (fst sb)) = Some (sec_type (fst sb))
  /\ Forall plain (snd sb)
  /\ sec_content (fst sb) = join nl (snd sb).

(** The sections the loop still produces while a section is open, each with
    its body paragraphs. *)
Fixpoint scan_open (ps : list str) (i : nat) (cur : open_section) (body : list str)
  : list (section * list str) :=
  match ps with
  | [] => [(close_section cur body, body)]
  | para :: rest =>
      match _get_section_type para with
      | Some ty =>
          (close_section cur body, body)
          :: scan_open rest (S i) {| cur_type := ty; cur_title := para; cur_start := i |} []
      | None => scan_open rest (S i) cur (body ++ [para])
      end
  end.

(** The same before the first heading. *)
Fixpoint scan_closed (ps : list str) (i : nat) : list (section * list str) :=
  match ps with
  | [] => []
  | para :: rest =>
      match _get_section_type para with
      | Some ty => scan_open rest (S i) {| cur_type := ty; cur_title := para; cur_start := i |} []
      | None => scan_closed rest (S i)
      end
  end.

(** ** Patterns *)

(** The first character of a non-empty accepted text: [first_ok r c] holds
    when [r] may start with [c] or may accept the empty text. *)
Fixpoint first_ok (r : re) (c : char) : bool :=
  match r with
  | Eps => true
  | Chr p => p c
  | Seq a _ => first_ok a c
  | Alt a b => first_ok a c || first_ok b c
  | Opt _ => true
  | Star _ => true
  | Plus p => p c
  | Eos => true
  end.

(** The number each pattern of the table allows in front of its words. *)
Definition own_number : list (string * ascii) :=
  [("introduction"%string, "1"%char); ("related_work"%string, "2"%char);
   ("methodology"%string, "3"%char); ("results"%string, "4"%char);
   ("discussion"%string, "5"%char); ("conclusion"%string, "6"%char)].

(** A text that differs from the word [w] only by ASCII letter case. *)
Definition case_variant (w : string) (core : str) : Prop :=
  map ascii_lower core = lit w.

(** A paragraph that [extract_references] takes as the heading. *)
Definition references_heading (p : str) : bool := matches pat_references p.

(** The words of every pattern of the table begin with a letter; [letter]
    is the lemma that such a letter matches neither whitespace nor a digit. *)
Ltac words_start_with_letter letter :=
  let x := fresh "x" in
  let Hx := fresh "Hx" in
  intros x Hx; cbn -[ci_lit];
  rewrite ?(fun p H => letter p x H Hx) by reflexivity;
  reflexivity.

(** ** Rendering *)

(** The state [self] with the paragraphs [ps] appended to its document [d]
    and the entries [ls] appended to its log. *)
Definition extend (self : applier) (d : docx) (ps : list paragraph) (ls : list str)
  : applier :=
  {| document := Some {| layout := layout d; styles := styles d;
                         paragraphs := paragraphs d ++ ps |};
     figure_counter := figure_counter self;
     table_counter := table_counter self;
     changes_log := changes_log self ++ ls |}.

(** An action that, on an applier with a document, only appends the
    paragraphs [ps] and the log entries [ls] when [add_run] takes every
    text of [ps], and raises when it refuses one. *)
Definition appends (a : action) (ps : list paragraph) (ls : list str) : Prop :=
  forall self d,
    document self = Some d ->
    a self = if forallb accepted ps then Some (extend self d ps ls) else None.

(** The same for an action that needs the title style in the document. *)
Definition appends_styled (a : action) (ps : list paragraph) (ls : list str) : Prop :=
  forall self d,
    document self = Some d -> has_style "LNCS Title" d = true ->
    a self = if forallb accepted ps then Some (extend self d ps ls) else None.

(** Parsed content every text of which [add_run] takes, and images whose
    captions it takes. *)
Definition renderable (parsed : parsed_content) : bool :=
  xml_compatible (title parsed)
  && forallb (fun a => xml_compatible (author_name a)) (authors parsed)
  && xml_compatible (abs_text (abstract parsed))
  && forallb xml_compatible (keywords parsed)
  && forallb (fun s => xml_compatible (sec_title s) && xml_compatible (sec_content s))
             (sections parsed)
  && forallb xml_compatible (references parsed).

Definition captions_compatible (images_data : list image_info) : bool :=
  forallb (fun img => xml_compatible (img_caption img)) images_data.

(** What each step of a pass appends to the document: nothing for an empty
    field, the paragraphs of the method otherwise. *)
Definition title_part (parsed : parsed_content) : list paragraph :=
  if truthy (title parsed) then [title_paragraph (title parsed)] else [].

Definition authors_part (parsed : parsed_content) : list paragraph :=
  match authors parsed with [] => [] | l => [authors_paragraph l] end.

Definition abstract_part (parsed : parsed_content) : list paragraph :=
  if truthy (abs_text (abstract parsed))
  then [abstract_paragraph (abs_text (abstract parsed))] else [].

Definition keywords_part (parsed : parsed_content) : list paragraph :=
  match keywords parsed with [] => [] | l => [keywords_paragraph l] end.

Definition section_part (s : section) : list paragraph :=
  heading_paragraph (sec_title s) (_get_heading_level (sec_type s))
  :: map body_paragraph (content_lines (sec_content s)).

Fixpoint reference_entries (i : nat) (refs : list str) : list paragraph :=
  match refs with
  | [] => []
  | ref :: rest => reference_paragraph i ref :: reference_entries (S i) rest
  end.

Definition references_part (parsed : parsed_content) : list paragraph :=
  match references parsed with
  | [] => []
  | refs => heading_paragraph (lit "References") 1 :: reference_entries 1 refs
  end.

(** The paragraphs of the figures when [n] figures were inserted before. *)
Fixpoint figures_part (path_exists : str -> bool) (n : nat)
  (images_data : list image_info) : list paragraph :=
  match images_data with
  | [] => []
  | img :: rest =>
      (if path_exists (img_path img)
       then [picture_paragraph (img_path img) (img_width img)] else [])
      ++ caption_paragraph (n + 1) (img_caption img)
      :: figures_part path_exists (n + 1) rest
  end.

(** The log entries of a pass: the entry of the page layout, the entry of
    each field that is not empty, the entries of the figures. *)
Definition margins_entry : str := lit "Page margins set to 2.5cm all sides".

Definition title_log (parsed : parsed_content) : list str :=
  if truthy (title parsed) then [lit "Title formatted (14pt, Bold, Center)"] else [].

Definition authors_log (parsed : parsed_content) : list str :=
  match authors parsed with
  | [] => []
  | _ => [lit "Authors formatted with superscript affiliations"]
  end.

Definition abstract_log (parsed : parsed_content) : list str :=
  if truthy (abs_text (abstract parsed))
  then [lit "Abstract prefixed with " ++ [34%N] ++ lit "Abstract." ++ [34%N]
        ++ lit " (10pt, Italic)"]
  else [].

Definition keywords_log (parsed : parsed_content) : list str :=
  match keywords parsed with
  | [] => []
  | l => [lit "Keywords formatted (" ++ str_of_nat (length l) ++ lit " keywords)"]
  end.

Definition references_log (parsed : parsed_content) : list str :=
  match references parsed with
  | [] => []
  | l => [lit "References formatted: " ++ str_of_nat (length l) ++ lit " items"]
  end.

Fixpoint figures_log (n : nat) (images_data : list image_info) : list str :=
  match images_data with
  | [] => []
  | _ :: rest =>
      (lit "Figure " ++ str_of_nat (n + 1) ++ lit " inserted with caption")
      :: figures_log (n + 1) rest
  end.

(** The log entry of figure number [n]. *)
Definition figure_entry (n : nat) : str :=
  lit "Figure " ++ str_of_nat n ++ lit " inserted with caption".

(** The document [create_new_document] leaves: A4 layout, the four LNCS
    styles, no paragraph. *)
Definition styled_document : docx :=
  {| layout := Some {| page_width := A4_WIDTH; page_height := A4_HEIGHT;
                       top_margin := MARGIN; bottom_margin := MARGIN;
                       left_margin := MARGIN; right_margin := MARGIN |};
     styles := [lncs_title_style; lncs_author_style; lncs_abstract_style;
                lncs_caption_style];
     paragraphs := [] |}.

(** The paragraphs and the log entries of [apply_springer_style], after the
    entry of the page layout. *)
Definition styled_paragraphs (parsed : parsed_content) : list paragraph :=
  title_part parsed ++ authors_part parsed ++ abstract_part parsed
  ++ keywords_part parsed ++ flat_map section_part (sections parsed)
  ++ references_part parsed.

Definition styled_log (parsed : parsed_content) : list str :=
  title_log parsed ++ authors_log parsed ++ abstract_log parsed
  ++ keywords_log parsed ++ references_log parsed.

(** The paragraphs in the order the claim C1 states: the figures before the
    references. *)
Definition claimed_order (path_exists : str -> bool) (parsed : parsed_content)
  (images_data : list image_info) : list paragraph :=
  title_part parsed ++ authors_part parsed ++ abstract_part parsed
  ++ keywords_part parsed ++ flat_map section_part (sections parsed)
  ++ figures_part path_exists 0 images_data
  ++ references_part parsed.

(** The parsed content with authors, abstract and keywords emptied. *)
Definition without_front_matter (parsed : parsed_content) : parsed_content :=
  {| title := title parsed;
     authors := [];
     abstract := {| abs_text := []; word_count := 0; is_valid := false |};
     keywords := [];
     sections := sections parsed;
     references := references parsed;
     raw_paragraphs := raw_paragraphs parsed |}.

(** ** Images *)

(** A result belongs to the path it was computed from. *)
Definition result_of (image_path : str) (r : result) : Prop :=
  match r with
  | Failure _ => True
  | Success i => original_path i = image_path
  end.

(** An image that is processed whatever came before it, and one that is
    not: the file is missing, or the imaging library raises. *)
Definition succeeds (width_cm : Type) (path_exists : str -> bool)
  (pil : str -> width_cm -> str -> pil_outcome) (target_width_cm : width_cm)
  (image_path : str) : Prop :=
  path_exists image_path = true
  /\ forall out, exists facts, outcome (pil image_path target_width_cm out) = inr facts.

Definition fails (width_cm : Type) (path_exists : str -> bool)
  (pil : str -> width_cm -> str -> pil_outcome) (target_width_cm : width_cm)
  (image_path : str) : Prop :=
  path_exists image_path = false
  \/ forall out, exists e, outcome (pil image_path target_width_cm out) = inl e.

(** ** Concrete inputs *)

(** The input of the scenario of the specification, and one processed
    image. *)
Definition scenario_paragraphs : list str :=
  map lit ["A Study of X"; "Jane Doe jane@x.edu"; "Abstract. This work presents...";
           "Keywords: ml, nlp"; "1. Introduction"; "Text."; "References";
           "[1] Smith 2020"]%string.

Definition scenario_parsed : parsed_content :=
  {| title := lit "A Study of X";
     authors := [{| author_name := lit "Jane Doe";
                    author_email := Some (lit "jane@x.edu");
                    author_affiliation := None |}];
     abstract := extract_abstract scenario_paragraphs;
     keywords := extract_keywords scenario_paragraphs;
     sections := detect_sections scenario_paragraphs;
     references := extract_references scenario_paragraphs;
     raw_paragraphs := scenario_paragraphs |}.

Definition scenario_image : image_info :=
  {| img_path := lit "out/images/fig_1_overview.png";
     img_caption := lit "Overview";
     img_number := 1;
     img_width := QArith_base.Qmake 11 2;
     img_original_path := lit "uploads/overview.png" |}.

(** Two file systems: every path exists, no path exists; and a library
    that takes every picture. *)
Definition every_file (p : str) : bool := true.

Definition no_file (p : str) : bool := false.

Definition every_picture (p : str) (width_inches : QArith_base.Q) : bool := true.

(** A document with one section only, and one with nothing at all. *)
Definition section_only : parsed_content :=
  {| title := []; authors := [];
     abstract := {| abs_text := []; word_count := 0; is_valid := false |};
     keywords := [];
     sections := [{| sec_type := "introduction"; sec_title := lit "1. Introduction";
                     sec_content := lit "Text."; start_index := 0 |}];
     references := [];
     raw_paragraphs := [lit "1. Introduction"; lit "Text."] |}.

Definition nothing_parsed : parsed_content :=
  {| title := []; authors := [];
     abstract := {| abs_text := []; word_count := 0; is_valid := false |};
     keywords := []; sections := []; references := []; raw_paragraphs := [] |}.

(** A file system in which "b.png" is missing and every other image is
    processed. *)
Definition all_but_b (p : str) : bool := negb (str_eqb p (lit "b.png")).

Definition always_saved (p : str) (w : nat) (out : str) : pil_outcome :=
  {| low_dpi_warning := None;
     outcome := inr {| fact_original_size := (800, 600); fact_original_mode := "RGB";
                       fact_resized := false; fact_new_size := (800, 600) |} |}.

(** ** Paragraphs as the loaders store them *)

(** A text without a line feed. *)
Definition one_line (p : str) : bool := forallb is_dot p.

(** A paragraph as [load_from_text] stores it: not empty, trimmed, on one
    line. *)
Definition clean_paragraph (p : str) : Prop :=
  p <> [] /\ strip p = p /\ one_line p = true.

(** ** Authors *)

(** A capitalised word of ASCII letters, a non-empty run of whitespace. *)
Definition capitalised_word (w : str) : Prop :=
  exists c t, w = c :: t /\ is_upper_AZ c = true /\ t <> []
              /\ forallb is_lower_az t = true.

Definition blanks (w : str) : Prop := w <> [] /\ forallb isspace w = true.

(** Two or three capitalised words with whitespace between them. *)
Definition author_shaped (name : str) : Prop :=
  exists w1 b1 w2 tail,
    name = w1 ++ b1 ++ w2 ++ tail
    /\ capitalised_word w1 /\ blanks b1 /\ capitalised_word w2
    /\ (tail = [] \/ exists b2 w3, tail = b2 ++ w3 /\ blanks b2 /\ capitalised_word w3).

(** A text that occurs in another. *)
Definition occurs_in (m s : str) : Prop := exists pre post, s = pre ++ m ++ post.

(** ** The abstract *)

(** A paragraph at which the abstract ends: the keywords line, or a
    section heading. *)
Definition ends_abstract (p : str) : bool :=
  matches pat_keywords_stop p || _is_section_heading p.

(** A paragraph that goes on with the abstract. *)
Definition continues_abstract (p : str) : bool :=
  negb (matches pat_abstract p) && negb (ends_abstract p).

(** The paragraphs of an abstract after the first, each after a blank. *)
Definition continued (body : list str) : str :=
  concat (map (fun p => lit " " ++ p) body).

(** ** Headings and references in the rendered document *)

(** Whether a pattern may accept the empty text. *)
Fixpoint nullable (r : re) : bool :=
  match r with
  | Eps => true
  | Chr _ => false
  | Seq a b => nullable a && nullable b
  | Alt a b => nullable a || nullable b
  | Opt _ => true
  | Star _ => true
  | Plus _ => false
  | Eos => true
  end.

(** The characters of a heading number: whitespace, digits, the period. *)
Definition number_char (c : char) : bool := isspace c || is_digit c || char_eqb c 46%N.

(** How [add_heading] shows the heading [p]: from its first character [x]
    that belongs to no number on when a number stands in front, and as it
    is when none does. *)
Definition number_removed (p : str) : Prop :=
  exists lead x rest,
    p = lead ++ x :: rest
    /\ forallb number_char lead = true
    /\ isspace x = false /\ is_digit x = false
    /\ (re_sub_prefix pat_heading_number p = x :: rest
        \/ (forallb isspace lead = true /\ re_sub_prefix pat_heading_number p = p)).

(** The text a paragraph has in the rendered sections: a heading without
    the number in front of it, any other paragraph as it is. *)
Definition shown (p : str) : str :=
  match _get_section_type p with
  | Some _ => re_sub_prefix pat_heading_number p
  | None => p
  end.

(** The texts of the reference entries numbered from [i] on. *)
Fixpoint reference_texts (i : nat) (refs : list str) : list str :=
  match refs with
  | [] => []
  | ref :: rest =>
      (lit "[" ++ str_of_nat i ++ lit "] " ++ re_sub_prefix pat_reference_number ref)
      :: reference_texts (S i) rest
  end.

Ltac reassociate :=
  repeat first [rewrite <- app_assoc | progress cbn [app]]; reflexivity.

(** ** Processed images *)

(** The results that were saved, in order. *)
Fixpoint saved_results (results : list result) : list image_result :=
  match results with
  | [] => []
  | Failure _ :: rest => saved_results rest
  | Success r :: rest => r :: saved_results rest
  end.

(** The file name [process_image] gives the image it saves as number [n]. *)
Definition saved_name (base_name : str -> str) (n : nat) (original : str) : str :=
  lit "fig_" ++ str_of_nat n ++ lit "_" ++ base_name original ++ lit ".png".

(** Saved results that carry the numbers [n], [n + 1], ... and the paths
    made of these numbers in the directory [dir]. *)
Fixpoint numbered (base_name : str -> str) (path_join : str -> str -> str)
  (dir : str) (n : nat) (saved : list image_result) : Prop :=
  match saved with
  | [] => True
  | i :: rest =>
      figure_number i = n
      /\ processed_path i = path_join dir (saved_name base_name n (original_path i))
      /\ numbered base_name path_join dir (S n) rest
  end.


(** ** File names *)

(** A text in which the character [c] does not occur. *)
Definition free_of (c : char) (s : str) : Prop :=
  forallb (fun x => negb (char_eqb x c)) s = true.

Definition dot : char := 46%N.

(** ** Calls on template managers *)

Section TemplateCalls.

Import TemplateManager.

Variable files : Type.
Variable path_exists : files -> str -> bool.
Variable path_join : str -> str -> str.
Variable copy2 : files -> str -> str -> files * bool.
Variable title_case : str -> str.

(** The calls that change the state one manager sees: its own
    [set_current_template], and [upload_template] on any instance. *)
Inductive call : Type :=
| SetCurrent (template_id : str)
| Upload (uploader : manager) (file_path template_id : str).

Definition after_call (state : world files * manager) (c : call) : world files * manager :=
  match c with
  | SetCurrent template_id =>
      (fst state, snd (set_current_template (fst state) (snd state) template_id))
  | Upload uploader file_path template_id =>
      (snd (upload_template path_exists path_join copy2 title_case (fst state)
                            uploader file_path template_id),
       snd state)
  end.

Definition after_calls (state : world files * manager) (calls : list call)
  : world files * manager :=
  fold_left after_call calls state.

(** The state when the module is loaded and a manager is created. *)
Definition initial_state (fs : files) (dir : option str) : world files * manager :=
  ({| available := AVAILABLE_TEMPLATES; file_system := fs |}, new_manager dir).

End TemplateCalls.

(** A file system kept as the list of its paths, in which every copy
    succeeds. *)
Definition listed (fs : list str) (p : str) : bool := existsb (str_eqb p) fs.

Definition copy_listed (fs : list str) (src dst : str) : list str * bool :=
  (dst :: fs, true).

Definition slash_join (d f : str) : str := d ++ lit "/" ++ f.

(** The parser after it loaded the paragraphs of the scenario. *)
Definition scenario_parser : ParseSections.parser :=
  {| ParseSections.text_content := join nl scenario_paragraphs;
     ParseSections.parser_paragraphs := scenario_paragraphs |}.

(* ===================================================================== *)
(** * Properties *)
(* ===================================================================== *)

(** ** Strings *)

Section TextFacts.

Lemma lstrip_decompose (s : str) :
  exists w, s = w ++ lstrip s /\ forallb isspace w = true.
Proof.
  induction s as [|c s IH]; simpl.
  - exists []. auto.
  - destruct (isspace c) eqn:E.
    + destruct IH as [w [Hw Hs]]. exists (c :: w). simpl.
      rewrite E, Hs. split; [congruence | reflexivity].
    + exists []. auto.
Qed.

Lemma lstrip_spaces (w s : str) :
  forallb isspace w = true -> lstrip (w ++ s) = lstrip s.
Proof.
  induction w as [|c w IH]; simpl; intros H; [reflexivity|].
  apply andb_prop in H as [Hc Hw]. rewrite Hc. auto.
Qed.

Lemma lstrip_length (s : str) : length (lstrip s) <= length s.
Proof.
  induction s as [|c s IH]; simpl; [lia|].
  destruct (isspace c); simpl; lia.
Qed.

Lemma lstrip_fixed (s : str) : length (lstrip s) = length s -> lstrip s = s.
Proof.
  destruct s as [|c s]; simpl; [reflexivity|].
  destruct (isspace c); [|reflexivity].
  pose proof (lstrip_length s). simpl. lia.
Qed.

Lemma lstrip_keeps (s t : str) :
  s <> [] -> lstrip s = s -> lstrip (s ++ t) = s ++ t.
Proof.
  destruct s as [|c s]; [congruence|]. simpl. intros _.
  destruct (isspace c) eqn:E; [|reflexivity].
  intros H. pose proof (lstrip_length s) as L.
  apply (f_equal (@length _)) in H. simpl in H. lia.
Qed.

Lemma rstrip_decompose (s : str) :
  exists w, s = rstrip s ++ w /\ forallb isspace w = true.
Proof.
  unfold rstrip. destruct (lstrip_decompose (rev s)) as [w [Hw Hs]].
  exists (rev w). split.
  - rewrite <- rev_app_distr, <- Hw, rev_involutive. reflexivity.
  - rewrite forallb_forall in *. intros x Hx. apply Hs. now apply in_rev.
Qed.

Lemma rstrip_length (s : str) : length (rstrip s) <= length s.
Proof.
  unfold rstrip. rewrite length_rev. pose proof (lstrip_length (rev s)) as L.
  rewrite length_rev in L. exact L.
Qed.

Lemma forallb_rev (A : Type) (p : A -> bool) (l : list A) :
  forallb p l = true -> forallb p (rev l) = true.
Proof.
  rewrite !forallb_forall. intros H x Hx. apply H. now apply in_rev.
Qed.

(** A trimmed text is a fixed point of both one-sided strips. *)
Lemma strip_fixed (t : str) : strip t = t -> lstrip t = t /\ rstrip t = t.
Proof.
  intros H. unfold strip in H.
  assert (L : lstrip t = t).
  { apply lstrip_fixed. pose proof (lstrip_length t).
    pose proof (rstrip_length (lstrip t)). rewrite H in *. lia. }
  rewrite L in H. auto.
Qed.

(** Whitespace around a non-empty trimmed text is what [strip] removes. *)
Lemma strip_padded (w1 w2 t : str) :
  t <> [] -> strip t = t ->
  forallb isspace w1 = true -> forallb isspace w2 = true ->
  strip (w1 ++ t ++ w2) = t.
Proof.
  intros Hne Ht H1 H2. destruct (strip_fixed Ht) as [L R].
  unfold strip. rewrite lstrip_spaces by assumption.
  rewrite lstrip_keeps by assumption.
  unfold rstrip in *. rewrite rev_app_distr.
  rewrite lstrip_spaces by now apply forallb_rev.
  exact R.
Qed.

Lemma strip_spaces (w : str) : forallb isspace w = true -> strip w = [].
Proof.
  intros H. unfold strip.
  replace (lstrip w) with (@nil char); [reflexivity|].
  rewrite <- (app_nil_r w). now rewrite lstrip_spaces.
Qed.

Lemma push_nil (l : list str) : push [] l = l.
Proof. reflexivity. Qed.

Lemma split_scan_spaces (w : str) :
  forallb isspace w = true -> split_scan w = ([], []).
Proof.
  induction w as [|c w IH]; simpl; intros H; [reflexivity|].
  apply andb_prop in H as [Hc Hw]. rewrite (IH Hw), Hc. reflexivity.
Qed.

Lemma split_scan_app (s t1 t2 : str) :
  split_scan t1 = split_scan t2 -> split_scan (s ++ t1) = split_scan (s ++ t2).
Proof.
  intros H. induction s as [|c s IH]; simpl; [exact H|]. now rewrite IH.
Qed.

Lemma split_ws_lstrip (s : str) : split_ws (lstrip s) = split_ws s.
Proof.
  induction s as [|c s IH]; simpl; [reflexivity|].
  destruct (isspace c) eqn:E.
  - rewrite IH. unfold split_ws. simpl. rewrite E.
    destruct (split_scan s). reflexivity.
  - reflexivity.
Qed.

Lemma split_ws_rstrip (s : str) : split_ws (rstrip s) = split_ws s.
Proof.
  destruct (rstrip_decompose s) as [w [Hs Hw]].
  rewrite Hs at 2. unfold split_ws.
  rewrite (@split_scan_app (rstrip s) w []).
  - now rewrite app_nil_r.
  - now rewrite split_scan_spaces.
Qed.

(** [str.split()] does not see the whitespace that [str.strip()] removes. *)
Lemma split_ws_strip (s : str) : split_ws (strip s) = split_ws s.
Proof. unfold strip. now rewrite split_ws_rstrip, split_ws_lstrip. Qed.

Lemma split_on_nonempty (d : char -> bool) (s : str) : split_on d s <> [].
Proof.
  induction s as [|c s IH]; simpl; [discriminate|].
  destruct (d c); [discriminate|]. destruct (split_on d s); discriminate.
Qed.

(** A text without delimiters stays in front of the first piece. *)
Lemma split_on_prefix (d : char -> bool) (t s : str) :
  forallb (fun c => negb (d c)) t = true ->
  split_on d (t ++ s) =
  (t ++ hd [] (split_on d s)) :: tl (split_on d s).
Proof.
  induction t as [|c t IH]; simpl; intros H.
  - pose proof (split_on_nonempty d s). destruct (split_on d s); [congruence|reflexivity].
  - apply andb_prop in H as [Hc Ht]. apply negb_true_iff in Hc.
    rewrite Hc, (IH Ht). reflexivity.
Qed.

Lemma lstrip_incl (s : str) (x : char) : In x (lstrip s) -> In x s.
Proof.
  induction s as [|c s IH]; simpl; [tauto|].
  destruct (isspace c); simpl; tauto.
Qed.

Lemma strip_incl (s : str) (x : char) : In x (strip s) -> In x s.
Proof.
  unfold strip, rstrip. intros H. apply lstrip_incl.
  apply in_rev in H. apply lstrip_incl in H. now apply in_rev.
Qed.

Lemma forallb_strip (p : char -> bool) (s : str) :
  forallb p s = true -> forallb p (strip s) = true.
Proof.
  rewrite !forallb_forall. intros H x Hx. apply H. now apply strip_incl.
Qed.

(** What holds of every character of a text holds of every character of
    its pieces. *)
Lemma split_on_forall (p : char -> bool) (d : char -> bool) (s : str) :
  forallb p s = true -> Forall (fun piece => forallb p piece = true) (split_on d s).
Proof.
  induction s as [|c s IH]; simpl; intros H.
  - repeat constructor.
  - apply andb_prop in H as [Hc Hs]. specialize (IH Hs). destruct (d c).
    + constructor; [reflexivity | exact IH].
    + destruct (split_on d s) as [|piece rest].
      * repeat constructor. simpl. now rewrite Hc.
      * inversion IH; subst. constructor; [|assumption]. simpl. now rewrite Hc.
Qed.

(** The pieces between the delimiters hold no delimiter. *)
Lemma split_on_pieces (d : char -> bool) (s : str) :
  Forall (fun piece => forallb (fun c => negb (d c)) piece = true) (split_on d s).
Proof.
  induction s as [|c s IH]; simpl.
  - repeat constructor.
  - destruct (d c) eqn:E.
    + constructor; [reflexivity | exact IH].
    + destruct (split_on d s) as [|piece rest].
      * repeat constructor. simpl. now rewrite E.
      * inversion IH; subst. constructor; [|assumption]. simpl. now rewrite E.
Qed.

End TextFacts.

(** ** extract_abstract *)

Section AbstractFacts.

(** Without a paragraph that opens an abstract the loop leaves
    [abstract_text] as it was. *)
Lemma abstract_loop_not_started (paragraphs : list str) (text : str) :
  existsb (matches pat_abstract) paragraphs = false ->
  abstract_loop paragraphs text false = text.
Proof.
  induction paragraphs as [|para rest IH]; simpl; intros H; [reflexivity|].
  apply orb_false_iff in H as [Hp Hr]. rewrite Hp. auto.
Qed.

(** The count taken on the accumulated text is the count of the stored,
    stripped text. *)
Lemma word_count_of_text (paragraphs : list str) :
  word_count (extract_abstract paragraphs) =
  length (split_ws (abs_text (extract_abstract paragraphs))).
Proof.
  unfold extract_abstract. simpl. rewrite split_ws_strip.
  destruct (abstract_loop paragraphs [] false); reflexivity.
Qed.

(** C7. For every paragraph list the abstract record has [word_count] equal
    to the number of whitespace-delimited tokens of the extracted text,
    [is_valid] holds exactly when the count lies in 150..250, and when no
    paragraph opens an abstract the text is empty and the count is 0. *)
Theorem extract_abstract_word_count (paragraphs : list str) :
  word_count (extract_abstract paragraphs) =
    length (split_ws (abs_text (extract_abstract paragraphs)))
  /\ (is_valid (extract_abstract paragraphs) = true <->
      150 <= word_count (extract_abstract paragraphs) <= 250)
  /\ (existsb (matches pat_abstract) paragraphs = false ->
      abs_text (extract_abstract paragraphs) = []
      /\ word_count (extract_abstract paragraphs) = 0).
Proof.
  split; [apply word_count_of_text|]. split.
  - unfold extract_abstract. cbn [is_valid word_count].
    rewrite andb_true_iff, !Nat.leb_le. reflexivity.
  - intros H. unfold extract_abstract. cbn [abs_text word_count].
    rewrite (abstract_loop_not_started _ _ H). split; reflexivity.
Qed.

End AbstractFacts.

(** ** Keywords: splitting what the renderer joined *)

Section KeywordFacts.

Lemma keep_piece (piece t : str) (pieces : list str) :
  t <> [] -> strip piece = t ->
  map strip (filter (fun k => truthy (strip k)) (piece :: pieces)) =
  t :: map strip (filter (fun k => truthy (strip k)) pieces).
Proof.
  intros Hne Hs. cbn [filter]. rewrite Hs.
  destruct t; [congruence|]. cbn [truthy map]. now rewrite Hs.
Qed.

Lemma split_keywords_padded (pad : str) (tokens : list str) :
  Forall keyword_token tokens ->
  pad = [] \/ pad = [32%N] ->
  split_keywords (pad ++ join keyword_separator tokens) = tokens.
Proof.
  intros H. revert pad.
  induction H as [|t rest [Hne [Htrim Hdel]] Hrest IH]; intros pad Hpad.
  - simpl. rewrite app_nil_r. destruct Hpad; subst; reflexivity.
  - assert (Hpad_ws : forallb isspace pad = true)
      by (destruct Hpad; subst; reflexivity).
    assert (Hpad_nd : forallb (fun c => negb (is_keyword_delimiter c)) pad = true)
      by (destruct Hpad; subst; reflexivity).
    unfold split_keywords in *.
    destruct rest as [|t' rest'].
    + cbn [join]. rewrite <- (app_nil_r (pad ++ t)), split_on_prefix
        by (rewrite forallb_app, Hpad_nd, Hdel; reflexivity).
      cbn [split_on hd tl]. rewrite app_nil_r.
      rewrite (@keep_piece (pad ++ t) t); [reflexivity | assumption |].
      pose proof (@strip_padded pad [] t Hne Htrim Hpad_ws eq_refl) as S.
      now rewrite app_nil_r in S.
    + assert (E : pad ++ join keyword_separator (t :: t' :: rest') =
                  (pad ++ t ++ [32%N]) ++ 183%N :: [32%N] ++ join keyword_separator (t' :: rest')).
      { change (join keyword_separator (t :: t' :: rest'))
          with (t ++ keyword_separator ++ join keyword_separator (t' :: rest')).
        unfold keyword_separator. rewrite <- !app_assoc. reflexivity. }
      rewrite E.
      rewrite split_on_prefix
        by (rewrite !forallb_app, Hpad_nd, Hdel; reflexivity).
      cbn [split_on]. replace (is_keyword_delimiter 183%N) with true by reflexivity.
      cbn [hd tl]. rewrite app_nil_r.
      rewrite (@keep_piece (pad ++ t ++ [32%N]) t);
        [| assumption | now apply strip_padded].
      f_equal. apply (IH [32%N]). now right.
Qed.

(** C8. For every list of non-empty trimmed tokens without delimiter
    characters, splitting the text the renderer builds by joining them with
    the middle-dot separator, trimming the pieces and dropping the empty
    ones, gives the token list back. *)
Theorem keywords_split_join_roundtrip (tokens : list str) :
  Forall keyword_token tokens ->
  split_keywords (join keyword_separator tokens) = tokens.
Proof.
  intros H. apply (@split_keywords_padded [] tokens H). now left.
Qed.

Lemma keywords_split_join_roundtrip_witness :
  Forall keyword_token [lit "ml"; lit "deep learning"; lit "nlp"]
  /\ split_keywords (join keyword_separator [lit "ml"; lit "deep learning"; lit "nlp"])
     = [lit "ml"; lit "deep learning"; lit "nlp"].
Proof.
  assert (H : Forall keyword_token [lit "ml"; lit "deep learning"; lit "nlp"]).
  { repeat constructor; try discriminate. }
  split; [exact H | exact (keywords_split_join_roundtrip H)].
Defined.

End KeywordFacts.

(** ** detect_sections *)

Section SectionFacts.

Lemma detect_loop_open (ps : list str) :
  forall i sections cur body,
    detect_loop ps i sections (Some cur) body =
    sections ++ map fst (scan_open ps i cur body).
Proof.
  induction ps as [|para rest IH]; intros i sections cur body; simpl.
  - reflexivity.
  - destruct (_get_section_type para) as [ty|].
    + rewrite IH. simpl. rewrite <- app_assoc. reflexivity.
    + apply IH.
Qed.

Lemma detect_loop_closed (ps : list str) :
  forall i sections body,
    detect_loop ps i sections None body = sections ++ map fst (scan_closed ps i).
Proof.
  induction ps as [|para rest IH]; intros i sections body; simpl.
  - now rewrite app_nil_r.
  - destruct (_get_section_type para) as [ty|].
    + apply detect_loop_open.
    + apply IH.
Qed.

(** The blocks of the open section and of those after it are the heading
    of the open section, its body so far, and the paragraphs left. *)
Lemma scan_open_blocks (ps : list str) :
  forall i cur body,
    concat (map block (scan_open ps i cur body)) = cur_title cur :: body ++ ps.
Proof.
  induction ps as [|para rest IH]; intros i cur body; simpl.
  - now rewrite !app_nil_r.
  - destruct (_get_section_type para) as [ty|]; simpl.
    + rewrite IH. reflexivity.
    + rewrite IH, <- app_assoc. reflexivity.
Qed.

Lemma scan_open_well_formed (ps : list str) :
  forall i cur body,
    _get_section_type (cur_title cur) = Some (cur_type cur) ->
    Forall plain body ->
    Forall well_formed (scan_open ps i cur body).
Proof.
  induction ps as [|para rest IH]; intros i cur body Hcur Hbody; simpl.
  - constructor; [|constructor]. repeat split; assumption.
  - destruct (_get_section_type para) as [ty|] eqn:E.
    + constructor.
      * repeat split; assumption.
      * apply IH; [exact E | constructor].
    + apply IH; [assumption|]. apply Forall_app. split; [assumption|].
      constructor; [exact E | constructor].
Qed.

(** Where each section starts: after the blocks of the sections before it. *)
Lemma scan_open_start (ps : list str) :
  forall i cur body k sb,
    i = cur_start cur + 1 + length body ->
    nth_error (scan_open ps i cur body) k = Some sb ->
    start_index (fst sb) =
    cur_start cur + length (concat (map block (firstn k (scan_open ps i cur body)))).
Proof.
  induction ps as [|para rest IH]; intros i cur body k sb Hi Hk; simpl in *.
  - destruct k as [|k]; simpl in *.
    + injection Hk as <-. simpl. lia.
    + destruct k; discriminate.
  - destruct (_get_section_type para) as [ty|].
    + destruct k as [|k]; simpl in *.
      * injection Hk as <-. simpl. lia.
      * rewrite (IH (S i) {| cur_type := ty; cur_title := para; cur_start := i |} [] k sb);
          [|simpl; lia|exact Hk].
        simpl. rewrite length_app. lia.
    + apply IH; [|assumption]. rewrite length_app. simpl. lia.
Qed.

Lemma scan_open_sorted (ps : list str) :
  forall i cur body,
    cur_start cur < i ->
    StronglySorted lt (map start_index (map fst (scan_open ps i cur body)))
    /\ Forall (fun n => cur_start cur <= n)
              (map start_index (map fst (scan_open ps i cur body))).
Proof.
  induction ps as [|para rest IH]; intros i cur body Hi; simpl.
  - split; repeat constructor.
  - destruct (_get_section_type para) as [ty|].
    + assert (Hlt : cur_start {| cur_type := ty; cur_title := para; cur_start := i |} < S i)
        by (simpl; lia).
      destruct (IH (S i) _ [] Hlt) as [Hs Hall].
      simpl in Hall. split.
      * simpl. constructor; [assumption|].
        eapply Forall_impl; [|exact Hall]. simpl. intros; lia.
      * simpl. constructor; [lia|].
        eapply Forall_impl; [|exact Hall]. simpl. intros; lia.
    + apply IH. lia.
Qed.

(** Before the first heading: the plain paragraphs that are dropped, then
    the blocks. *)
Lemma scan_closed_spec (ps : list str) :
  forall i,
    exists pre,
      Forall plain pre
      /\ ps = pre ++ concat (map block (scan_closed ps i))
      /\ Forall well_formed (scan_closed ps i)
      /\ (forall k sb, nth_error (scan_closed ps i) k = Some sb ->
            start_index (fst sb) =
            i + length pre + length (concat (map block (firstn k (scan_closed ps i)))))
      /\ StronglySorted lt (map start_index (map fst (scan_closed ps i))).
Proof.
  induction ps as [|para rest IH]; intros i; simpl.
  - exists []. repeat split; try constructor.
    intros k sb H. destruct k; discriminate.
  - destruct (_get_section_type para) as [ty|] eqn:E.
    + exists []. split; [constructor|]. split; [|split; [|split]].
      * rewrite scan_open_blocks. reflexivity.
      * apply scan_open_well_formed; [exact E | constructor].
      * intros k sb H.
        rewrite (@scan_open_start rest (S i)
                   {| cur_type := ty; cur_title := para; cur_start := i |} [] k sb);
          [|simpl; lia|exact H].
        simpl. lia.
      * apply scan_open_sorted. simpl. lia.
    + destruct (IH (S i)) as [pre [Hpre [Heq [Hwf [Hstart Hsorted]]]]].
      exists (para :: pre). split; [constructor; assumption|].
      split; [simpl; congruence|]. split; [assumption|]. split; [|assumption].
      intros k sb H. rewrite (Hstart k sb H). simpl. lia.
Qed.

(** C2. For every list of paragraphs, [detect_sections] returns sections
    with strictly increasing [start_index], and the sections partition the
    paragraphs from the first heading on: the list is a run of paragraphs
    that open no section followed by the blocks of the sections in order,
    each block being the heading (found at [start_index]) and the
    paragraphs up to the next heading, none of them a heading, whose join
    by newline is the section's content. *)
Theorem detect_sections_partition (paragraphs : list str) :
  exists (pre : list str) (bodies : list (list str)),
    length bodies = length (detect_sections paragraphs)
    /\ Forall plain pre
    /\ paragraphs =
       pre ++ concat (map block (combine (detect_sections paragraphs) bodies))
    /\ Forall well_formed (combine (detect_sections paragraphs) bodies)
    /\ (forall k sb,
          nth_error (combine (detect_sections paragraphs) bodies) k = Some sb ->
          start_index (fst sb) =
          length pre
          + length (concat (map block
                      (firstn k (combine (detect_sections paragraphs) bodies))))
          /\ nth_error paragraphs (start_index (fst sb)) = Some (sec_title (fst sb)))
    /\ StronglySorted lt (map start_index (detect_sections paragraphs)).
Proof.
  unfold detect_sections. rewrite detect_loop_closed. simpl.
  destruct (scan_closed_spec paragraphs 0) as [pre [Hpre [Heq [Hwf [Hstart Hsorted]]]]].
  set (R := scan_closed paragraphs 0) in *.
  assert (Hc : combine (map fst R) (map snd R) = R).
  { clearbody R. clear. induction R as [|[s b] R IH]; simpl; congruence. }
  exists pre, (map snd R). rewrite Hc.
  split; [now rewrite !length_map|]. split; [assumption|].
  split; [assumption|]. split; [assumption|]. split; [|assumption].
  intros k sb H. pose proof (Hstart k sb H) as Hs. simpl in Hs.
  split; [exact Hs|].
  rewrite Hs. rewrite Heq at 1.
  rewrite nth_error_app2 by lia.
  replace (length pre + _ - length pre) with
    (length (concat (map block (firstn k R)))) by lia.
  rewrite <- (firstn_skipn k R) at 1.
  rewrite map_app, concat_app, nth_error_app2 by lia.
  rewrite Nat.sub_diag.
  assert (Hk : exists R', skipn k R = sb :: R').
  { clear - H. clearbody R. revert k H.
    induction R as [|x R IH]; intros [|k] H; simpl in *; try discriminate.
    - injection H as ->. eauto.
    - auto. }
  destruct Hk as [R' ->]. reflexivity.
Qed.

End SectionFacts.

(** ** The matcher against what a pattern accepts *)

Section RegexFacts.

Lemma star_bt_sound (A : Type) (p : char -> bool) (s : str) (k : str -> option A) (x : A) :
  star_bt p s k = Some x ->
  exists w s', s = w ++ s' /\ forallb p w = true /\ k s' = Some x.
Proof.
  induction s as [|c s IH]; simpl; intros H.
  - exists [], []. auto.
  - destruct (p c) eqn:Hc.
    + destruct (star_bt p s k) as [y|] eqn:Hs.
      * injection H as ->. destruct (IH eq_refl) as [w [s' [E [Hw Hk]]]].
        exists (c :: w), s'. simpl. rewrite Hc, Hw, E. auto.
      * exists [], (c :: s). auto.
    + exists [], (c :: s). auto.
Qed.

Lemma star_bt_complete (A : Type) (p : char -> bool) (w s' : str)
  (k : str -> option A) (x : A) :
  forallb p w = true -> k s' = Some x ->
  exists y, star_bt p (w ++ s') k = Some y.
Proof.
  intros Hw Hk. induction w as [|c w IH]; simpl in *.
  - destruct s' as [|c s']; simpl; [eauto|].
    destruct (p c); [|eauto].
    destruct (star_bt p s' k); eauto.
  - apply andb_prop in Hw as [Hc Hw]. rewrite Hc.
    destruct (IH Hw) as [y ->]. eauto.
Qed.

(** Every result of the matcher comes from a text the pattern accepts. *)
Lemma bt_sound (A : Type) (r : re) :
  forall (s : str) (k : str -> option A) (x : A),
    bt r s k = Some x -> exists s', accepts r s s' /\ k s' = Some x.
Proof.
  induction r as [|p|a IHa b IHb|a IHa b IHb|a IHa|p|p|]; intros s k x H; simpl in H.
  - exists s. split; [constructor | assumption].
  - destruct s as [|c s]; [discriminate|].
    destruct (p c) eqn:Hc; [|discriminate].
    exists s. split; [now constructor | assumption].
  - apply IHa in H as [s1 [Ha Hb]]. apply IHb in Hb as [s2 [Hb Hk]].
    exists s2. split; [econstructor; eassumption | assumption].
  - destruct (bt a s k) as [y|] eqn:Ea.
    + injection H as ->. apply IHa in Ea as [s' [Ha Hk]].
      exists s'. split; [now apply acc_alt_l | assumption].
    + apply IHb in H as [s' [Hb Hk]].
      exists s'. split; [now apply acc_alt_r | assumption].
  - destruct (bt a s k) as [y|] eqn:Ea.
    + injection H as ->. apply IHa in Ea as [s' [Ha Hk]].
      exists s'. split; [now apply acc_opt_some | assumption].
    + exists s. split; [apply acc_opt_none | assumption].
  - apply star_bt_sound in H as [w [s' [-> [Hw Hk]]]].
    exists s'. split; [now constructor | assumption].
  - destruct s as [|c s]; [discriminate|].
    destruct (p c) eqn:Hc; [|discriminate].
    apply star_bt_sound in H as [w [s' [-> [Hw Hk]]]].
    exists s'. split; [now constructor | assumption].
  - destruct (at_end s) eqn:E; [|discriminate].
    exists s. split; [now constructor | assumption].
Qed.

(** The matcher finds a match whenever the pattern accepts a prefix that
    the continuation accepts. *)
Lemma bt_complete (A : Type) (r : re) (s s' : str) :
  accepts r s s' ->
  forall (k : str -> option A) (x : A), k s' = Some x -> exists y, bt r s k = Some y.
Proof.
  induction 1 as [s|p c s Hc|a b s s1 s2 Ha IHa Hb IHb|a b s s1 Ha IHa|a b s s1 Hb IHb
                  |a s s1 Ha IHa|a s|p w s Hw|p c w s Hc Hw|s He]; intros k x Hk; simpl.
  - eauto.
  - rewrite Hc. eauto.
  - destruct (IHb k x Hk) as [y Hy]. exact (IHa _ y Hy).
  - destruct (IHa k x Hk) as [y ->]. eauto.
  - destruct (bt a s k); [eauto|]. exact (IHb k x Hk).
  - destruct (IHa k x Hk) as [y ->]. eauto.
  - destruct (bt a s k); eauto.
  - exact (star_bt_complete p w s k Hw Hk).
  - rewrite Hc. exact (star_bt_complete p w s k Hw Hk).
  - rewrite He. eauto.
Qed.

(** [re.match] succeeds exactly on the texts with an accepted prefix. *)
Lemma matches_accepts (r : re) (s : str) :
  matches r s = true <-> exists s', accepts r s s'.
Proof.
  unfold matches, re_match. split.
  - destruct (bt r s (fun rest => Some rest)) as [x|] eqn:E; [|discriminate].
    intros _. apply bt_sound in E as [s' [Ha _]]. eauto.
  - intros [s' Ha].
    destruct (bt_complete Ha (fun rest => Some rest) eq_refl) as [y ->].
    reflexivity.
Qed.

Lemma accepts_first (r : re) (s s' : str) :
  accepts r s s' -> forall c t, s = c :: t -> first_ok r c = true.
Proof.
  induction 1; intros c0 t E; simpl; try reflexivity.
  - now injection E as -> ->.
  - eauto.
  - erewrite IHaccepts by eassumption. reflexivity.
  - erewrite IHaccepts by eassumption. apply orb_true_r.
  - injection E as <- _. assumption.
Qed.

(** A sequence of one-character classes accepts a text character by
    character. *)
Lemma accepts_chars (ps : list (char -> bool)) (core rest : str) :
  Forall2 (fun (p : char -> bool) c => p c = true) ps core ->
  accepts (seq_all (map Chr ps)) (core ++ rest) rest.
Proof.
  induction 1 as [|p c ps core Hp H IH]; simpl.
  - constructor.
  - destruct ps as [|q ps].
    + inversion H; subst. simpl. now constructor.
    + econstructor; [now constructor | exact IH].
Qed.

(** Inversion of [accepts], one lemma per form of pattern. *)
Lemma accepts_seq_inv (a b : re) (s s2 : str) :
  accepts (Seq a b) s s2 -> exists s1, accepts a s s1 /\ accepts b s1 s2.
Proof. inversion 1; subst; eauto. Qed.

Lemma accepts_chr_inv (p : char -> bool) (s s' : str) :
  accepts (Chr p) s s' -> exists c, s = c :: s' /\ p c = true.
Proof. inversion 1; subst; eauto. Qed.

Lemma accepts_opt_inv (a : re) (s s' : str) :
  accepts (Opt a) s s' -> accepts a s s' \/ s = s'.
Proof. inversion 1; subst; auto. Qed.

Lemma accepts_star_inv (p : char -> bool) (s s' : str) :
  accepts (Star p) s s' -> exists w, s = w ++ s' /\ forallb p w = true.
Proof. inversion 1; subst; eauto. Qed.

Lemma accepts_plus_inv (p : char -> bool) (s s' : str) :
  accepts (Plus p) s s' ->
  exists c w, s = c :: w ++ s' /\ p c = true /\ forallb p w = true.
Proof. inversion 1; subst; eauto. Qed.

(** What a pattern consumes is a prefix of the text. *)
Lemma accepts_prefix (r : re) (s s' : str) :
  accepts r s s' -> exists m, s = m ++ s'.
Proof.
  induction 1 as [s|p c s Hc|a b s s1 s2 Ha IHa Hb IHb|a b s s1 Ha IHa|a b s s1 Hb IHb
                  |a s s1 Ha IHa|a s|p w s Hw|p c w s Hc Hw|s He].
  - now exists [].
  - now exists [c].
  - destruct IHa as [m1 ->], IHb as [m2 ->]. exists (m1 ++ m2). now rewrite app_assoc.
  - assumption.
  - assumption.
  - assumption.
  - now exists [].
  - now exists w.
  - now exists (c :: w).
  - now exists [].
Qed.

Lemma re_match_sound (r : re) (s rest : str) :
  re_match r s = Some rest ->
  accepts r s rest /\ s = firstn (length s - length rest) s ++ rest.
Proof.
  unfold re_match. intros H. apply bt_sound in H as [s' [Ha Hk]].
  injection Hk as ->. split; [assumption|].
  destruct (accepts_prefix Ha) as [m ->].
  rewrite length_app, Nat.add_sub, firstn_app, Nat.sub_diag, firstn_all.
  simpl. now rewrite app_nil_r.
Qed.

(** Removing a match at the start leaves characters of the text. *)
Lemma re_sub_prefix_forall (p : char -> bool) (r : re) (s : str) :
  forallb p s = true -> forallb p (re_sub_prefix r s) = true.
Proof.
  intros H. unfold re_sub_prefix.
  destruct (re_match r s) as [rest|] eqn:E; [|exact H].
  apply re_match_sound in E as [_ E]. rewrite E, forallb_app in H.
  now apply andb_prop in H as [_ H].
Qed.

End RegexFacts.

(** ** Character classes *)

Section CharFacts.

Local Open Scope N_scope.

Lemma in_range_spec (lo hi c : N) : in_range lo hi c = true <-> lo <= c <= hi.
Proof. unfold in_range. rewrite andb_true_iff, !N.leb_le. reflexivity. Qed.

Lemma char_eqb_spec (a b : N) : char_eqb a b = true <-> a = b.
Proof. apply N.eqb_eq. Qed.

Lemma isspace_enum (c : char) : isspace c = true -> In c whitespace_code_points.
Proof.
  unfold isspace. rewrite !orb_true_iff, !in_range_spec, !char_eqb_spec.
  intros H. unfold whitespace_code_points.
  assert (E : c = 9 \/ c = 10 \/ c = 11 \/ c = 12 \/ c = 13 \/ c = 28 \/ c = 29
              \/ c = 30 \/ c = 31 \/ c = 32 \/ c = 133 \/ c = 160 \/ c = 5760
              \/ c = 8192 \/ c = 8193 \/ c = 8194 \/ c = 8195 \/ c = 8196
              \/ c = 8197 \/ c = 8198 \/ c = 8199 \/ c = 8200 \/ c = 8201
              \/ c = 8202 \/ c = 8232 \/ c = 8233 \/ c = 8239 \/ c = 8287
              \/ c = 12288) by lia.
  simpl. repeat (destruct E as [E|E]; [subst; tauto|]). subst; tauto.
Qed.

Lemma is_digit_bounds (c : char) : is_digit c = true -> 48 <= c <= 57 \/ 1632 <= c.
Proof.
  unfold is_digit. rewrite existsb_exists. intros [b [Hb Hr]].
  apply in_range_spec in Hr.
  destruct Hb as [<-|Hb]; [left; lia|]. right.
  assert (Hall : forallb (N.leb 1632) (tl unicode_Nd_blocks) = true) by reflexivity.
  rewrite forallb_forall in Hall. specialize (Hall b Hb).
  apply N.leb_le in Hall. lia.
Qed.

Lemma digit_not_space (c : char) : is_digit c = true -> isspace c = false.
Proof.
  intros Hd. destruct (isspace c) eqn:Hs; [|reflexivity].
  apply isspace_enum in Hs.
  assert (Hall : forallb (fun x => negb (is_digit x)) whitespace_code_points = true)
    by reflexivity.
  rewrite forallb_forall in Hall. specialize (Hall c Hs).
  rewrite Hd in Hall. discriminate.
Qed.

(** What a lower-case letter of a pattern matches under IGNORECASE is
    neither whitespace nor a digit. *)
Lemma ci_lit_letter (p c : char) :
  in_range 97 122 p = true -> ci_lit p c = true ->
  isspace c = false /\ is_digit c = false.
Proof.
  intros Hp H. apply in_range_spec in Hp.
  unfold ci_lit in H. apply orb_true_iff in H as [H|H].
  - apply char_eqb_spec in H. unfold ascii_lower in H.
    assert (Hc : 65 <= c <= 122).
    { destruct (in_range 65 90 c) eqn:R; [apply in_range_spec in R|]; lia. }
    split.
    + destruct (isspace c) eqn:Hs; [|reflexivity].
      apply isspace_enum in Hs. unfold whitespace_code_points in Hs. simpl in Hs.
      repeat (destruct Hs as [Hs|Hs]; [lia|]). contradiction.
    + destruct (is_digit c) eqn:Hd; [|reflexivity].
      apply is_digit_bounds in Hd. lia.
  - apply existsb_exists in H as [x [Hx Hcx]]. apply char_eqb_spec in Hcx. subst x.
    unfold ci_extra in Hx.
    repeat match type of Hx with
           | In _ (if ?b then _ else _) => destruct b
           end; simpl in Hx;
      repeat (destruct Hx as [Hx|Hx]; [subst c; split; reflexivity|]); contradiction.
Qed.

Lemma ci_lit_lower (c : char) : ci_lit (ascii_lower c) c = true.
Proof. unfold ci_lit. now rewrite (proj2 (char_eqb_spec _ _) eq_refl). Qed.

End CharFacts.

(** ** The heading patterns and their leading number *)

Section HeadingNumberFacts.

(** After leading whitespace, the whitespace star leaves whitespace and the
    rest. *)
Lemma star_space_prefix (w : str) (d : char) (rest s1 : str) :
  forallb isspace w = true -> isspace d = false ->
  accepts (Star isspace) (w ++ d :: rest) s1 ->
  exists w2, s1 = w2 ++ d :: rest /\ forallb isspace w2 = true.
Proof.
  intros Hw Hd H. apply accepts_star_inv in H as [w' [E Hw']].
  revert w Hw E. induction w' as [|c w' IH]; intros w Hw E; simpl in *.
  - subst s1. eauto.
  - apply andb_prop in Hw' as [Hc Hw'].
    destruct w as [|c0 w0]; simpl in *.
    + injection E as <- _. congruence.
    + injection E as _ E. apply andb_prop in Hw as [_ Hw0]. eauto.
Qed.

Lemma first_of_padded (w : str) (d : char) (rest : str) :
  forallb isspace w = true ->
  exists x t, w ++ d :: rest = x :: t /\ (isspace x = true \/ (w = [] /\ x = d)).
Proof.
  destruct w as [|c w]; simpl; intros H.
  - eauto 6.
  - apply andb_prop in H as [Hc _]. eauto.
Qed.

(** A pattern whose words follow the whitespace star directly accepts no
    text with a number in front. *)
Lemma leading_digit_plain (T : re) (w : str) (d : char) (rest s' : str) :
  forallb isspace w = true -> is_digit d = true ->
  (forall x, isspace x = true \/ is_digit x = true -> first_ok T x = false) ->
  ~ accepts (Seq ws_star T) (w ++ d :: rest) s'.
Proof.
  intros Hw Hd HT H.
  apply accepts_seq_inv in H as [s1 [Ha Hb]].
  apply star_space_prefix in Ha as [w2 [-> Hw2]];
    [|assumption|now apply digit_not_space].
  destruct (first_of_padded w2 d rest Hw2) as [x [t [E Hx]]].
  pose proof (accepts_first Hb E) as F.
  rewrite HT in F; [discriminate|].
  destruct Hx as [Hx|[_ ->]]; auto.
Qed.

(** The optional number of a pattern consumes the digit [k], then an
    optional period, then whitespace. *)
Lemma opt_number_inv (k : ascii) (s s' : str) :
  accepts (opt_number k) s s' ->
  s = s'
  \/ exists t w3,
       s = N_of_ascii k :: t
       /\ (t = w3 ++ s' \/ t = 46%N :: w3 ++ s')
       /\ forallb isspace w3 = true.
Proof.
  intros H. apply accepts_opt_inv in H as [H|H]; [|now left].
  right. simpl in H. apply accepts_seq_inv in H as [s1 [H H1]].
  apply accepts_chr_inv in H as [c [-> Hc]].
  apply char_eqb_spec in Hc. subst c.
  apply accepts_seq_inv in H1 as [s2 [Hdot Hws]].
  apply accepts_star_inv in Hws as [w3 [-> Hw3]].
  exists s1, w3. split; [reflexivity|]. split; [|assumption].
  apply accepts_opt_inv in Hdot as [Hdot| ->]; [|now left].
  apply accepts_chr_inv in Hdot as [c [-> Hc]].
  apply char_eqb_spec in Hc. subst c. now right.
Qed.

(** A pattern with an optional number accepts, as a leading digit, that
    number only, and no second digit after it. *)
Lemma leading_digit_numbered (k : ascii) (T : re) (w : str) (d : char) (rest s' : str) :
  forallb isspace w = true -> is_digit d = true ->
  isspace (N_of_ascii k) = false ->
  (forall x, isspace x = true \/ is_digit x = true -> first_ok T x = false) ->
  accepts (Seq ws_star (Seq (opt_number k) T)) (w ++ d :: rest) s' ->
  d = N_of_ascii k
  /\ forall d2 rest2, rest = d2 :: rest2 -> is_digit d2 = false.
Proof.
  intros Hw Hd Hk HT H.
  apply accepts_seq_inv in H as [s1 [Ha Hb]].
  apply star_space_prefix in Ha as [w2 [-> Hw2]];
    [|assumption|now apply digit_not_space].
  apply accepts_seq_inv in Hb as [s2 [Hopt HT']].
  destruct (first_of_padded w2 d rest Hw2) as [x [t [E Hx]]].
  apply opt_number_inv in Hopt as [<-|[t' [w3 [E' [Ht' Hw3]]]]].
  - pose proof (accepts_first HT' E) as F.
    rewrite HT in F; [discriminate|].
    destruct Hx as [Hx|[_ ->]]; auto.
  - rewrite E in E'. injection E' as -> ->.
    destruct Hx as [Hx|[-> Hx]]; [congruence|].
    split; [now symmetry|]. simpl in E. injection E as _ <-.
    intros d2 rest2 -> . destruct (is_digit d2) eqn:Hd2; [exfalso|reflexivity].
    destruct Ht' as [Ht'|Ht'].
    + destruct w3 as [|y w3]; simpl in *.
      * subst s2. pose proof (accepts_first HT' eq_refl) as F.
        rewrite HT in F; [discriminate | now right].
      * injection Ht' as -> _. apply andb_prop in Hw3 as [Hy _].
        apply digit_not_space in Hd2. congruence.
    + injection Ht' as -> _. discriminate Hd2.
Qed.

(** The number in front of a heading the pattern accepts without one. *)
Lemma number_accepted (k : ascii) (T : re) (c : char) (s s' : str) :
  isspace c = false -> c <> N_of_ascii k ->
  accepts (Seq ws_star (Seq (opt_number k) T)) (c :: s) s' ->
  accepts (Seq ws_star (Seq (opt_number k) T)) (N_of_ascii k :: c :: s) s'
  /\ accepts (Seq ws_star (Seq (opt_number k) T))
             (N_of_ascii k :: 46%N :: 32%N :: c :: s) s'.
Proof.
  intros Hc Hk H.
  apply accepts_seq_inv in H as [s1 [Ha Hb]].
  apply accepts_star_inv in Ha as [w [E Hw]].
  destruct w as [|y w]; simpl in *.
  2:{ injection E as -> _. apply andb_prop in Hw as [Hy _]. congruence. }
  subst s1.
  apply accepts_seq_inv in Hb as [s2 [Hopt HT]].
  apply opt_number_inv in Hopt as [<-|[t [w3 [E _]]]]; [|congruence].
  assert (Hself : char_eqb (N_of_ascii k) (N_of_ascii k) = true)
    by now apply char_eqb_spec.
  split.
  - apply acc_seq with (s' := N_of_ascii k :: c :: s);
      [apply (acc_star isspace [] _ eq_refl)|].
    apply acc_seq with (s' := c :: s); [|assumption].
    apply acc_opt_some. simpl.
    apply acc_seq with (s' := c :: s); [now constructor|].
    apply acc_seq with (s' := c :: s); [apply acc_opt_none|].
    apply (acc_star isspace [] _ eq_refl).
  - apply acc_seq with (s' := N_of_ascii k :: 46%N :: 32%N :: c :: s);
      [apply (acc_star isspace [] _ eq_refl)|].
    apply acc_seq with (s' := c :: s); [|assumption].
    apply acc_opt_some. simpl.
    apply acc_seq with (s' := 46%N :: 32%N :: c :: s); [now constructor|].
    apply acc_seq with (s' := 32%N :: c :: s).
    + apply acc_opt_some. now constructor.
    + apply (acc_star isspace [32%N] (c :: s) eq_refl).
Qed.

Lemma ci_lit_false (p x : char) :
  in_range 97%N 122%N p = true -> isspace x = true \/ is_digit x = true ->
  ci_lit p x = false.
Proof.
  intros Hp Hx. destruct (ci_lit p x) eqn:E; [|reflexivity].
  destruct (ci_lit_letter p x Hp E) as [Hs Hd].
  destruct Hx; congruence.
Qed.

Lemma case_variant_accepted (w : string) (core rest : str) :
  case_variant w core -> accepts (ci_word w) (core ++ rest) rest.
Proof.
  unfold case_variant, ci_word. intros <-.
  rewrite <- (map_map ci_lit Chr). apply accepts_chars.
  induction core as [|c core IH]; simpl; constructor; [apply ci_lit_lower | exact IH].
Qed.

Lemma number_pattern_nonempty (p : str) :
  matches pat_reference_number p = true -> truthy p = true.
Proof. destruct p; [discriminate | reflexivity]. Qed.

(** Once inside the references, the loop keeps the non-empty paragraphs
    that are no references heading. *)
Lemma references_loop_inside (ps : list str) :
  forall refs,
    references_loop ps refs true =
    refs ++ filter (fun p => negb (references_heading p) && truthy p) ps.
Proof.
  induction ps as [|para rest IH]; intros refs; simpl.
  - now rewrite app_nil_r.
  - unfold references_heading at 1.
    destruct (matches pat_references para); simpl; [apply IH|].
    destruct (truthy para) eqn:Ht.
    + rewrite orb_true_r, IH, <- app_assoc. reflexivity.
    + destruct (matches pat_reference_number para) eqn:Hn.
      * apply number_pattern_nonempty in Hn. congruence.
      * simpl. apply IH.
Qed.

Lemma references_loop_before (pre ps : list str) (refs : list str) :
  forallb (fun p => negb (references_heading p)) pre = true ->
  references_loop (pre ++ ps) refs false = references_loop ps refs false.
Proof.
  induction pre as [|para pre IH]; simpl; intros H; [reflexivity|].
  apply andb_prop in H as [Hp Hpre]. apply negb_true_iff in Hp.
  unfold references_heading in Hp. rewrite Hp. auto.
Qed.

End HeadingNumberFacts.

(** ** The leading number of the table patterns; the references heading *)

Section ReferencesHeadingFacts.

(** A table pattern that matches a paragraph with a number in front allows
    a number, and the leading digit is that number. *)
Lemma table_leading_digit (ty : string) (pat : re) (w : str) (d : char) (rest : str) :
  In (ty, pat) SECTION_PATTERNS ->
  forallb isspace w = true -> is_digit d = true ->
  matches pat (w ++ d :: rest) = true ->
  exists k, In (ty, k) own_number /\ d = N_of_ascii k
            /\ forall d2 rest2, rest = d2 :: rest2 -> is_digit d2 = false.
Proof.
  intros Hin Hw Hd Hm. apply matches_accepts in Hm as [s' Ha].
  unfold SECTION_PATTERNS in Hin. simpl in Hin.
  repeat (destruct Hin as [Hin|Hin]; [injection Hin as <- <-|]); try contradiction.
  - exists "1"%char. split; [simpl; tauto|].
    eapply leading_digit_numbered; [exact Hw|exact Hd|reflexivity| |exact Ha].
    words_start_with_letter ci_lit_false.
  - exists "2"%char. split; [simpl; tauto|].
    eapply leading_digit_numbered; [exact Hw|exact Hd|reflexivity| |exact Ha].
    words_start_with_letter ci_lit_false.
  - exists "3"%char. split; [simpl; tauto|].
    eapply leading_digit_numbered; [exact Hw|exact Hd|reflexivity| |exact Ha].
    words_start_with_letter ci_lit_false.
  - exists "4"%char. split; [simpl; tauto|].
    eapply leading_digit_numbered; [exact Hw|exact Hd|reflexivity| |exact Ha].
    words_start_with_letter ci_lit_false.
  - exists "5"%char. split; [simpl; tauto|].
    eapply leading_digit_numbered; [exact Hw|exact Hd|reflexivity| |exact Ha].
    words_start_with_letter ci_lit_false.
  - exists "6"%char. split; [simpl; tauto|].
    eapply leading_digit_numbered; [exact Hw|exact Hd|reflexivity| |exact Ha].
    words_start_with_letter ci_lit_false.
  - exfalso. eapply leading_digit_plain; [exact Hw|exact Hd| |exact Ha].
    words_start_with_letter ci_lit_false.
  - exfalso. eapply leading_digit_plain; [exact Hw|exact Hd| |exact Ha].
    words_start_with_letter ci_lit_false.
Qed.

(** Each of the six numbered patterns accepts its own number, with or
    without a period and a blank, in front of a heading it accepts. *)
Lemma table_number_accepted (ty : string) (k : ascii) (pat : re) (c : char) (s : str) :
  In (ty, k) own_number -> In (ty, pat) SECTION_PATTERNS ->
  isspace c = false -> is_digit c = false ->
  matches pat (c :: s) = true ->
  matches pat (N_of_ascii k :: c :: s) = true
  /\ matches pat (N_of_ascii k :: 46%N :: 32%N :: c :: s) = true.
Proof.
  intros Hk Hin Hc Hd Hm. apply matches_accepts in Hm as [s' Ha].
  assert (Hne : is_digit (N_of_ascii k) = true -> c <> N_of_ascii k) by congruence.
  rewrite !matches_accepts.
  unfold own_number in Hk. simpl in Hk. unfold SECTION_PATTERNS in Hin. simpl in Hin.
  repeat (destruct Hk as [Hk|Hk]; [injection Hk as <- <-|]); try contradiction;
    repeat (destruct Hin as [Hin|Hin];
            [pose proof (f_equal fst Hin) as E1; pose proof (f_equal snd Hin) as E2;
             simpl in E1, E2; clear Hin; try discriminate E1; subst pat|]);
    try contradiction;
    specialize (Hne eq_refl);
    destruct (number_accepted Hc Hne Ha) as [H1 H2]; eauto.
Qed.

(** "References" and "Reference", in any letter case and with whitespace
    around, are references headings. *)
Lemma references_heading_variants (w1 core w2 : str) :
  forallb isspace w1 = true -> forallb isspace w2 = true ->
  case_variant "references" core \/ case_variant "reference" core ->
  references_heading (w1 ++ core ++ w2) = true.
Proof.
  intros H1 H2 Hcore. unfold references_heading. apply matches_accepts. exists [].
  unfold pat_references. cbn [seq_all].
  apply acc_seq with (s' := core ++ w2); [now apply acc_star|].
  destruct Hcore as [Hc|Hc].
  - assert (E : exists core9 c, core = core9 ++ [c] /\ case_variant "reference" core9
                               /\ case_variant "s" [c]).
    { unfold case_variant in *.
      do 10 (destruct core as [|? core]; [discriminate|]).
      destruct core; [|discriminate].
      injection Hc as ? ? ? ? ? ? ? ? ? ?.
      eexists [_; _; _; _; _; _; _; _; _], _. split; [reflexivity|].
      split; cbn [map];
        repeat match goal with H : ascii_lower _ = _ |- _ => rewrite H; clear H end;
        reflexivity. }
    destruct E as [core9 [c [-> [H9 Hs]]]]. rewrite <- !app_assoc.
    apply acc_seq with (s' := [c] ++ w2); [now apply case_variant_accepted|].
    apply acc_seq with (s' := w2);
      [apply acc_opt_some; now apply case_variant_accepted|].
    apply acc_seq with (s' := []); [|now constructor].
    rewrite <- (app_nil_r w2) at 1. now apply acc_star.
  - apply acc_seq with (s' := w2); [now apply case_variant_accepted|].
    apply acc_seq with (s' := w2); [apply acc_opt_none|].
    apply acc_seq with (s' := []); [|now constructor].
    rewrite <- (app_nil_r w2) at 1. now apply acc_star.
Qed.

(** From the first references heading on, every non-empty paragraph that is
    no references heading itself is a reference entry. *)
Lemma extract_references_after_heading (pre : list str) (h : str) (rest : list str) :
  forallb (fun p => negb (references_heading p)) pre = true ->
  references_heading h = true ->
  extract_references (pre ++ h :: rest) =
  filter (fun p => negb (references_heading p) && truthy p) rest.
Proof.
  intros Hpre Hh. unfold extract_references.
  rewrite references_loop_before by assumption. simpl.
  unfold references_heading in Hh. rewrite Hh.
  apply references_loop_inside.
Qed.

(** C6, the claim as stated, fails: a number in front of "References" is
    not accepted by the references pattern; the paragraph is classified as
    a numbered section and no reference is extracted after it. *)
Lemma numbered_references_not_recognized :
  matches pat_references (lit "7. References") = false
  /\ _get_section_type (lit "7. References") = Some "numbered_section"%string
  /\ extract_references [lit "7. References"; lit "[1] Smith 2020"] = [].
Proof. repeat split; reflexivity. Qed.

(** C6, amended. A table pattern matches a paragraph that begins (after
    whitespace) with a digit only if it is one of the six numbered patterns,
    the digit is its own number and no second digit follows it, so the
    references and acknowledgments patterns accept no leading number; each
    numbered pattern accepts its own number in front of a heading it
    accepts; "References" and "Reference" without a number, in any letter
    case, are recognized as the references heading; and from the first such
    heading on, reference extraction takes every later non-empty paragraph
    that is not itself a references heading as a reference entry. *)
Theorem section_patterns_leading_number :
  (forall ty pat w d rest,
      In (ty, pat) SECTION_PATTERNS ->
      forallb isspace w = true -> is_digit d = true ->
      matches pat (w ++ d :: rest) = true ->
      exists k, In (ty, k) own_number /\ d = N_of_ascii k
                /\ forall d2 rest2, rest = d2 :: rest2 -> is_digit d2 = false)
  /\ (forall ty k pat c s,
      In (ty, k) own_number -> In (ty, pat) SECTION_PATTERNS ->
      isspace c = false -> is_digit c = false ->
      matches pat (c :: s) = true ->
      matches pat (N_of_ascii k :: c :: s) = true
      /\ matches pat (N_of_ascii k :: 46%N :: 32%N :: c :: s) = true)
  /\ (forall w1 core w2,
      forallb isspace w1 = true -> forallb isspace w2 = true ->
      case_variant "references" core \/ case_variant "reference" core ->
      references_heading (w1 ++ core ++ w2) = true)
  /\ (forall pre h rest,
      forallb (fun p => negb (references_heading p)) pre = true ->
      references_heading h = true ->
      extract_references (pre ++ h :: rest) =
      filter (fun p => negb (references_heading p) && truthy p) rest).
Proof.
  split; [exact table_leading_digit|].
  split; [exact table_number_accepted|].
  split; [exact references_heading_variants|].
  exact extract_references_after_heading.
Qed.

End ReferencesHeadingFacts.

(** ** The renderer: what one pass appends *)

Section RenderFacts.

Lemma extend_extend (self : applier) (d : docx) (ps1 ps2 : list paragraph)
  (ls1 ls2 : list str) :
  extend (extend self d ps1 ls1)
         {| layout := layout d; styles := styles d; paragraphs := paragraphs d ++ ps1 |}
         ps2 ls2
  = extend self d (ps1 ++ ps2) (ls1 ++ ls2).
Proof. unfold extend. simpl. now rewrite !app_assoc. Qed.

Lemma appends_seq (a b : action) (ps1 ps2 : list paragraph) (ls1 ls2 : list str) :
  appends a ps1 ls1 -> appends b ps2 ls2 ->
  appends (a >> b) (ps1 ++ ps2) (ls1 ++ ls2).
Proof.
  intros Ha Hb self d Hd. unfold and_then. rewrite (Ha self d Hd), forallb_app.
  destruct (forallb accepted ps1); [|reflexivity]. cbn [andb].
  rewrite (Hb (extend self d ps1 ls1)
              {| layout := layout d; styles := styles d; paragraphs := paragraphs d ++ ps1 |}
              eq_refl).
  now rewrite extend_extend.
Qed.

Lemma appends_skip : appends skip [] [].
Proof.
  intros self d Hd. unfold skip, extend. cbn [forallb]. rewrite !app_nil_r.
  destruct self as [doc fc tc cl]. simpl in *. subst doc. now destruct d.
Qed.

(** [add_paragraph] appends the paragraph when [add_run] takes its runs,
    and raises when it refuses one. *)
Lemma appends_paragraph (p : paragraph) : appends (add_paragraph p) [p] [].
Proof.
  intros self d Hd. unfold add_paragraph, extend. cbn [forallb].
  rewrite Hd, andb_true_r, app_nil_r. reflexivity.
Qed.

Lemma appends_log (entry : str) : appends (log entry) [] [entry].
Proof.
  intros self d Hd. unfold log, extend. cbn [forallb]. rewrite Hd, app_nil_r.
  now destruct d.
Qed.

Lemma appends_when (c : bool) (a : action) (ps : list paragraph) (ls : list str) :
  appends a ps ls ->
  appends (when c a) (if c then ps else []) (if c then ls else []).
Proof. destruct c; simpl; [auto | intros _; apply appends_skip]. Qed.

Lemma appends_for_each (A : Type) (f : A -> action) (g : A -> list paragraph)
  (l : list A) :
  (forall x, appends (f x) (g x) []) ->
  appends (for_each f l) (flat_map g l) [].
Proof.
  intros H. induction l as [|x l IH]; simpl.
  - apply appends_skip.
  - change (@nil str) with (@nil str ++ @nil str). apply appends_seq; auto.
Qed.

(** *** What each method appends *)

Lemma appends_eq (a : action) (ps ps' : list paragraph) (ls ls' : list str) :
  appends a ps ls -> ps = ps' -> ls = ls' -> appends a ps' ls'.
Proof. now intros H <- <-. Qed.

Lemma appends_paragraph_log (p : paragraph) (entry : str) :
  appends (add_paragraph p >> log entry) [p] [entry].
Proof.
  change [p] with ([p] ++ []). change [entry] with ([] ++ [entry]).
  apply appends_seq; [apply appends_paragraph | apply appends_log].
Qed.

Lemma appends_with_style (a : action) (ps : list paragraph) (ls : list str) :
  appends a ps ls -> appends_styled a ps ls.
Proof. intros H self d Hd _. now apply H. Qed.

Lemma appends_styled_when (c : bool) (a : action) (ps : list paragraph) (ls : list str) :
  appends_styled a ps ls ->
  appends_styled (when c a) (if c then ps else []) (if c then ls else []).
Proof.
  destruct c; simpl; [auto | intros _; apply appends_with_style, appends_skip].
Qed.

(** The title needs its style in the document. *)
Lemma appends_title (t : str) :
  appends_styled (add_title t) [title_paragraph t]
                 [lit "Title formatted (14pt, Bold, Center)"].
Proof.
  intros self d Hd Hs.
  rewrite <- (@appends_paragraph_log (title_paragraph t)
                (lit "Title formatted (14pt, Bold, Center)") self d Hd).
  unfold add_title, and_then, require_style. now rewrite Hd, Hs.
Qed.

Lemma appends_authors (parsed : parsed_content) :
  appends (add_authors (authors parsed)) (authors_part parsed) (authors_log parsed).
Proof.
  unfold add_authors, authors_part, authors_log.
  destruct (authors parsed); [apply appends_skip | apply appends_paragraph_log].
Qed.

Lemma appends_abstract (parsed : parsed_content) :
  appends (add_abstract (abstract parsed)) (abstract_part parsed) (abstract_log parsed).
Proof.
  unfold add_abstract, abstract_part, abstract_log.
  destruct (truthy (abs_text (abstract parsed)));
    [apply appends_paragraph_log | apply appends_skip].
Qed.

Lemma appends_keywords (parsed : parsed_content) :
  appends (add_keywords (keywords parsed)) (keywords_part parsed) (keywords_log parsed).
Proof.
  unfold add_keywords, keywords_part, keywords_log.
  destruct (keywords parsed); [apply appends_skip | apply appends_paragraph_log].
Qed.

Lemma flat_map_singleton (A B : Type) (f : A -> B) (l : list A) :
  flat_map (fun x => [f x]) l = map f l.
Proof. induction l as [|x l IH]; simpl; congruence. Qed.

(** A section appends its heading and its body paragraphs, and no log entry. *)
Lemma appends_section (s : section) : appends (add_section s) (section_part s) [].
Proof.
  unfold add_section, section_part, add_heading.
  change (heading_paragraph (sec_title s) (_get_heading_level (sec_type s))
          :: map body_paragraph (content_lines (sec_content s)))
    with ([heading_paragraph (sec_title s) (_get_heading_level (sec_type s))]
          ++ map body_paragraph (content_lines (sec_content s))).
  change (@nil str) with (@nil str ++ @nil str).
  apply appends_seq; [apply appends_paragraph|].
  rewrite <- flat_map_singleton.
  apply appends_for_each. intros x. apply appends_paragraph.
Qed.

Lemma appends_sections (l : list section) :
  appends (for_each add_section l) (flat_map section_part l) [].
Proof. apply appends_for_each, appends_section. Qed.

Lemma appends_reference_entries (refs : list str) :
  forall i, appends (add_reference_entries i refs) (reference_entries i refs) [].
Proof.
  induction refs as [|ref rest IH]; intros i; simpl.
  - apply appends_skip.
  - change (reference_paragraph i ref :: reference_entries (S i) rest)
      with ([reference_paragraph i ref] ++ reference_entries (S i) rest).
    change (@nil str) with (@nil str ++ @nil str).
    apply appends_seq; [apply appends_paragraph | apply IH].
Qed.

Lemma appends_references (parsed : parsed_content) :
  appends (add_references (references parsed)) (references_part parsed)
          (references_log parsed).
Proof.
  unfold add_references, references_part, references_log.
  destruct (references parsed) as [|ref rest]; [apply appends_skip|].
  eapply appends_eq.
  - apply appends_seq; [apply appends_seq|].
    + apply appends_paragraph.
    + apply appends_reference_entries.
    + apply appends_log.
  - now rewrite app_nil_r.
  - reflexivity.
Qed.

(** *** One call of apply_springer_style *)

Lemma create_new_document_spec (self : applier) :
  (create_new_document >> reset_counters) self =
  Some (extend {| document := Some styled_document; figure_counter := 0;
                  table_counter := 0;
                  changes_log := changes_log self ++ [margins_entry] |}
               styled_document [] []).
Proof. unfold extend. simpl. now rewrite app_nil_r. Qed.

Lemma reaches_step (a b : action) (self s0 : applier) (d0 : docx)
  (ps ps' : list paragraph) (ls ls' : list str) :
  a self = (if forallb accepted ps then Some (extend s0 d0 ps ls) else None) ->
  has_style "LNCS Title" d0 = true ->
  appends_styled b ps' ls' ->
  (a >> b) self =
  if forallb accepted (ps ++ ps') then Some (extend s0 d0 (ps ++ ps') (ls ++ ls'))
  else None.
Proof.
  intros Ha Hs Hb. unfold and_then. rewrite Ha, forallb_app.
  destruct (forallb accepted ps); [|reflexivity]. cbn [andb].
  rewrite (Hb (extend s0 d0 ps ls)
              {| layout := layout d0; styles := styles d0; paragraphs := paragraphs d0 ++ ps |}
              eq_refl Hs).
  now rewrite extend_extend.
Qed.

(** One call of [apply_springer_style], from any state of the applier: the
    call returns exactly when [add_run] takes every text of the paragraphs
    of the pass, and raises otherwise. *)
Lemma apply_springer_style_spec (parsed : parsed_content) (self : applier) :
  apply_springer_style parsed self =
  if forallb accepted (styled_paragraphs parsed) then
    Some {| document := Some {| layout := layout styled_document;
                                styles := styles styled_document;
                                paragraphs := styled_paragraphs parsed |};
            figure_counter := 0;
            table_counter := 0;
            changes_log := changes_log self ++ margins_entry :: styled_log parsed |}
  else None.
Proof.
  unfold apply_springer_style.
  pose proof (create_new_document_spec self) as H0.
  change (Some ?x) with (if forallb accepted [] then Some x else None) in H0.
  pose proof (@reaches_step _ _ self _ styled_document [] _ [] _ H0 eq_refl
                (appends_styled_when (truthy (title parsed))
                                     (appends_title (title parsed)))) as H1.
  pose proof (@reaches_step _ _ _ _ _ _ _ _ _ H1 eq_refl
                (appends_with_style
                   (appends_when (match authors parsed with [] => false | _ => true end)
                                 (appends_authors parsed)))) as H2.
  pose proof (@reaches_step _ _ _ _ _ _ _ _ _ H2 eq_refl
                (appends_with_style (appends_abstract parsed))) as H3.
  pose proof (@reaches_step _ _ _ _ _ _ _ _ _ H3 eq_refl
                (appends_with_style
                   (appends_when (match keywords parsed with [] => false | _ => true end)
                                 (appends_keywords parsed)))) as H4.
  pose proof (@reaches_step _ _ _ _ _ _ _ _ _ H4 eq_refl
                (appends_with_style (appends_sections (sections parsed)))) as H5.
  pose proof (@reaches_step _ _ _ _ _ _ _ _ _ H5 eq_refl
                (appends_with_style
                   (appends_when (match references parsed with [] => false | _ => true end)
                                 (appends_references parsed)))) as H6.
  rewrite H6. clear H0 H1 H2 H3 H4 H5 H6.
  match goal with
  | |- (if forallb accepted ?ps then Some (extend _ _ ?ps ?ls) else None) = _ =>
      assert (Eps : ps = styled_paragraphs parsed);
      [|assert (Els : ls = styled_log parsed); [|rewrite Eps, Els]]
  end.
  - unfold styled_paragraphs, title_part, authors_part, keywords_part, references_part.
    destruct (truthy (title parsed)), (authors parsed), (keywords parsed),
      (references parsed); cbn [app]; rewrite ?app_nil_r, <- ?app_assoc; reflexivity.
  - unfold styled_log, title_log, authors_log, keywords_log, references_log.
    destruct (truthy (title parsed)), (authors parsed), (keywords parsed),
      (references parsed); cbn [app]; rewrite ?app_nil_r, <- ?app_assoc; reflexivity.
  - destruct (forallb accepted (styled_paragraphs parsed)); [|reflexivity].
    unfold extend. cbn [changes_log document figure_counter table_counter layout styles
      paragraphs styled_document app]. now rewrite <- app_assoc.
Qed.

(** *** The texts [add_run] takes *)

Lemma digits_forall (p : char -> bool) :
  (forall c, in_range 48%N 57%N c = true -> p c = true) ->
  forall u : Decimal.uint, forallb p (lit (NilZero.string_of_uint u)) = true.
Proof.
  intros Hp.
  assert (E : forall u : Decimal.uint, forallb p (lit (NilEmpty.string_of_uint u)) = true).
  { induction u as [|u IH|u IH|u IH|u IH|u IH|u IH|u IH|u IH|u IH|u IH];
      [reflexivity|..];
      cbn [NilEmpty.string_of_uint]; unfold lit in *;
      cbn [list_ascii_of_string map forallb]; rewrite IH, Hp; reflexivity. }
  intros u. destruct u; [|apply E..].
  cbn [NilZero.string_of_uint]. unfold lit. cbn [list_ascii_of_string map forallb].
  now rewrite Hp.
Qed.

Lemma digit_compatible (c : char) : in_range 48%N 57%N c = true -> xml_char c = true.
Proof.
  rewrite in_range_spec. intros H. unfold xml_char.
  replace (N.leb 32%N c) with true by (symmetry; apply N.leb_le; lia).
  replace (in_range 55296%N 57343%N c) with false.
  2:{ symmetry. apply not_true_is_false. rewrite in_range_spec. lia. }
  replace (char_eqb c 65534%N) with false.
  2:{ symmetry. apply not_true_is_false. rewrite char_eqb_spec. lia. }
  replace (char_eqb c 65535%N) with false.
  2:{ symmetry. apply not_true_is_false. rewrite char_eqb_spec. lia. }
  now rewrite !orb_true_r.
Qed.

Lemma str_of_nat_compatible (n : nat) : xml_compatible (str_of_nat n) = true.
Proof. apply digits_forall, digit_compatible. Qed.




Lemma xml_compatible_app (s t : str) :
  xml_compatible (s ++ t) = xml_compatible s && xml_compatible t.
Proof. apply forallb_app. Qed.

Lemma join_compatible (sep : str) (l : list str) :
  xml_compatible sep = true -> forallb xml_compatible l = true ->
  xml_compatible (join sep l) = true.
Proof.
  intros Hsep. induction l as [|x rest IH]; [reflexivity|].
  cbn [forallb]. intros H. apply andb_prop in H as [Hx Hrest].
  cbn [join]. destruct rest as [|y rest']; [exact Hx|].
  rewrite !xml_compatible_app, Hx, Hsep, (IH Hrest). reflexivity.
Qed.

Lemma content_lines_compatible (content : str) :
  xml_compatible content = true ->
  forallb xml_compatible (content_lines content) = true.
Proof.
  intros H. unfold content_lines. destruct (truthy content); [|reflexivity].
  apply forallb_forall. intros x Hx. apply in_map_iff in Hx as [y [<- Hy]].
  apply filter_In in Hy as [Hy _].
  apply forallb_strip.
  pose proof (@split_on_forall xml_char (char_eqb newline) content H) as F.
  rewrite Forall_forall in F. now apply F.
Qed.

Lemma author_runs_accepted (l : list author) :
  forallb (fun a => xml_compatible (author_name a)) l = true ->
  forall i n, forallb run_accepted (author_runs i n l) = true.
Proof.
  induction l as [|a rest IH]; [reflexivity|].
  cbn [forallb]. intros H i n. apply andb_prop in H as [Ha Hrest].
  cbn [author_runs app forallb]. unfold run_accepted at 1 2.
  cbn [content text_run]. rewrite Ha, str_of_nat_compatible. cbn [andb].
  rewrite forallb_app, (IH Hrest). destruct (i <? n - 1); reflexivity.
Qed.

Lemma heading_accepted (text : str) (level : nat) :
  xml_compatible text = true -> accepted (heading_paragraph text level) = true.
Proof.
  intros H. unfold accepted, heading_paragraph. cbn [runs forallb].
  unfold run_accepted. cbn [content text_run].
  unfold xml_compatible. now rewrite (@re_sub_prefix_forall xml_char pat_heading_number text H).
Qed.

Lemma section_part_accepted (s : section) :
  xml_compatible (sec_title s) = true -> xml_compatible (sec_content s) = true ->
  forallb accepted (section_part s) = true.
Proof.
  intros Ht Hc. unfold section_part. cbn [forallb].
  rewrite (@heading_accepted (sec_title s) (_get_heading_level (sec_type s)) Ht). cbn [andb].
  apply forallb_forall. intros p Hp. apply in_map_iff in Hp as [x [<- Hx]].
  pose proof (@content_lines_compatible _ Hc) as F. rewrite forallb_forall in F.
  unfold accepted, body_paragraph. cbn [runs forallb]. unfold run_accepted.
  cbn [content text_run]. now rewrite (F x Hx).
Qed.

Lemma reference_entries_accepted (refs : list str) :
  forallb xml_compatible refs = true ->
  forall i, forallb accepted (reference_entries i refs) = true.
Proof.
  induction refs as [|ref rest IH]; [reflexivity|].
  cbn [forallb]. intros H i. apply andb_prop in H as [Hr Hrest].
  cbn [reference_entries forallb]. rewrite (IH Hrest), andb_true_r.
  unfold accepted, reference_paragraph. cbn [runs forallb]. unfold run_accepted.
  cbn [content text_run].
  rewrite !xml_compatible_app, str_of_nat_compatible.
  unfold xml_compatible at 3.
  now rewrite (@re_sub_prefix_forall xml_char pat_reference_number ref Hr).
Qed.

(** Parsed content whose texts [add_run] takes gives paragraphs it takes. *)
Lemma renderable_accepted (parsed : parsed_content) :
  renderable parsed = true -> forallb accepted (styled_paragraphs parsed) = true.
Proof.
  unfold renderable. intros H.
  apply andb_prop in H as [H Hrefs]. apply andb_prop in H as [H Hsec].
  apply andb_prop in H as [H Hkw]. apply andb_prop in H as [H Habs].
  apply andb_prop in H as [Ht Hau].
  unfold styled_paragraphs. rewrite !forallb_app.
  repeat (apply andb_true_intro; split).
  - unfold title_part. destruct (truthy (title parsed)); [|reflexivity].
    cbn [forallb]. unfold accepted, title_paragraph. cbn [runs forallb].
    unfold run_accepted. cbn [content text_run]. now rewrite Ht.
  - unfold authors_part. destruct (authors parsed) as [|a rest] eqn:E; [reflexivity|].
    cbn [forallb]. unfold accepted, authors_paragraph. cbn [runs].
    now rewrite (@author_runs_accepted _ Hau).
  - unfold abstract_part. destruct (truthy (abs_text (abstract parsed))); [|reflexivity].
    cbn [forallb]. unfold accepted, abstract_paragraph. cbn [runs forallb].
    unfold run_accepted. cbn [content text_run]. now rewrite Habs.
  - unfold keywords_part. destruct (keywords parsed) as [|k rest] eqn:E; [reflexivity|].
    cbn [forallb]. unfold accepted, keywords_paragraph. cbn [runs forallb].
    unfold run_accepted. cbn [content text_run].
    now rewrite (@join_compatible keyword_separator (k :: rest) eq_refl Hkw).
  - apply forallb_forall. intros p Hp. apply in_flat_map in Hp as [s [Hs Hp]].
    rewrite forallb_forall in Hsec. specialize (Hsec s Hs).
    apply andb_prop in Hsec as [Hst Hsc].
    pose proof (@section_part_accepted s Hst Hsc) as F. rewrite forallb_forall in F.
    now apply F.
  - unfold references_part. destruct (references parsed) as [|r rest] eqn:E; [reflexivity|].
    cbn [forallb]. rewrite (@heading_accepted (lit "References") 1 eq_refl).
    now rewrite (@reference_entries_accepted _ Hrefs).
Qed.

(** A pass over content whose texts [add_run] takes returns. *)
Lemma apply_springer_style_renderable (parsed : parsed_content) (self : applier) :
  renderable parsed = true ->
  apply_springer_style parsed self =
  Some {| document := Some {| layout := layout styled_document;
                              styles := styles styled_document;
                              paragraphs := styled_paragraphs parsed |};
          figure_counter := 0;
          table_counter := 0;
          changes_log := changes_log self ++ margins_entry :: styled_log parsed |}.
Proof.
  intros H. now rewrite apply_springer_style_spec, (@renderable_accepted _ H).
Qed.

End RenderFacts.

(** ** Figures *)

Section FigureFacts.

Variable path_exists : str -> bool.
Variable picture_accepted : str -> QArith_base.Q -> bool.

(** [add_run] takes the runs of a caption paragraph exactly when it takes
    the caption. *)
Lemma caption_accepted (n : nat) (caption : str) :
  accepted (caption_paragraph n caption) = xml_compatible caption.
Proof.
  unfold accepted, caption_paragraph. cbn [runs forallb]. unfold run_accepted.
  cbn [content text_run]. rewrite !xml_compatible_app, str_of_nat_compatible.
  change (xml_compatible (lit "Fig. ")) with true.
  change (xml_compatible (lit ". ")) with true. cbn [andb].
  rewrite andb_true_r. destruct caption as [|c rest]; cbn [truthy]; [|reflexivity].
  rewrite xml_compatible_app, str_of_nat_compatible. reflexivity.
Qed.

(** One call of [add_figure] on an applier with a document, for a file that
    is readable as a picture if it exists: the call returns exactly when
    [add_run] takes the caption. *)
Lemma add_figure_spec (image_path caption : str) (width_inches : QArith_base.Q)
  (self : applier) (d : docx) :
  document self = Some d ->
  (path_exists image_path = true -> picture_accepted image_path width_inches = true) ->
  add_figure path_exists picture_accepted image_path caption width_inches self =
  if xml_compatible caption then
    Some {| document :=
              Some {| layout := layout d; styles := styles d;
                      paragraphs :=
                        paragraphs d
                        ++ (if path_exists image_path
                            then [picture_paragraph image_path width_inches] else [])
                        ++ [caption_paragraph (figure_counter self + 1) caption] |};
            figure_counter := figure_counter self + 1;
            table_counter := table_counter self;
            changes_log := changes_log self ++ [figure_entry (figure_counter self + 1)] |}
  else None.
Proof.
  intros Hd Hr. destruct self as [doc fc tc cl]. cbn [document] in Hd. subst doc.
  unfold add_figure, and_then, increment_figure_counter, when, add_picture,
    add_paragraph, log, skip.
  cbn [document figure_counter table_counter changes_log].
  destruct (path_exists image_path) eqn:E.
  - rewrite (Hr eq_refl).
    change (accepted (picture_paragraph image_path width_inches)) with true.
    cbn [document figure_counter table_counter changes_log layout styles paragraphs].
    rewrite caption_accepted. destruct (xml_compatible caption); [|reflexivity].
    cbn [document figure_counter table_counter changes_log layout styles paragraphs].
    now rewrite <- app_assoc.
  - rewrite caption_accepted. destruct (xml_compatible caption); reflexivity.
Qed.

Lemma insert_images_spec (images_data : list image_info) :
  forall (self : applier) (d : docx),
    document self = Some d ->
    (forall img, In img images_data ->
                 path_exists (img_path img) = true ->
                 picture_accepted (img_path img) (img_width img) = true) ->
    insert_images_at_positions path_exists picture_accepted images_data self =
    if captions_compatible images_data then
      Some {| document :=
                Some {| layout := layout d; styles := styles d;
                        paragraphs :=
                          paragraphs d
                          ++ figures_part path_exists (figure_counter self) images_data |};
              figure_counter := figure_counter self + length images_data;
              table_counter := table_counter self;
              changes_log :=
                changes_log self ++ figures_log (figure_counter self) images_data |}
    else None.
Proof.
  unfold insert_images_at_positions.
  induction images_data as [|img rest IH]; intros self d Hd Hr.
  - simpl. unfold skip. rewrite !app_nil_r, Nat.add_0_r.
    destruct self as [doc fc tc cl]. simpl in *. subst doc. now destruct d.
  - cbn [for_each captions_compatible forallb]. unfold and_then at 1.
    rewrite (@add_figure_spec _ _ _ self d Hd) by (apply Hr; now left).
    destruct (xml_compatible (img_caption img)); [|reflexivity]. cbn [andb].
    erewrite IH; [|reflexivity|intros; apply Hr; [now right|assumption]].
    fold (captions_compatible rest).
    destruct (captions_compatible rest); [|reflexivity].
    cbn [document figure_counter table_counter changes_log layout styles paragraphs
         figures_part figures_log length].
    f_equal. f_equal.
    + f_equal. f_equal. rewrite <- !app_assoc. reflexivity.
    + lia.
    + rewrite <- app_assoc. reflexivity.
Qed.

(** The rendering steps of [process_document], when every image file that
    exists is readable as a picture: the steps return exactly when
    [add_run] takes every text of the pass and every caption. *)
Lemma process_document_spec (parsed : parsed_content) (images_data : list image_info) :
  (forall img, In img images_data ->
               path_exists (img_path img) = true ->
               picture_accepted (img_path img) (img_width img) = true) ->
  App.process_document path_exists picture_accepted parsed images_data =
  if forallb accepted (styled_paragraphs parsed) && captions_compatible images_data then
    Some {| document :=
              Some {| layout := layout styled_document;
                      styles := styles styled_document;
                      paragraphs :=
                        styled_paragraphs parsed ++ figures_part path_exists 0 images_data |};
            figure_counter := length images_data;
            table_counter := 0;
            changes_log :=
              margins_entry :: styled_log parsed ++ figures_log 0 images_data |}
  else None.
Proof.
  intros Hr. unfold App.process_document, and_then.
  rewrite apply_springer_style_spec.
  destruct (forallb accepted (styled_paragraphs parsed)); [|reflexivity].
  cbn [changes_log new_applier app andb].
  destruct images_data as [|img rest].
  - cbn [when skip figures_part figures_log length captions_compatible forallb].
    now rewrite !app_nil_r.
  - cbn [when]. erewrite insert_images_spec; [|reflexivity|exact Hr].
    destruct (captions_compatible (img :: rest)); reflexivity.
Qed.

(** The rendering steps return for content and captions whose texts
    [add_run] takes. *)
Lemma process_document_renderable (parsed : parsed_content)
  (images_data : list image_info) :
  renderable parsed = true ->
  captions_compatible images_data = true ->
  (forall img, In img images_data ->
               path_exists (img_path img) = true ->
               picture_accepted (img_path img) (img_width img) = true) ->
  App.process_document path_exists picture_accepted parsed images_data =
  Some {| document :=
            Some {| layout := layout styled_document;
                    styles := styles styled_document;
                    paragraphs :=
                      styled_paragraphs parsed ++ figures_part path_exists 0 images_data |};
          figure_counter := length images_data;
          table_counter := 0;
          changes_log :=
            margins_entry :: styled_log parsed ++ figures_log 0 images_data |}.
Proof.
  intros Hp Hc Hr.
  now rewrite (@process_document_spec parsed images_data Hr), (@renderable_accepted _ Hp), Hc.
Qed.

End FigureFacts.

(** ** The claims on the renderer *)

Section RendererClaims.

Lemma scenario_renderable : renderable scenario_parsed = true.
Proof. vm_compute. reflexivity. Qed.

(** C1, the claim as stated, fails: on the scenario with one image the
    figure comes after the references, it is the last content of the
    document, and the document is not the one of the claimed order. *)
Lemma figures_follow_references :
  exists st d,
    App.process_document every_file every_picture scenario_parsed [scenario_image] = Some st
    /\ document st = Some d
    /\ map docx_text (paragraphs d) =
       [lit "A Study of X"; lit "Jane Doe1"; lit "Abstract. This work presents...";
        lit "Keywords: ml " ++ [183%N] ++ lit " nlp"; lit "Introduction"; lit "Text.";
        lit "References"; lit "[1] Smith 2020";
        lit "References"; lit "[1] [1] Smith 2020";
        []; lit "Fig. 1. Overview"]
    /\ paragraphs d <> claimed_order every_file scenario_parsed [scenario_image].
Proof.
  rewrite (@process_document_renderable every_file every_picture scenario_parsed
             [scenario_image] scenario_renderable eq_refl (fun _ _ _ => eq_refl)).
  eexists. eexists. split; [reflexivity|]. split; [reflexivity|].
  cbn [paragraphs]. split.
  - vm_compute. reflexivity.
  - intros H. apply (f_equal (map paragraph_text)) in H. vm_compute in H. discriminate H.
Qed.

(** C1, amended. When [add_run] takes every text of the parsed content and
    every caption (no control character other than tab, line feed and
    carriage return, no surrogate, neither U+FFFE nor U+FFFF), and every
    image file that exists is readable as a picture, one render pass
    returns, and the document receives, in this order: title, authors,
    abstract, keywords, the sections in document order, the references, and
    then all figures, appended last. *)
Theorem render_pass_order (path_exists : str -> bool)
  (picture_accepted : str -> QArith_base.Q -> bool)
  (parsed : parsed_content) (images_data : list image_info) :
  renderable parsed = true ->
  captions_compatible images_data = true ->
  (forall img, In img images_data ->
               path_exists (img_path img) = true ->
               picture_accepted (img_path img) (img_width img) = true) ->
  exists st d,
    App.process_document path_exists picture_accepted parsed images_data = Some st
    /\ document st = Some d
    /\ paragraphs d =
       title_part parsed ++ authors_part parsed ++ abstract_part parsed
       ++ keywords_part parsed ++ flat_map section_part (sections parsed)
       ++ references_part parsed
       ++ figures_part path_exists 0 images_data.
Proof.
  intros Hp Hc Hr.
  rewrite (@process_document_renderable path_exists picture_accepted parsed images_data
             Hp Hc Hr).
  eexists. eexists. split; [reflexivity|]. split; [reflexivity|].
  cbn [paragraphs]. unfold styled_paragraphs. now rewrite <- !app_assoc.
Qed.

Lemma render_pass_order_witness :
  renderable scenario_parsed = true
  /\ captions_compatible [scenario_image] = true
  /\ (forall img, In img [scenario_image] ->
                  every_file (img_path img) = true ->
                  every_picture (img_path img) (img_width img) = true)
  /\ exists st d,
      App.process_document every_file every_picture scenario_parsed [scenario_image] = Some st
      /\ document st = Some d
      /\ paragraphs d =
         title_part scenario_parsed ++ authors_part scenario_parsed
         ++ abstract_part scenario_parsed ++ keywords_part scenario_parsed
         ++ flat_map section_part (sections scenario_parsed)
         ++ references_part scenario_parsed
         ++ figures_part every_file 0 [scenario_image].
Proof.
  split; [vm_compute; reflexivity|]. split; [vm_compute; reflexivity|]. split.
  - intros img _ _. reflexivity.
  - apply (@render_pass_order every_file every_picture scenario_parsed [scenario_image]).
    + vm_compute. reflexivity.
    + vm_compute. reflexivity.
    + intros img _ _. reflexivity.
Defined.

(** *** The changes log *)

Lemma figures_log_length (images_data : list image_info) :
  forall n, length (figures_log n images_data) = length images_data.
Proof. induction images_data as [|img rest IH]; intros n; simpl; [|rewrite IH]; reflexivity. Qed.

Lemma renderable_without_front_matter (parsed : parsed_content) :
  renderable parsed = true -> renderable (without_front_matter parsed) = true.
Proof.
  unfold renderable, without_front_matter. cbn [title authors abstract abs_text keywords
    sections references forallb xml_compatible]. intros H.
  apply andb_prop in H as [H Hrefs]. apply andb_prop in H as [H Hsec].
  apply andb_prop in H as [H _]. apply andb_prop in H as [H _].
  apply andb_prop in H as [Ht _].
  unfold xml_compatible in *. now rewrite Ht, Hsec, Hrefs.
Qed.

(** C9, the claim as stated, fails: rendering a section formats a heading
    and a body paragraph and appends no entry to the log; the log of the
    pass is the log of a pass over an empty document. *)
Lemma sections_leave_no_log_entry :
  exists st d st0,
    App.process_document no_file every_picture section_only [] = Some st
    /\ document st = Some d
    /\ map docx_text (paragraphs d) = [lit "Introduction"; lit "Text."]
    /\ App.process_document no_file every_picture nothing_parsed [] = Some st0
    /\ changes_log st = changes_log st0
    /\ changes_log st = [lit "Page margins set to 2.5cm all sides"].
Proof.
  rewrite (@process_document_renderable no_file every_picture section_only [] eq_refl eq_refl)
    by (intros ? []).
  rewrite (@process_document_renderable no_file every_picture nothing_parsed [] eq_refl eq_refl)
    by (intros ? []).
  do 3 eexists. split; [reflexivity|]. split; [reflexivity|].
  split; [vm_compute; reflexivity|]. split; [reflexivity|].
  split; reflexivity.
Qed.

(** C9, amended. When [add_run] takes every text of the parsed content and
    every caption (no control character other than tab, line feed and
    carriage return, no surrogate, neither U+FFFE nor U+FFFF), and every
    image file that exists is readable as a picture, a render pass
    returns, and its log holds the entry of the page layout, then one entry
    for each of title, authors, abstract, keywords and references that is
    not empty, then one entry per figure; the headings and body paragraphs
    of the sections leave no entry. A field whose input is empty leaves no
    entry, so the logs of two passes whose inputs differ only in that
    authors, abstract and keywords are empty differ only by the absence of
    those entries. *)
Theorem changes_log_of_pass (path_exists : str -> bool)
  (picture_accepted : str -> QArith_base.Q -> bool)
  (parsed : parsed_content) (images_data : list image_info) :
  renderable parsed = true ->
  captions_compatible images_data = true ->
  (forall img, In img images_data ->
               path_exists (img_path img) = true ->
               picture_accepted (img_path img) (img_width img) = true) ->
  exists st,
    App.process_document path_exists picture_accepted parsed images_data = Some st
    /\ changes_log st =
       margins_entry
       :: title_log parsed ++ authors_log parsed ++ abstract_log parsed
          ++ keywords_log parsed ++ references_log parsed
          ++ figures_log 0 images_data
    /\ length (title_log parsed) = (if truthy (title parsed) then 1 else 0)
    /\ length (authors_log parsed) = (match authors parsed with [] => 0 | _ => 1 end)
    /\ length (abstract_log parsed) = (if truthy (abs_text (abstract parsed)) then 1 else 0)
    /\ length (keywords_log parsed) = (match keywords parsed with [] => 0 | _ => 1 end)
    /\ length (references_log parsed) = (match references parsed with [] => 0 | _ => 1 end)
    /\ length (figures_log 0 images_data) = length images_data
    /\ exists st',
         App.process_document path_exists picture_accepted
           (without_front_matter parsed) images_data = Some st'
         /\ changes_log st' =
            margins_entry
            :: title_log parsed ++ references_log parsed ++ figures_log 0 images_data.
Proof.
  intros Hp Hc Hr.
  rewrite (@process_document_renderable path_exists picture_accepted parsed images_data
             Hp Hc Hr).
  rewrite (@process_document_renderable path_exists picture_accepted
             (without_front_matter parsed) images_data
             (@renderable_without_front_matter parsed Hp) Hc Hr).
  eexists. split; [reflexivity|]. cbn [changes_log]. split.
  - unfold styled_log. now rewrite <- !app_assoc.
  - repeat split.
    + unfold title_log. now destruct (truthy (title parsed)).
    + unfold authors_log. now destruct (authors parsed).
    + unfold abstract_log. now destruct (truthy (abs_text (abstract parsed))).
    + unfold keywords_log. now destruct (keywords parsed).
    + unfold references_log. now destruct (references parsed).
    + apply figures_log_length.
    + eexists. split; [reflexivity|]. cbn [changes_log].
      unfold styled_log, authors_log, abstract_log, keywords_log, without_front_matter.
      cbn [authors abstract keywords abs_text truthy app].
      unfold title_log, references_log. cbn [title references].
      now rewrite <- app_assoc.
Qed.

Lemma changes_log_of_pass_witness :
  renderable scenario_parsed = true
  /\ captions_compatible [scenario_image] = true
  /\ (forall img, In img [scenario_image] ->
                  every_file (img_path img) = true ->
                  every_picture (img_path img) (img_width img) = true)
  /\ exists st,
      App.process_document every_file every_picture scenario_parsed [scenario_image] = Some st
      /\ changes_log st =
         margins_entry
         :: title_log scenario_parsed ++ authors_log scenario_parsed
            ++ abstract_log scenario_parsed ++ keywords_log scenario_parsed
            ++ references_log scenario_parsed ++ figures_log 0 [scenario_image]
      /\ length (title_log scenario_parsed) = (if truthy (title scenario_parsed) then 1 else 0)
      /\ length (authors_log scenario_parsed)
         = (match authors scenario_parsed with [] => 0 | _ => 1 end)
      /\ length (abstract_log scenario_parsed)
         = (if truthy (abs_text (abstract scenario_parsed)) then 1 else 0)
      /\ length (keywords_log scenario_parsed)
         = (match keywords scenario_parsed with [] => 0 | _ => 1 end)
      /\ length (references_log scenario_parsed)
         = (match references scenario_parsed with [] => 0 | _ => 1 end)
      /\ length (figures_log 0 [scenario_image]) = length [scenario_image]
      /\ exists st',
           App.process_document every_file every_picture
             (without_front_matter scenario_parsed) [scenario_image] = Some st'
           /\ changes_log st' =
              margins_entry
              :: title_log scenario_parsed ++ references_log scenario_parsed
                 ++ figures_log 0 [scenario_image].
Proof.
  split; [vm_compute; reflexivity|]. split; [vm_compute; reflexivity|]. split.
  - intros img _ _. reflexivity.
  - apply (@changes_log_of_pass every_file every_picture scenario_parsed [scenario_image]).
    + vm_compute. reflexivity.
    + vm_compute. reflexivity.
    + intros img _ _. reflexivity.
Defined.

(** *** Heading levels *)

(** C3, the claim as stated, fails: a section of type acknowledgments, one
    of the canonical types, is rendered at level 2. *)
Lemma acknowledgments_heading_level :
  In "acknowledgments"%string (map fst SECTION_PATTERNS)
  /\ _get_heading_level "acknowledgments" = 2
  /\ _get_heading_level "acknowledgments" <> 1.
Proof. split; [simpl; tauto|]. split; [reflexivity | discriminate]. Qed.

(** C3, amended. The renderer assigns heading level 1 to the section types
    introduction, related_work, methodology, results, discussion,
    conclusion and references and to numbered_section, and level 2 to any
    other type, acknowledgments included. *)
Theorem heading_level_by_type (section_type : string) :
  (In section_type (level_1_sections ++ ["numbered_section"%string]) ->
   _get_heading_level section_type = 1)
  /\ (~ In section_type (level_1_sections ++ ["numbered_section"%string]) ->
      _get_heading_level section_type = 2)
  /\ level_1_sections ++ ["numbered_section"%string] =
     ["introduction"; "related_work"; "methodology"; "results"; "discussion";
      "conclusion"; "references"; "numbered_section"]%string
  /\ _get_heading_level "acknowledgments" = 2.
Proof.
  assert (E : _get_heading_level section_type =
              if existsb (String.eqb section_type)
                         (level_1_sections ++ ["numbered_section"%string])
              then 1 else 2).
  { unfold _get_heading_level. rewrite existsb_app.
    destruct (existsb (String.eqb section_type) level_1_sections); [reflexivity|].
    cbn [existsb orb]. rewrite orb_false_r.
    destruct (String.eqb section_type "numbered_section"); reflexivity. }
  split; [|split; [|split; reflexivity]].
  - intros H. rewrite E.
    replace (existsb _ _) with true; [reflexivity|].
    symmetry. apply existsb_exists. exists section_type.
    split; [assumption | apply String.eqb_refl].
  - intros H. rewrite E.
    destruct (existsb _ _) eqn:X; [|reflexivity].
    apply existsb_exists in X as [t [Ht Heq]].
    apply String.eqb_eq in Heq. subst t. contradiction.
Qed.

(** *** Reference numbering *)

(** C4. A source reference that begins with a bracketed number and a blank
    keeps that number after rendering: the pattern of [add_references]
    removes a number only when a period or a closing parenthesis follows
    it, so the entry carries the new number and the old one. The new labels
    are "[i] " for i = 1, 2, ... in order, and references that begin with a
    number and a period, or a number and a parenthesis, are rendered with
    the new number only. *)
Theorem add_references_keeps_bracketed_number :
  map run_text (runs (reference_paragraph 1 (lit "[1] Smith 2020")))
  = [lit "[1] "; lit "[1] Smith 2020"]
  /\ (forall refs i,
        map (fun p => hd [] (map run_text (runs p))) (reference_entries i refs)
        = map (fun k => lit "[" ++ str_of_nat k ++ lit "] ") (seq i (length refs)))
  /\ (exists st d,
        add_references [lit "[1] Smith 2020"; lit "2. Jones 2021"; lit "3) Lee 2022"]
          {| document := Some styled_document; figure_counter := 0;
             table_counter := 0; changes_log := [] |} = Some st
        /\ document st = Some d
        /\ map paragraph_text (paragraphs d) =
           [lit "References"; lit "[1] [1] Smith 2020"; lit "[2] Jones 2021";
            lit "[3] Lee 2022"]).
Proof.
  split; [vm_compute; reflexivity|]. split.
  - intros refs. induction refs as [|ref rest IH]; intros i; [reflexivity|].
    cbn [reference_entries map length seq]. rewrite IH. reflexivity.
  - eexists. eexists. split; [vm_compute; reflexivity|].
    split; [reflexivity|]. vm_compute. reflexivity.
Qed.

(** *** A figure whose file is missing *)



End RendererClaims.

(** ** Figure numbers of the processed images *)

Section ImageFacts.

Variable width_cm : Type.
Variable path_exists : str -> bool.
Variable base_name : str -> str.
Variable path_join : str -> str -> str.
Variable pil : str -> width_cm -> str -> pil_outcome.
Variable target_width_cm : width_cm.

Lemma process_image_cases (image_path : str) (self : processor) :
  let r := fst (process_image path_exists base_name path_join pil image_path
                              target_width_cm self) in
  let self' := snd (process_image path_exists base_name path_join pil image_path
                                  target_width_cm self) in
  result_of image_path r
  /\ ((number_of r = None /\ processed_images self' = processed_images self)
      \/ (number_of r = Some (length (processed_images self) + 1)
          /\ length (processed_images self') = length (processed_images self) + 1)).
Proof.
  unfold process_image. destruct (path_exists image_path); simpl.
  - destruct (outcome (pil image_path target_width_cm _)); simpl.
    + split; [exact I | left; split; reflexivity].
    + split; [reflexivity|]. right. split; [reflexivity|].
      rewrite length_app. reflexivity.
  - split; [exact I | left; split; reflexivity].
Qed.

Lemma process_image_list_numbers (image_paths : list str) :
  forall self,
    let results := fst (process_image_list path_exists base_name path_join pil
                                           image_paths target_width_cm self) in
    success_numbers results =
      seq (length (processed_images self) + 1) (length (success_numbers results))
    /\ Forall2 result_of image_paths results.
Proof.
  induction image_paths as [|image_path rest IH]; intros self; simpl.
  - split; constructor.
  - pose proof (process_image_cases image_path self) as H. simpl in H.
    destruct (process_image path_exists base_name path_join pil image_path
                            target_width_cm self) as [r self1].
    simpl in H. destruct H as [Hof H].
    specialize (IH self1). simpl in IH.
    destruct (process_image_list path_exists base_name path_join pil rest
                                 target_width_cm self1) as [results self2].
    simpl in *. destruct IH as [IH HF2]. split; [|constructor; assumption].
    destruct r as [e|i]; simpl in *.
    + destruct H as [[_ Hp]|[Hn _]]; [|discriminate].
      rewrite IH at 1. now rewrite Hp.
    + destruct H as [[Hn _]|[Hn Hl]]; [discriminate|].
      injection Hn as Hn. rewrite Hn. f_equal.
      rewrite IH at 1. rewrite Hl. f_equal. lia.
Qed.

Lemma process_image_success (image_path : str) (self : processor) :
  succeeds path_exists pil target_width_cm image_path ->
  number_of (fst (process_image path_exists base_name path_join pil image_path
                                target_width_cm self))
    = Some (length (processed_images self) + 1)
  /\ length (processed_images
               (snd (process_image path_exists base_name path_join pil image_path
                                   target_width_cm self)))
     = length (processed_images self) + 1.
Proof.
  intros [He Hp]. unfold process_image. rewrite He. cbn [negb]. cbv zeta.
  match goal with
  | |- context [outcome (pil image_path target_width_cm ?o)] =>
      destruct (Hp o) as [facts ->]
  end.
  cbn [fst snd number_of figure_number processed_images]. rewrite length_app.
  split; reflexivity.
Qed.

Lemma process_image_failure (image_path : str) (self : processor) :
  fails path_exists pil target_width_cm image_path ->
  number_of (fst (process_image path_exists base_name path_join pil image_path
                                target_width_cm self)) = None
  /\ processed_images (snd (process_image path_exists base_name path_join pil image_path
                                          target_width_cm self))
     = processed_images self.
Proof.
  intros [He|Hp]; unfold process_image.
  - rewrite He. split; reflexivity.
  - destruct (path_exists image_path); cbn [negb]; [|split; reflexivity].
    cbv zeta.
    match goal with
    | |- context [outcome (pil image_path target_width_cm ?o)] =>
        destruct (Hp o) as [e ->]
    end.
    split; reflexivity.
Qed.

(** C5. On a fresh processor the successfully processed images of a list
    get the figure numbers 1, 2, ... in input order, each result belonging
    to the path at its position; a failed image takes no number: when a
    failing input stands between two succeeding ones, the successes are
    numbered 1 and 2. *)
Theorem figure_numbers_sequential (image_paths : list str) (dir : str) :
  let results := fst (process_image_list path_exists base_name path_join pil
                                         image_paths target_width_cm (new_processor dir)) in
  success_numbers results = seq 1 (length (success_numbers results))
  /\ Forall2 result_of image_paths results
  /\ (forall a b c,
        succeeds path_exists pil target_width_cm a ->
        fails path_exists pil target_width_cm b ->
        succeeds path_exists pil target_width_cm c ->
        map number_of
            (fst (process_image_list path_exists base_name path_join pil
                                     [a; b; c] target_width_cm (new_processor dir)))
        = [Some 1; None; Some 2]).
Proof.
  cbv zeta. split; [|split].
  - apply (process_image_list_numbers image_paths (new_processor dir)).
  - apply (process_image_list_numbers image_paths (new_processor dir)).
  - intros a b c Ha Hb Hc. cbn [process_image_list].
    pose proof (process_image_success (new_processor dir) Ha) as [Na La].
    destruct (process_image path_exists base_name path_join pil a target_width_cm
                            (new_processor dir)) as [ra s1].
    cbn [fst snd] in *.
    pose proof (process_image_failure s1 Hb) as [Nb Lb].
    destruct (process_image path_exists base_name path_join pil b target_width_cm s1)
      as [rb s2].
    cbn [fst snd] in *.
    pose proof (process_image_success s2 Hc) as [Nc Lc].
    destruct (process_image path_exists base_name path_join pil c target_width_cm s2)
      as [rc s3].
    cbn [fst snd map] in *. rewrite Na, Nb, Nc, Lb, La. reflexivity.
Qed.

End ImageFacts.

Lemma figure_numbers_sequential_witness :
  map number_of
      (fst (process_image_list all_but_b (fun p => p) (fun d f => d ++ f) always_saved
              [lit "a.png"; lit "b.png"; lit "c.png"] 12 (new_processor (lit "out/"))))
  = [Some 1; None; Some 2].
Proof.
  apply (@figure_numbers_sequential nat all_but_b (fun p => p) (fun d f => d ++ f)
           always_saved 12 [] (lit "out/")).
  - split; [reflexivity|]. intros out. eexists. reflexivity.
  - left. reflexivity.
  - split; [reflexivity|]. intros out. eexists. reflexivity.
Defined.

(** ** Keywords: from the rendered line back to the list *)

Section KeywordLineFacts.

Lemma star_bt_stop (A : Type) (p : char -> bool) (c : char) (t : str)
  (k : str -> option A) :
  p c = false -> star_bt p (c :: t) k = k (c :: t).
Proof. intros H. simpl. now rewrite H. Qed.

Lemma star_bt_all (A : Type) (p : char -> bool) (t : str) (k : str -> option A) (x : A) :
  forallb p t = true -> k [] = Some x -> star_bt p t k = Some x.
Proof.
  intros Ht Hk. induction t as [|c t IH]; simpl in *; [assumption|].
  apply andb_prop in Ht as [Hc Ht]. now rewrite Hc, (IH Ht).
Qed.

(** On the lead-in of the rendered line every greedy choice of the prefix
    pattern succeeds at once. *)
Lemma keywords_prefix_greedy (A : Type) (c : char) (t : str) (k : str -> option A) (x : A) :
  isspace c = false -> k (c :: t) = Some x ->
  bt pat_keywords_prefix (lit "Keywords: " ++ c :: t) k = Some x.
Proof.
  intros Hc Hk. pose proof (@star_bt_stop A isspace c t k Hc) as Hs.
  set (tail := c :: t) in *. clearbody tail.
  cbn. rewrite Hs, Hk. reflexivity.
Qed.

Lemma keywords_line_group (c : char) (t : str) :
  isspace c = false -> forallb is_dot (c :: t) = true ->
  re_match_group pat_keywords_prefix pat_keywords_group (lit "Keywords: " ++ c :: t)
  = Some (c :: t).
Proof.
  intros Hc Hd. unfold re_match_group. apply keywords_prefix_greedy; [assumption|].
  simpl in Hd. apply andb_prop in Hd as [Hdc Hdt].
  unfold pat_keywords_group. cbn [bt]. rewrite Hdc.
  apply (@star_bt_all _ is_dot t); [assumption|].
  cbn [bt at_end]. change (length (@nil char)) with 0.
  now rewrite Nat.sub_0_r, firstn_all.
Qed.

Lemma join_all (p : char -> bool) (sep : str) (l : list str) :
  forallb p sep = true -> Forall (fun t => forallb p t = true) l ->
  forallb p (join sep l) = true.
Proof.
  intros Hs H. induction H as [|t rest Ht Hrest IH]; [reflexivity|].
  simpl. destruct rest; [assumption|].
  rewrite !forallb_app, Ht, Hs. exact IH.
Qed.

(** X1. The keyword line the renderer writes, "Keywords: " followed by the
    keywords joined by the middle-dot separator, is parsed back by
    [extract_keywords] into the keyword list it was written from, for a
    non-empty list of keywords without line feeds. *)
Lemma extract_keywords_of_rendered_line (tokens : list str) :
  tokens <> [] ->
  Forall keyword_token tokens ->
  Forall (fun t => forallb is_dot t = true) tokens ->
  extract_keywords [paragraph_text (keywords_paragraph tokens)] = tokens.
Proof.
  intros Hne Htok Hdot.
  assert (Hj : exists c t, join keyword_separator tokens = c :: t /\ isspace c = false).
  { destruct tokens as [|t0 rest]; [congruence|].
    inversion Htok as [|? ? [Hn [Hs _]] _]; subst.
    destruct (strip_fixed Hs) as [Hl _].
    destruct t0 as [|c t0]; [congruence|]. simpl in Hl.
    destruct (isspace c) eqn:E.
    - pose proof (lstrip_length t0) as L.
      apply (f_equal (@length _)) in Hl. simpl in Hl. lia.
    - simpl. destruct rest; eauto. }
  destruct Hj as [c [t [Hj Hc]]].
  assert (Hd : forallb is_dot (join keyword_separator tokens) = true)
    by (apply join_all; [reflexivity | assumption]).
  unfold paragraph_text, keywords_paragraph. cbn [runs map run_text content text_run concat].
  rewrite app_nil_r. cbn [extract_keywords].
  rewrite Hj in *. rewrite keywords_line_group by assumption.
  rewrite <- Hj. apply (@split_keywords_padded [] tokens Htok). now left.
Qed.

Lemma extract_keywords_of_rendered_line_witness :
  extract_keywords
    [paragraph_text (keywords_paragraph [lit "ml"; lit "deep learning"; lit "nlp"])]
  = [lit "ml"; lit "deep learning"; lit "nlp"].
Proof.
  apply extract_keywords_of_rendered_line.
  - discriminate.
  - repeat constructor; discriminate.
  - repeat constructor.
Defined.

End KeywordLineFacts.

(** ** The patterns on concrete paragraphs *)

Section PatternExamples.

Example section_types_of_headings :
  map _get_section_type
      (map lit ["1. Introduction"; "Introduction"; "2. Introduction"; "7. References";
                "REFERENCES "; "Experimental Results"; "3 Proposed  approach";
                "Acknowledgements"; "acknowledgment"; "4.Results"; "text here";
                "2.1 Foo"; "Future work"; "methods"]%string)
  = [Some "introduction"; Some "introduction"; Some "numbered_section";
     Some "numbered_section"; Some "references"; Some "results"; Some "methodology";
     Some "acknowledgments"; Some "acknowledgments"; Some "results"; None; None;
     Some "conclusion"; Some "methodology"]%string.
Proof. vm_compute. reflexivity. Qed.

(** Code points outside ASCII that IGNORECASE lets match: a long s, a
    dotless i; and a line feed inside and after a heading. *)
Example section_types_of_unusual_headings :
  map _get_section_type
      [lit "reference" ++ [383%N];
       [305%N] ++ lit "ntroduct" ++ [305%N] ++ lit "on";
       lit "1." ++ [10%N] ++ lit "Introduction";
       lit "introduction" ++ [10%N; 10%N]]
  = [Some "references"; Some "introduction"; Some "introduction";
     Some "introduction"]%string.
Proof. vm_compute. reflexivity. Qed.

Example reference_numbers_removed :
  map (re_sub_prefix pat_reference_number)
      (map lit ["[1] Smith 2020"; "1. Smith"; "1) Smith"; "[1]. Smith"; "[12]) x";
                " [3.x"; "1 Smith"; "(1) Smith"; "[1]Smith"]%string)
  = map lit ["[1] Smith 2020"; "Smith"; "Smith"; "Smith"; "x"; "x"; "1 Smith";
             "(1) Smith"; "[1]Smith"]%string.
Proof. vm_compute. reflexivity. Qed.

Example heading_numbers_removed :
  map (re_sub_prefix pat_heading_number)
      (map lit ["1. Introduction"; "2.1 Background"; "3 Foo"; " 12.  X"; "1.2.3 A"]%string)
  = map lit ["Introduction"; "1 Background"; "Foo"; "X"; "2.3 A"]%string.
Proof. vm_compute. reflexivity. Qed.

Example keywords_of_paragraphs :
  extract_keywords (map lit ["A"; "Keywords: ml, nlp ; a b"; "Keywords: x"]%string)
    = map lit ["ml"; "nlp"; "a b"]%string
  /\ extract_keywords [lit "keywords"] = [lit "s"].
Proof. split; vm_compute; reflexivity. Qed.

(** The scenario of the specification. *)
Example scenario_parse :
  map (fun s => (sec_type s, sec_title s, sec_content s, start_index s))
      (detect_sections scenario_paragraphs)
    = [("introduction"%string, lit "1. Introduction", lit "Text.", 4);
       ("references"%string, lit "References", lit "[1] Smith 2020", 6)]
  /\ extract_references scenario_paragraphs = [lit "[1] Smith 2020"]
  /\ extract_keywords scenario_paragraphs = [lit "ml"; lit "nlp"]
  /\ abs_text (extract_abstract scenario_paragraphs) = lit "This work presents...".
Proof. repeat split; vm_compute; reflexivity. Qed.

End PatternExamples.

(** ** The theorems at concrete inputs *)

Section Witnesses.

Lemma extract_abstract_word_count_witness :
  word_count (extract_abstract scenario_paragraphs)
    = length (split_ws (lit "This work presents..."))
  /\ is_valid (extract_abstract scenario_paragraphs) = false
  /\ word_count (extract_abstract [lit "A Study of X"; lit "1. Introduction"]) = 0.
Proof.
  destruct (extract_abstract_word_count scenario_paragraphs) as [H1 _].
  destruct (extract_abstract_word_count [lit "A Study of X"; lit "1. Introduction"])
    as [_ [_ H3]].
  split; [rewrite H1; vm_compute; reflexivity|].
  split; [vm_compute; reflexivity|].
  apply H3. vm_compute. reflexivity.
Defined.

Lemma heading_level_by_type_witness :
  _get_heading_level "results" = 1 /\ _get_heading_level "appendix" = 2.
Proof.
  split.
  - apply (proj1 (heading_level_by_type "results")). simpl. tauto.
  - apply (proj1 (proj2 (heading_level_by_type "appendix"))). simpl.
    intros H. repeat (destruct H as [H|H]; [discriminate H|]). exact H.
Defined.

Lemma section_patterns_leading_number_witness :
  (exists k, In ("results"%string, k) own_number /\ N_of_ascii "4" = N_of_ascii k
             /\ forall d2 rest2, lit ". Results" = d2 :: rest2 -> is_digit d2 = false)
  /\ matches pat_results (lit "4. Experiments") = true
  /\ references_heading (lit "  REFERENCE") = true
  /\ extract_references (map lit ["Intro"; "References"; "[1] A"; "Reference"; "[2] B"]%string)
     = map lit ["[1] A"; "[2] B"]%string.
Proof.
  destruct section_patterns_leading_number as [H1 [H2 [H3 H4]]].
  split; [|split; [|split]].
  - apply (H1 "results"%string pat_results [] (N_of_ascii "4") (lit ". Results")).
    + simpl. tauto.
    + reflexivity.
    + reflexivity.
    + vm_compute. reflexivity.
  - apply (H2 "results"%string "4"%char pat_results (N_of_ascii "E") (lit "xperiments")).
    + simpl. tauto.
    + simpl. tauto.
    + reflexivity.
    + reflexivity.
    + vm_compute. reflexivity.
  - apply (H3 (lit "  ") (lit "REFERENCE") []); [reflexivity | reflexivity |].
    right. reflexivity.
  - apply (H4 [lit "Intro"] (lit "References") (map lit ["[1] A"; "Reference"; "[2] B"]%string)).
    + reflexivity.
    + vm_compute. reflexivity.
Defined.

End Witnesses.

(** ** Loading a text *)

Section LoadFacts.

Lemma lstrip_idem (s : str) : lstrip (lstrip s) = lstrip s.
Proof.
  induction s as [|c s IH]; simpl; [reflexivity|].
  destruct (isspace c) eqn:E; [exact IH|]. simpl. now rewrite E.
Qed.

Lemma lstrip_snoc (s : str) (c : char) :
  isspace c = false -> lstrip (s ++ [c]) = lstrip s ++ [c].
Proof.
  intros Hc. induction s as [|x s IH]; simpl.
  - now rewrite Hc.
  - destruct (isspace x); [exact IH | reflexivity].
Qed.

Lemma rstrip_cons (c : char) (s : str) :
  isspace c = false -> rstrip (c :: s) = c :: rstrip s.
Proof.
  intros Hc. unfold rstrip. simpl. rewrite lstrip_snoc by assumption.
  rewrite rev_app_distr. reflexivity.
Qed.

Lemma rstrip_idem (s : str) : rstrip (rstrip s) = rstrip s.
Proof. unfold rstrip. now rewrite rev_involutive, lstrip_idem. Qed.

(** The first character of a text stripped on the left is no whitespace. *)
Lemma lstrip_head (s : str) (c : char) (t : str) :
  lstrip s = c :: t -> isspace c = false.
Proof.
  induction s as [|x s IH]; simpl; [discriminate|].
  destruct (isspace x) eqn:E; [exact IH|]. intros H. injection H as <- _. exact E.
Qed.

Lemma strip_idem (s : str) : strip (strip s) = strip s.
Proof.
  unfold strip.
  assert (L : lstrip (rstrip (lstrip s)) = rstrip (lstrip s)).
  { destruct (lstrip s) as [|c t] eqn:E; [reflexivity|].
    pose proof (lstrip_head s E) as Hc.
    rewrite rstrip_cons by assumption. simpl. now rewrite Hc. }
  rewrite L. apply rstrip_idem.
Qed.



(** Joining by a delimiter and splitting on it gives the pieces back. *)
Lemma split_on_join (d : char -> bool) (c : char) (l : list str) :
  d c = true -> l <> [] ->
  Forall (fun piece => forallb (fun x => negb (d x)) piece = true) l ->
  split_on d (join [c] l) = l.
Proof.
  intros E Hne H. induction H as [|piece rest Hp Hrest IH]; [now destruct Hne|].
  destruct rest as [|next rest].
  - simpl. rewrite <- (app_nil_r piece) at 1.
    rewrite split_on_prefix by assumption. simpl. now rewrite app_nil_r.
  - change (join [c] (piece :: next :: rest))
      with (piece ++ [c] ++ join [c] (next :: rest)).
    rewrite split_on_prefix by assumption.
    cbn [app split_on]. rewrite E.
    cbn [hd tl]. rewrite app_nil_r. f_equal. apply IH. discriminate.
Qed.

Lemma one_line_spec (p : str) :
  one_line p = forallb (fun x => negb (char_eqb newline x)) p.
Proof.
  unfold one_line. induction p as [|c p IH]; simpl; [reflexivity|].
  rewrite IH. unfold is_dot, char_eqb. now rewrite N.eqb_sym.
Qed.

Lemma clean_truthy (p : str) : clean_paragraph p -> truthy (strip p) = true.
Proof. intros [Hne [Hs _]]. rewrite Hs. destruct p; [congruence | reflexivity]. Qed.

(** The list comprehension of the loaders keeps clean paragraphs as they
    are. *)
Lemma keep_clean (ps : list str) :
  Forall clean_paragraph ps ->
  map strip (filter (fun p => truthy (strip p)) ps) = ps.
Proof.
  induction 1 as [|p ps Hp Hps IH]; simpl; [reflexivity|].
  rewrite (clean_truthy Hp). simpl. destruct Hp as [_ [-> _]]. now rewrite IH.
Qed.

(** And it makes clean paragraphs of lines. *)
Lemma lines_clean (l : list str) :
  Forall (fun piece => one_line piece = true) l ->
  Forall clean_paragraph (map strip (filter (fun p => truthy (strip p)) l)).
Proof.
  induction 1 as [|p l Hp Hl IH]; simpl; [constructor|].
  destruct (truthy (strip p)) eqn:E; [|exact IH].
  simpl. constructor; [|exact IH]. split; [|split].
  - destruct (strip p); [discriminate | discriminate].
  - apply strip_idem.
  - now apply forallb_strip.
Qed.

Lemma lines_one_line (text : str) :
  Forall (fun piece => one_line piece = true) (split_on (char_eqb newline) text).
Proof.
  eapply Forall_impl; [|apply split_on_pieces].
  intros piece H. now rewrite one_line_spec.
Qed.

Lemma loaded_clean (text : str) :
  Forall clean_paragraph (parser_paragraphs (snd (load_from_text text))).
Proof. apply lines_clean, lines_one_line. Qed.

(** X2. Whatever the text, every paragraph [load_from_text] stores is not
    empty, is trimmed (stripping it changes nothing) and holds no line
    feed. *)
Theorem load_from_text_paragraphs (text : str) :
  Forall clean_paragraph (parser_paragraphs (snd (load_from_text text))).
Proof. apply loaded_clean. Qed.

Lemma load_joined (ps : list str) :
  Forall clean_paragraph ps ->
  parser_paragraphs (snd (load_from_text (join nl ps))) = ps.
Proof.
  intros H. cbn [load_from_text snd parser_paragraphs].
  destruct ps as [|p ps]; [reflexivity|].
  unfold nl. rewrite split_on_join.
  - now apply keep_clean.
  - apply N.eqb_refl.
  - discriminate.
  - eapply Forall_impl; [|exact H]. intros q [_ [_ Hq]].
    now rewrite <- one_line_spec.
Qed.

(** X3. Paragraphs that are not empty, trimmed and free of line feeds are
    loaded back unchanged from their join by line feeds, the text
    [load_document] keeps as [text_content]. *)
Theorem load_from_text_of_joined (ps : list str) :
  Forall clean_paragraph ps ->
  parser_paragraphs (snd (load_from_text (join nl ps))) = ps.
Proof. apply load_joined. Qed.

Lemma load_from_text_of_joined_witness :
  parser_paragraphs (snd (load_from_text (join nl scenario_paragraphs)))
  = scenario_paragraphs.
Proof.
  apply load_from_text_of_joined.
  repeat constructor; try discriminate; vm_compute; reflexivity.
Defined.

End LoadFacts.

(** ** The statistics of a text *)

Section StatsFacts.

Lemma push_app (cur : str) (done more : list str) :
  push cur (done ++ more) = push cur done ++ more.
Proof. destruct cur; reflexivity. Qed.

Lemma split_ws_scan (s : str) :
  split_ws s = push (fst (split_scan s)) (snd (split_scan s)).
Proof. unfold split_ws. now destruct (split_scan s). Qed.

(** The words of a text, line by line: the scan of the text is the scan of
    its first line, followed by the words of the other lines. *)
Lemma split_scan_lines (s : str) :
  split_scan s =
  (fst (split_scan (hd [] (split_on (char_eqb newline) s))),
   snd (split_scan (hd [] (split_on (char_eqb newline) s)))
   ++ flat_map split_ws (tl (split_on (char_eqb newline) s))).
Proof.
  induction s as [|c s IH]; [reflexivity|].
  cbn [split_scan split_on]. rewrite IH.
  pose proof (split_on_nonempty (char_eqb newline) s) as Hne.
  destruct (split_on (char_eqb newline) s) as [|piece rest]; [congruence|].
  cbn [hd tl].
  destruct (char_eqb newline c) eqn:E.
  - assert (Hc : isspace c = true).
    { apply N.eqb_eq in E. subst c. reflexivity. }
    rewrite Hc. cbn [hd tl flat_map split_scan fst snd app].
    f_equal. rewrite split_ws_scan. apply push_app.
  - cbn [hd tl split_scan]. destruct (split_scan piece) as [cur done].
    cbn [fst snd]. destruct (isspace c); cbn [fst snd]; [|reflexivity].
    f_equal. apply push_app.
Qed.

Lemma split_ws_lines (s : str) :
  split_ws s = flat_map split_ws (split_on (char_eqb newline) s).
Proof.
  rewrite split_ws_scan, split_scan_lines.
  pose proof (split_on_nonempty (char_eqb newline) s) as Hne.
  destruct (split_on (char_eqb newline) s) as [|piece rest]; [congruence|].
  cbn [hd tl flat_map fst snd]. rewrite (split_ws_scan piece). apply push_app.
Qed.

(** A text without a word is whitespace. *)
Lemma split_ws_nil (s : str) : split_ws s = [] -> forallb isspace s = true.
Proof.
  induction s as [|c s IH]; [reflexivity|].
  unfold split_ws in *. cbn [split_scan forallb].
  destruct (split_scan s) as [cur done].
  destruct (isspace c); cbn; [exact IH | discriminate].
Qed.

Lemma split_ws_blank (s : str) : strip s = [] -> split_ws s = [].
Proof. intros H. now rewrite <- split_ws_strip, H. Qed.

(** Blank lines hold no word, and stripping a line keeps its words. *)
Lemma words_of_lines (l : list str) :
  flat_map split_ws (map strip (filter (fun p => truthy (strip p)) l))
  = flat_map split_ws l.
Proof.
  induction l as [|p l IH]; [reflexivity|].
  cbn [filter flat_map]. destruct (strip p) eqn:E.
  - cbn [truthy]. rewrite IH, (split_ws_blank _ E). reflexivity.
  - cbn [truthy map flat_map]. rewrite IH, split_ws_strip. reflexivity.
Qed.

Lemma clean_has_word (p : str) : clean_paragraph p -> 1 <= length (split_ws p).
Proof.
  intros [Hne [Hs _]]. destruct (split_ws p) eqn:E; [|simpl; lia].
  apply split_ws_nil, strip_spaces in E. congruence.
Qed.

Lemma flat_map_length_ge (A B : Type) (f : A -> list B) (l : list A) :
  Forall (fun x => 1 <= length (f x)) l -> length l <= length (flat_map f l).
Proof.
  induction 1 as [|x l Hx Hl IH]; simpl; [lia|]. rewrite length_app. lia.
Qed.

Lemma words_of_text (text : str) :
  split_ws text = flat_map split_ws (parser_paragraphs (snd (load_from_text text))).
Proof.
  cbn [load_from_text snd parser_paragraphs].
  now rewrite words_of_lines, <- split_ws_lines.
Qed.

(** X4. For a loaded text the words [get_document_stats] counts are the
    words of the stored paragraphs, in order; there are at least as many
    words as paragraphs, and the character count is the length of the
    text. *)
Theorem document_stats_of_text (text : str) :
  let parser := snd (load_from_text text) in
  let stats := get_document_stats parser in
  split_ws text = flat_map split_ws (parser_paragraphs parser)
  /\ stats_word_count stats = length (flat_map split_ws (parser_paragraphs parser))
  /\ paragraph_count stats <= stats_word_count stats
  /\ character_count stats = length text.
Proof.
  cbv zeta. cbn [load_from_text snd get_document_stats text_content parser_paragraphs
                 stats_word_count paragraph_count character_count].
  pose proof (words_of_text text) as W. cbn [load_from_text snd parser_paragraphs] in W.
  split; [exact W|]. split; [now rewrite W|]. split; [|reflexivity].
  rewrite W. apply flat_map_length_ge.
  eapply Forall_impl; [|apply (loaded_clean text)].
  intros p. apply clean_has_word.
Qed.

End StatsFacts.

(** ** The title *)

Section TitleFacts.

Lemma split_ws_spaces (w : str) : forallb isspace w = true -> split_ws w = [].
Proof. intros H. rewrite split_ws_scan, (split_scan_spaces _ H). reflexivity. Qed.

(** A text has no paragraph exactly when it is blank. *)
Lemma no_paragraph_iff_blank (text : str) :
  parser_paragraphs (snd (load_from_text text)) = [] <-> forallb isspace text = true.
Proof.
  pose proof (words_of_text text) as W.
  pose proof (loaded_clean text) as C.
  split; intros H.
  - rewrite H in W. simpl in W. now apply split_ws_nil.
  - rewrite (split_ws_spaces _ H) in W.
    destruct (parser_paragraphs (snd (load_from_text text))) as [|p ps]; [reflexivity|].
    inversion C as [|? ? Hp _]; subst. apply clean_has_word in Hp.
    simpl in W. destruct (split_ws p); [simpl in Hp; lia | discriminate].
Qed.

Lemma in_firstn (A : Type) (n : nat) (l : list A) (x : A) :
  In x (firstn n l) -> In x l.
Proof.
  revert l. induction n as [|n IH]; intros [|y l]; simpl; try tauto.
  intros [H|H]; [now left | right; now apply IH].
Qed.

Lemma extract_title_in (paragraphs : list str) :
  paragraphs <> [] -> In (extract_title paragraphs) (firstn 3 paragraphs).
Proof.
  destruct paragraphs as [|first rest]; [congruence|]. intros _.
  unfold extract_title.
  match goal with
  | |- context [find ?f ?l] => destruct (find f l) as [para|] eqn:E
  end.
  - now apply find_some in E.
  - simpl. now left.
Qed.

Lemma title_facts (text : str) :
  let paragraphs := parser_paragraphs (snd (load_from_text text)) in
  (extract_title paragraphs = [] <-> forallb isspace text = true)
  /\ (forallb isspace text = false -> In (extract_title paragraphs) (firstn 3 paragraphs))
  /\ (forall first rest,
        paragraphs = first :: rest ->
        length first < 200 -> starts_with_abstract first = false ->
        extract_title paragraphs = first).
Proof.
  cbv zeta. pose proof (loaded_clean text) as C.
  pose proof (no_paragraph_iff_blank text) as B.
  set (ps := parser_paragraphs (snd (load_from_text text))) in *. clearbody ps.
  split; [|split].
  - rewrite <- B. split; intros H; [|now rewrite H].
    destruct ps as [|p ps']; [reflexivity|]. exfalso.
    assert (Hin : In (extract_title (p :: ps')) (p :: ps')).
    { apply (@in_firstn _ 3). apply extract_title_in. discriminate. }
    rewrite Forall_forall in C. destruct (C _ Hin) as [Hne _]. congruence.
  - intros H. apply extract_title_in. intros E. apply B in E. congruence.
  - intros first rest -> Hl Ha. unfold extract_title. cbn [firstn find].
    apply Nat.ltb_lt in Hl. rewrite Hl, Ha. reflexivity.
Qed.

(** X5. The title extracted from a loaded text is empty exactly when the
    text is blank (whitespace only); otherwise it is one of the first
    three paragraphs, and it is the first paragraph whenever that one is
    shorter than 200 characters and does not begin with "abstract" in any
    letter case. *)
Theorem title_of_text (text : str) :
  let paragraphs := parser_paragraphs (snd (load_from_text text)) in
  (extract_title paragraphs = [] <-> forallb isspace text = true)
  /\ (forallb isspace text = false -> In (extract_title paragraphs) (firstn 3 paragraphs))
  /\ (forall first rest,
        paragraphs = first :: rest ->
        length first < 200 -> starts_with_abstract first = false ->
        extract_title paragraphs = first).
Proof. apply title_facts. Qed.

End TitleFacts.

(** ** The authors *)

Section AuthorFacts.



(** Every text [re.findall] returns occurs in the searched text, and the
    pattern accepts it there. *)
Lemma findall_scan_sound (r : re) (s : str) :
  forall skip m,
    In m (findall_scan r s skip) ->
    exists pre post, s = pre ++ m ++ post /\ accepts r (m ++ post) post.
Proof.
  induction s as [|c s IH]; intros skip m H; [contradiction|].
  assert (Hrec : forall n, In m (findall_scan r s n) ->
                 exists pre post, c :: s = pre ++ m ++ post /\ accepts r (m ++ post) post).
  { intros n Hn. destruct (IH n m Hn) as [pre [post [-> Ha]]].
    exists (c :: pre), post. auto. }
  cbn [findall_scan] in H. destruct skip as [|n]; [|eauto].
  destruct (re_match r (c :: s)) as [rest|] eqn:E; [|eauto].
  destruct H as [<-|H]; [|eauto].
  apply re_match_sound in E as [Ha E].
  exists [], rest. rewrite <- E. auto.
Qed.

Lemma capitalised_inv (s s' : str) :
  accepts capitalised s s' -> exists w, s = w ++ s' /\ capitalised_word w.
Proof.
  intros H. apply accepts_seq_inv in H as [s1 [H1 H2]].
  apply accepts_chr_inv in H1 as [c [-> Hc]].
  apply accepts_plus_inv in H2 as [x [w [-> [Hx Hw]]]].
  exists (c :: x :: w). split; [reflexivity|].
  exists c, (x :: w). repeat split; [assumption | discriminate |].
  simpl. now rewrite Hx, Hw.
Qed.

Lemma blanks_inv (s s' : str) :
  accepts (Plus isspace) s s' -> exists b, s = b ++ s' /\ blanks b.
Proof.
  intros H. apply accepts_plus_inv in H as [x [w [-> [Hx Hw]]]].
  exists (x :: w). split; [reflexivity|]. split; [discriminate|].
  simpl. now rewrite Hx, Hw.
Qed.

Lemma author_pattern_shape (m post : str) :
  accepts author_pattern (m ++ post) post -> author_shaped m.
Proof.
  unfold author_pattern. cbn [seq_all]. intros H.
  apply accepts_seq_inv in H as [s1 [H1 H]]. apply capitalised_inv in H1 as [w1 [E1 C1]].
  apply accepts_seq_inv in H as [s2 [H2 H]]. apply blanks_inv in H2 as [b1 [E2 B1]].
  apply accepts_seq_inv in H as [s3 [H3 H]]. apply capitalised_inv in H3 as [w2 [E3 C2]].
  apply accepts_opt_inv in H as [H|H].
  - apply accepts_seq_inv in H as [s4 [H4 H5]].
    apply blanks_inv in H4 as [b2 [E4 B2]]. apply capitalised_inv in H5 as [w3 [E5 C3]].
    subst. exists w1, b1, w2, (b2 ++ w3). split.
    + apply (app_inv_tail post). rewrite E1. now rewrite <- !app_assoc.
    + repeat split; try assumption; try apply C1; try apply B1; try apply C2.
      right. exists b2, w3. auto.
  - subst. exists w1, b1, w2, []. split.
    + apply (app_inv_tail post). rewrite E1. now rewrite <- !app_assoc.
    + repeat split; try assumption; try apply C1; try apply B1; try apply C2.
      now left.
Qed.

Lemma authors_of_spec (names emails : list str) :
  forall i a,
    In a (authors_of i names emails) ->
    In (author_name a) names /\ author_affiliation a = None
    /\ (forall e, author_email a = Some e -> In e emails).
Proof.
  induction names as [|name rest IH]; intros i a H; [contradiction|].
  destruct H as [<-|H].
  - simpl. split; [now left|]. split; [reflexivity|].
    intros e He. now apply nth_error_In in He.
  - destruct (IH _ _ H) as [Hn Hr]. split; [now right | exact Hr].
Qed.

Lemma authors_loop_spec (paragraphs : list str) :
  forall authors a,
    In a (authors_loop paragraphs authors) ->
    In a authors
    \/ exists para,
         In para paragraphs
         /\ In (author_name a) (findall author_pattern para)
         /\ author_affiliation a = None
         /\ (forall e, author_email a = Some e -> In e (findall email_pattern para)).
Proof.
  induction paragraphs as [|para rest IH]; intros authors a H; [now left|].
  cbn [authors_loop] in H. destruct (starts_with_abstract para); [now left|].
  apply IH in H as [H|[p [Hp Hr]]].
  - apply in_app_or in H as [H|H]; [now left|]. right.
    exists para. split; [now left|]. now apply authors_of_spec in H.
  - right. exists p. split; [now right | exact Hr].
Qed.

(** X6. Every author [extract_authors] returns has a name of two or three
    capitalised words of ASCII letters separated by whitespace, has no
    affiliation, and comes from one of the paragraphs 2 to 5, in which its
    name occurs and, when it has one, its e-mail address. *)
Theorem extract_authors_names (paragraphs : list str) :
  Forall (fun a =>
            author_shaped (author_name a)
            /\ author_affiliation a = None
            /\ exists para,
                 In para (firstn 4 (skipn 1 paragraphs))
                 /\ occurs_in (author_name a) para
                 /\ forall e, author_email a = Some e -> occurs_in e para)
         (extract_authors paragraphs).
Proof.
  apply Forall_forall. intros a H. unfold extract_authors in H.
  apply authors_loop_spec in H as [H|[para [Hp [Hn [Ha He]]]]]; [contradiction|].
  apply findall_scan_sound in Hn as [pre [post [E Hacc]]].
  split; [now apply author_pattern_shape in Hacc|]. split; [assumption|].
  exists para. split; [assumption|]. split; [now exists pre, post|].
  intros e Hs. apply He in Hs.
  apply findall_scan_sound in Hs as [pre' [post' [E' _]]]. now exists pre', post'.
Qed.

(** The loop stops at the first paragraph that begins with "abstract". *)
Lemma authors_loop_break (before : list str) (a : str) (after : list str) :
  starts_with_abstract a = true ->
  forall authors,
    authors_loop (before ++ a :: after) authors = authors_loop before authors.
Proof.
  intros Ha. induction before as [|p before IH]; intros authors; simpl.
  - now rewrite Ha.
  - destruct (starts_with_abstract p); [reflexivity | apply IH].
Qed.

Lemma authors_loop_firstn (n : nat) (before : list str) (a : str) (after : list str) :
  starts_with_abstract a = true ->
  forall authors,
    authors_loop (firstn n (before ++ a :: after)) authors
    = authors_loop (firstn n before) authors.
Proof.
  intros Ha. revert before.
  induction n as [|n IH]; intros before authors; [reflexivity|].
  destruct before as [|p before]; simpl.
  - now rewrite Ha.
  - destruct (starts_with_abstract p); [reflexivity | apply IH].
Qed.

(** X7. The authors depend on the paragraphs 2 to 5 only, not on the
    first paragraph nor on a later one, and on none from the first
    paragraph on that begins with "abstract" in any letter case; a
    document of at most one paragraph has no author. *)
Theorem extract_authors_window :
  (forall first other rest,
      extract_authors (first :: rest) = extract_authors (other :: firstn 4 rest))
  /\ (forall first before a after,
        starts_with_abstract a = true ->
        extract_authors (first :: before ++ a :: after)
        = extract_authors (first :: before))
  /\ extract_authors [] = []
  /\ (forall first, extract_authors [first] = []).
Proof.
  split; [|split; [|split]].
  - intros first other rest. unfold extract_authors. cbn [skipn].
    now rewrite firstn_firstn.
  - intros first before a after Ha. unfold extract_authors. cbn [skipn].
    now apply authors_loop_firstn.
  - reflexivity.
  - reflexivity.
Qed.

End AuthorFacts.

(** ** The text of the abstract *)

Section AbstractTextFacts.

Lemma abstract_loop_before (before tail : list str) (text : str) :
  existsb (matches pat_abstract) before = false ->
  abstract_loop (before ++ tail) text false = abstract_loop tail text false.
Proof.
  induction before as [|p before IH]; simpl; intros H; [reflexivity|].
  apply orb_false_iff in H as [Hp Hb]. rewrite Hp. auto.
Qed.

Lemma abstract_loop_body (body tail : list str) :
  forallb continues_abstract body = true ->
  forall text,
    abstract_loop (body ++ tail) text true
    = abstract_loop tail (text ++ continued body) true.
Proof.
  unfold continued.
  induction body as [|p body IH]; simpl; intros H text.
  - now rewrite app_nil_r.
  - apply andb_prop in H as [Hp Hb]. unfold continues_abstract in Hp.
    apply andb_prop in Hp as [Ha He].
    apply negb_true_iff in Ha, He. unfold ends_abstract in He.
    rewrite Ha, He, (IH Hb), <- !app_assoc. reflexivity.
Qed.

Lemma abstract_loop_end (tail : list str) (text : str) :
  tail = []
  \/ (exists stop after,
        tail = stop :: after
        /\ matches pat_abstract stop = false /\ ends_abstract stop = true) ->
  abstract_loop tail text true = text.
Proof.
  intros [->|[stop [after [-> [Ha He]]]]]; [reflexivity|].
  simpl. unfold ends_abstract in He. now rewrite Ha, He.
Qed.

(** X8. When the first paragraph that opens an abstract is followed by
    paragraphs that go on with it, up to the keywords line, a section
    heading or the end of the document, the abstract is the opening
    paragraph without its "Abstract" lead-in followed by these paragraphs,
    each after a blank, stripped; its word count is the number of words of
    that text. *)
Theorem extract_abstract_text (before : list str) (a : str) (body tail : list str) :
  existsb (matches pat_abstract) before = false ->
  matches pat_abstract a = true ->
  forallb continues_abstract body = true ->
  tail = []
  \/ (exists stop after,
        tail = stop :: after
        /\ matches pat_abstract stop = false /\ ends_abstract stop = true) ->
  abs_text (extract_abstract (before ++ a :: body ++ tail))
  = strip (re_sub_prefix pat_abstract a ++ continued body)
  /\ word_count (extract_abstract (before ++ a :: body ++ tail))
     = length (split_ws (re_sub_prefix pat_abstract a ++ continued body)).
Proof.
  intros Hb Ha Hbody Htail.
  assert (L : abstract_loop (before ++ a :: body ++ tail) [] false
              = re_sub_prefix pat_abstract a ++ continued body).
  { rewrite abstract_loop_before by assumption.
    cbn [abstract_loop]. rewrite Ha.
    rewrite abstract_loop_body by assumption. now apply abstract_loop_end. }
  unfold extract_abstract. cbv zeta. cbn [abs_text word_count]. rewrite L.
  split; [reflexivity|].
  destruct (re_sub_prefix pat_abstract a ++ continued body); reflexivity.
Qed.

Lemma extract_abstract_text_witness :
  abs_text (extract_abstract scenario_paragraphs) = lit "This work presents...".
Proof.
  apply (proj1 (@extract_abstract_text
                  [lit "A Study of X"; lit "Jane Doe jane@x.edu"]
                  (lit "Abstract. This work presents...") []
                  (map lit ["Keywords: ml, nlp"; "1. Introduction"; "Text.";
                            "References"; "[1] Smith 2020"]%string)
                  eq_refl eq_refl eq_refl
                  (or_intror
                     (ex_intro _ (lit "Keywords: ml, nlp")
                        (ex_intro _ (map lit ["1. Introduction"; "Text."; "References";
                                              "[1] Smith 2020"]%string)
                           (conj eq_refl (conj eq_refl eq_refl))))))).
Defined.

End AbstractTextFacts.

(** ** Parsed content the renderer takes *)

Section RenderableFacts.

Lemma compatible_part (pre m post : str) :
  xml_compatible (pre ++ m ++ post) = true -> xml_compatible m = true.
Proof.
  rewrite !xml_compatible_app. intros H.
  apply andb_prop in H as [_ H]. now apply andb_prop in H as [H _].
Qed.

(** The stripped pieces of a text hold characters of the text only. *)
Lemma stripped_pieces_compatible (d : char -> bool) (keep : str -> bool) (text : str) :
  xml_compatible text = true ->
  forallb xml_compatible (map strip (filter keep (split_on d text))) = true.
Proof.
  intros H. apply forallb_forall. intros x Hx. apply in_map_iff in Hx as [y [<- Hy]].
  apply filter_In in Hy as [Hy _]. apply forallb_strip.
  pose proof (@split_on_forall xml_char d text H) as F.
  rewrite Forall_forall in F. now apply F.
Qed.

Lemma loaded_compatible (text : str) :
  xml_compatible text = true ->
  forallb xml_compatible (parser_paragraphs (snd (load_from_text text))) = true.
Proof. apply stripped_pieces_compatible. Qed.

Lemma extract_title_compatible (ps : list str) :
  forallb xml_compatible ps = true -> xml_compatible (extract_title ps) = true.
Proof.
  intros H. unfold extract_title. destruct ps as [|first rest]; [reflexivity|].
  rewrite forallb_forall in H.
  match goal with |- context [find ?f ?l] => destruct (find f l) as [para|] eqn:E end.
  - apply find_some in E as [E _]. apply H. exact (in_firstn _ _ _ E).
  - apply H. now left.
Qed.

Lemma extract_authors_compatible (ps : list str) :
  forallb xml_compatible ps = true ->
  forallb (fun a => xml_compatible (author_name a)) (extract_authors ps) = true.
Proof.
  intros H. apply forallb_forall. intros a Ha. unfold extract_authors in Ha.
  apply authors_loop_spec in Ha as [[]|[para [Hin [Hname _]]]].
  unfold findall in Hname.
  apply findall_scan_sound in Hname as [pre [post [E _]]].
  rewrite forallb_forall in H.
  assert (Hp : In para ps).
  { apply in_firstn in Hin. destruct ps as [|p0 ps']; [destruct Hin | now right]. }
  specialize (H para Hp). rewrite E in H. exact (compatible_part _ _ _ H).
Qed.

Lemma abstract_loop_compatible (ps : list str) :
  forallb xml_compatible ps = true ->
  forall text started,
    xml_compatible text = true ->
    xml_compatible (abstract_loop ps text started) = true.
Proof.
  induction ps as [|para rest IH]; intros H text started Ht; [exact Ht|].
  cbn [forallb] in H. apply andb_prop in H as [Hp Hrest]. cbn [abstract_loop].
  destruct (matches pat_abstract para).
  - apply IH; [assumption|]. exact (@re_sub_prefix_forall xml_char pat_abstract para Hp).
  - destruct started.
    + destruct (matches pat_keywords_stop para || _is_section_heading para); [exact Ht|].
      apply IH; [assumption|]. rewrite !xml_compatible_app, Ht, Hp. reflexivity.
    + now apply IH.
Qed.

Lemma extract_abstract_compatible (ps : list str) :
  forallb xml_compatible ps = true ->
  xml_compatible (abs_text (extract_abstract ps)) = true.
Proof.
  intros H. unfold extract_abstract. cbn [abs_text]. apply forallb_strip.
  now apply abstract_loop_compatible.
Qed.

(** The group of a match is a part of the text. *)
Lemma re_match_group_part (prefix body : re) (s g : str) :
  re_match_group prefix body s = Some g -> exists pre post, s = pre ++ g ++ post.
Proof.
  unfold re_match_group. intros H.
  apply bt_sound in H as [s1 [Ha H]]. apply bt_sound in H as [s2 [Hb H]].
  injection H as <-.
  destruct (accepts_prefix Ha) as [m ->]. destruct (accepts_prefix Hb) as [m' ->].
  exists m, s2.
  rewrite length_app, Nat.add_sub, firstn_app, Nat.sub_diag, firstn_all.
  simpl. now rewrite app_nil_r.
Qed.

Lemma extract_keywords_compatible (ps : list str) :
  forallb xml_compatible ps = true ->
  forallb xml_compatible (extract_keywords ps) = true.
Proof.
  induction ps as [|para rest IH]; [reflexivity|].
  cbn [forallb]. intros H. apply andb_prop in H as [Hp Hrest]. cbn [extract_keywords].
  destruct (re_match_group pat_keywords_prefix pat_keywords_group para) as [g|] eqn:E;
    [|now apply IH].
  apply re_match_group_part in E as [pre [post E]]. rewrite E in Hp.
  apply stripped_pieces_compatible. exact (compatible_part _ _ _ Hp).
Qed.

Lemma detect_sections_compatible (ps : list str) :
  forallb xml_compatible ps = true ->
  forallb (fun s => xml_compatible (sec_title s) && xml_compatible (sec_content s))
          (detect_sections ps) = true.
Proof.
  intros H. unfold detect_sections. rewrite detect_loop_closed. cbn [app].
  destruct (scan_closed_spec ps 0) as [pre [_ [Heq [Hwf _]]]].
  apply forallb_forall. intros s Hs. apply in_map_iff in Hs as [sb [<- Hsb]].
  rewrite Forall_forall in Hwf. destruct (Hwf sb Hsb) as [_ [_ Hcontent]].
  assert (B : forallb xml_compatible (block sb) = true).
  { rewrite Heq, forallb_app in H. apply andb_prop in H as [_ H].
    rewrite forallb_forall in H. apply forallb_forall. intros x Hx. apply H.
    apply in_concat. exists (block sb). split; [now apply in_map | assumption]. }
  unfold block in B. cbn [forallb] in B. apply andb_prop in B as [B1 B2].
  rewrite B1, Hcontent. cbn [andb]. now apply join_compatible.
Qed.

Lemma references_loop_compatible (ps : list str) :
  forallb xml_compatible ps = true ->
  forall refs in_references,
    forallb xml_compatible refs = true ->
    forallb xml_compatible (references_loop ps refs in_references) = true.
Proof.
  induction ps as [|para rest IH]; intros H refs b Hr; [exact Hr|].
  cbn [forallb] in H. apply andb_prop in H as [Hp Hrest]. cbn [references_loop].
  destruct (matches pat_references para); [now apply IH|].
  destruct b; [|now apply IH].
  destruct (matches pat_reference_number para || truthy para); [|now apply IH].
  apply IH; [assumption|]. rewrite forallb_app, Hr. cbn [forallb]. now rewrite Hp.
Qed.

(** Paragraphs [add_run] takes are parsed into content it takes. *)
Lemma parsed_renderable (parser : ParseSections.parser) :
  forallb xml_compatible (parser_paragraphs parser) = true ->
  renderable (parse_sections parser) = true.
Proof.
  intros H. unfold renderable, parse_sections.
  cbn [title authors abstract keywords sections references].
  rewrite (extract_title_compatible _ H), (extract_authors_compatible _ H),
    (extract_abstract_compatible _ H), (extract_keywords_compatible _ H),
    (detect_sections_compatible _ H).
  unfold extract_references. now rewrite (references_loop_compatible _ H).
Qed.

End RenderableFacts.

(** ** The paragraphs of the rendered sections *)

Section SectionRenderFacts.

Lemma content_lines_join (body : list str) :
  Forall clean_paragraph body -> content_lines (join nl body) = body.
Proof.
  intros H. unfold content_lines.
  destruct body as [|p rest]; [reflexivity|].
  assert (T : truthy (join nl (p :: rest)) = true).
  { inversion H as [|? ? [Hne _] _]; subst.
    destruct p; [congruence|]. simpl. now destruct rest. }
  rewrite T. exact (load_joined H).
Qed.

Lemma paragraph_text_heading (text : str) (level : nat) :
  paragraph_text (heading_paragraph text level) = re_sub_prefix pat_heading_number text.
Proof. unfold paragraph_text. simpl. apply app_nil_r. Qed.

Lemma paragraph_text_body (text : str) : paragraph_text (body_paragraph text) = text.
Proof. unfold paragraph_text. simpl. apply app_nil_r. Qed.

Lemma shown_plain (body : list str) : Forall plain body -> map shown body = body.
Proof.
  induction 1 as [|p body Hp Hb IH]; simpl; [reflexivity|].
  unfold shown at 1. unfold plain in Hp. now rewrite Hp, IH.
Qed.

Lemma section_texts (sb : section * list str) :
  well_formed sb -> Forall clean_paragraph (snd sb) ->
  map paragraph_text (section_part (fst sb)) = map shown (block sb).
Proof.
  intros [Hty [Hplain Hcontent]] Hclean. unfold section_part, block.
  cbn [map]. rewrite paragraph_text_heading, Hcontent, content_lines_join by assumption.
  unfold shown at 1. rewrite Hty. f_equal.
  rewrite map_map, (shown_plain Hplain).
  rewrite <- (map_id (snd sb)) at 2. apply map_ext. apply paragraph_text_body.
Qed.

Lemma sections_texts (R : list (section * list str)) :
  Forall well_formed R -> Forall clean_paragraph (concat (map block R)) ->
  map paragraph_text (flat_map section_part (map fst R))
  = map shown (concat (map block R)).
Proof.
  induction 1 as [|sb R Hsb HR IH]; intros Hc; [reflexivity|].
  cbn [map flat_map concat] in *. apply Forall_app in Hc as [Hc1 Hc2].
  rewrite !map_app, IH by assumption. f_equal.
  apply section_texts; [assumption|]. unfold block in Hc1. now inversion Hc1.
Qed.

(** X9. For paragraphs that are not empty, trimmed, free of line feeds and
    made of characters [add_run] takes, rendering the detected sections on
    an applier with a document returns, leaves the log as it is, and
    appends one paragraph for each paragraph of the input from the first
    heading on, in order: python-docx reads back a heading with
    [add_heading]'s number pattern removed and any other paragraph with
    its text, a carriage return being read back as a line feed; the
    paragraphs before the first heading are in no section. *)
Theorem sections_render_every_paragraph (paras : list str) (self : applier) (d : docx) :
  Forall clean_paragraph paras ->
  forallb xml_compatible paras = true ->
  document self = Some d ->
  exists before rest st d',
    paras = before ++ rest
    /\ Forall plain before
    /\ (forall h t, rest = h :: t -> _get_section_type h <> None)
    /\ for_each add_section (detect_sections paras) self = Some st
    /\ document st = Some d'
    /\ map docx_text (paragraphs d')
       = map docx_text (paragraphs d) ++ map read_back (map shown rest)
    /\ changes_log st = changes_log self.
Proof.
  intros Hclean Hxml Hd.
  destruct (scan_closed_spec paras 0) as [pre [Hpre [Heq [Hwf _]]]].
  assert (Htexts : map paragraph_text (flat_map section_part (detect_sections paras))
                   = map shown (concat (map block (scan_closed paras 0)))).
  { unfold detect_sections. rewrite detect_loop_closed. cbn [app].
    apply sections_texts; [assumption|].
    rewrite Heq in Hclean. now apply Forall_app in Hclean as [_ H]. }
  assert (Hacc : forallb accepted (flat_map section_part (detect_sections paras)) = true).
  { apply forallb_forall. intros p Hp. apply in_flat_map in Hp as [s [Hs Hp]].
    pose proof (detect_sections_compatible _ Hxml) as F.
    rewrite forallb_forall in F. specialize (F s Hs). apply andb_prop in F as [Ft Fc].
    pose proof (@section_part_accepted s Ft Fc) as G. rewrite forallb_forall in G.
    now apply G. }
  exists pre, (concat (map block (scan_closed paras 0))).
  eexists. eexists.
  split; [assumption|]. split; [assumption|]. split; [|split; [|split; [|split]]].
  - intros h t E. destruct (scan_closed paras 0) as [|sb R]; [discriminate|].
    inversion Hwf as [|? ? [Hty _] _]; subst.
    cbn [map concat block app] in E. injection E as <- _. rewrite Hty. discriminate.
  - rewrite (@appends_sections (detect_sections paras) self d Hd), Hacc. reflexivity.
  - reflexivity.
  - cbn [paragraphs]. rewrite map_app. f_equal.
    unfold docx_text. rewrite <- (map_map paragraph_text read_back). now rewrite Htexts.
  - cbn [extend changes_log]. apply app_nil_r.
Qed.

Lemma sections_render_every_paragraph_witness :
  exists before rest st d',
    scenario_paragraphs = before ++ rest
    /\ Forall plain before
    /\ (forall h t, rest = h :: t -> _get_section_type h <> None)
    /\ for_each add_section (detect_sections scenario_paragraphs)
         {| document := Some styled_document; figure_counter := 0;
            table_counter := 0; changes_log := [margins_entry] |} = Some st
    /\ document st = Some d'
    /\ map docx_text (paragraphs d')
       = map docx_text (paragraphs styled_document) ++ map read_back (map shown rest)
    /\ changes_log st = [margins_entry].
Proof.
  apply (@sections_render_every_paragraph scenario_paragraphs
           {| document := Some styled_document; figure_counter := 0;
              table_counter := 0; changes_log := [margins_entry] |}
           styled_document).
  - repeat constructor; try discriminate; vm_compute; reflexivity.
  - vm_compute. reflexivity.
  - reflexivity.
Defined.

End SectionRenderFacts.

(** ** The text of a rendered heading *)

Section HeadingTextFacts.

(** The number pattern of [add_heading] needs a digit after the leading
    whitespace. *)
Lemma heading_number_digit (s rest : str) :
  accepts pat_heading_number s rest ->
  exists w d t, s = w ++ d :: t /\ forallb isspace w = true /\ is_digit d = true.
Proof.
  unfold pat_heading_number. cbn [seq_all]. intros H.
  apply accepts_seq_inv in H as [s1 [H1 H]].
  apply accepts_star_inv in H1 as [w [-> Hw]].
  apply accepts_seq_inv in H as [s2 [H2 _]].
  apply accepts_plus_inv in H2 as [d [ds [-> [Hd _]]]].
  exists w, d, (ds ++ s2). auto.
Qed.

Lemma accepts_nullable (r : re) (s s' : str) :
  accepts r s s' -> s = [] -> nullable r = true.
Proof.
  induction 1 as [s|p c s Hc|a b s s1 s2 Ha IHa Hb IHb|a b s s1 Ha IHa|a b s s1 Hb IHb
                  |a s s1 Ha IHa|a s|p w s Hw|p c w s Hc Hw|s He];
    intros E; simpl; try reflexivity; try discriminate.
  - destruct (accepts_prefix Ha) as [m Hm]. subst s.
    symmetry in Hm. apply app_eq_nil in Hm as [_ ->].
    now rewrite IHa, IHb.
  - now rewrite IHa.
  - rewrite IHb by assumption. apply orb_true_r.
Qed.

(** A greedy repetition followed by a continuation that accepts what
    follows the longest run stops there. *)
Lemma star_bt_greedy (A : Type) (p : char -> bool) (w s : str)
  (k : str -> option A) (x : A) :
  forallb p w = true ->
  (forall c t, s = c :: t -> p c = false) ->
  k s = Some x ->
  star_bt p (w ++ s) k = Some x.
Proof.
  intros Hw Hs Hk. induction w as [|c w IH]; simpl in *.
  - destruct s as [|c t]; simpl; [assumption|].
    now rewrite (Hs c t eq_refl).
  - apply andb_prop in Hw as [Hc Hw]. now rewrite Hc, (IH Hw).
Qed.

Lemma head_of_padded (q : char -> bool) (w : str) (x : char) (rest : str) :
  (forall c, isspace c = true -> q c = false) -> q x = false ->
  forallb isspace w = true ->
  forall c t, w ++ x :: rest = c :: t -> q c = false.
Proof.
  intros Hq Hx Hw c t E. destruct w as [|y w]; simpl in *.
  - now injection E as <- _.
  - injection E as <- _. apply andb_prop in Hw as [Hy _]. auto.
Qed.

Lemma space_not_digit (c : char) : isspace c = true -> is_digit c = false.
Proof.
  intros H. destruct (is_digit c) eqn:E; [|reflexivity].
  apply digit_not_space in E. congruence.
Qed.

Lemma space_not_period (c : char) : isspace c = true -> char_eqb 46%N c = false.
Proof.
  intros H. destruct (char_eqb 46%N c) eqn:E; [|reflexivity].
  apply N.eqb_eq in E. subst c. discriminate.
Qed.

(** The number pattern removes whitespace, digits, a period and whitespace
    up to the first character that is none of them. *)
Lemma heading_number_strip (w : str) (d : char) (ds dotpart w2 : str) (x : char)
  (rest : str) :
  forallb isspace w = true -> is_digit d = true -> forallb is_digit ds = true ->
  dotpart = [] \/ dotpart = [46%N] ->
  forallb isspace w2 = true ->
  isspace x = false -> is_digit x = false -> char_eqb 46%N x = false ->
  re_match pat_heading_number (w ++ d :: ds ++ dotpart ++ w2 ++ x :: rest)
  = Some (x :: rest).
Proof.
  intros Hw Hd Hds Hdot Hw2 Hx1 Hx2 Hx3.
  assert (K3 : star_bt isspace (w2 ++ x :: rest) (fun s => Some s) = Some (x :: rest)).
  { apply star_bt_greedy; [assumption| |reflexivity].
    intros c t E. now injection E as <- _. }
  unfold re_match, pat_heading_number. cbn [seq_all bt ws_star].
  apply star_bt_greedy; [assumption| |].
  { intros c t E. injection E as <- _. now apply digit_not_space. }
  rewrite Hd. apply star_bt_greedy; [assumption| |].
  - destruct Hdot as [->| ->]; cbn [app].
    + apply head_of_padded; auto using space_not_digit.
    + intros c t E. now injection E as <- _.
  - destruct Hdot as [->| ->]; cbn [app].
    + assert (F : bt (ch ".") (w2 ++ x :: rest)
                    (fun s => star_bt isspace s (fun s0 => Some s0)) = None).
      { pose proof (@head_of_padded (char_eqb 46%N) w2 x rest space_not_period Hx3 Hw2)
          as H.
        destruct (w2 ++ x :: rest) as [|c t] eqn:E; [reflexivity|].
        unfold ch, chr. cbn [bt]. change (N_of_ascii ".") with 46%N.
        now rewrite (H c t eq_refl). }
      rewrite F. exact K3.
    + unfold ch, chr. cbn [bt]. change (N_of_ascii ".") with 46%N.
      change (char_eqb 46%N 46%N) with true. cbv iota. now rewrite K3.
Qed.

Lemma padded_unique (w w' : str) (x y : char) (r t : str) :
  forallb isspace w = true -> forallb isspace w' = true ->
  isspace x = false -> isspace y = false ->
  w ++ x :: r = w' ++ y :: t -> w = w' /\ x = y /\ r = t.
Proof.
  revert w'. induction w as [|c w IH]; intros [|c' w'] Hw Hw' Hx Hy E; simpl in *.
  - injection E as -> ->. auto.
  - injection E as -> _. apply andb_prop in Hw' as [H _]. congruence.
  - injection E as -> _. apply andb_prop in Hw as [H _]. congruence.
  - injection E as -> E. apply andb_prop in Hw as [_ Hw].
    apply andb_prop in Hw' as [_ Hw'].
    destruct (IH w' Hw Hw' Hx Hy E) as [-> [-> ->]]. auto.
Qed.

(** Without a digit after the leading whitespace the number pattern does
    not match. *)
Lemma heading_number_none (w : str) (x : char) (rest : str) :
  forallb isspace w = true -> isspace x = false -> is_digit x = false ->
  re_sub_prefix pat_heading_number (w ++ x :: rest) = w ++ x :: rest.
Proof.
  intros Hw Hx1 Hx2. unfold re_sub_prefix.
  destruct (re_match pat_heading_number (w ++ x :: rest)) as [r|] eqn:E; [|reflexivity].
  exfalso. apply re_match_sound in E as [Ha _].
  apply heading_number_digit in Ha as [w' [d [t [E [Hw' Hd]]]]].
  apply padded_unique in E as [_ [-> _]];
    try assumption; [congruence | now apply digit_not_space].
Qed.

Lemma forallb_number_spaces (w : str) :
  forallb isspace w = true -> forallb number_char w = true.
Proof.
  intros H. rewrite forallb_forall in *. intros c Hc.
  unfold number_char. now rewrite (H c Hc).
Qed.

(** The first character of the words of a pattern. *)
Lemma first_letter (T : re) (s s' : str) :
  accepts T s s' -> nullable T = false ->
  (forall x, isspace x = true \/ is_digit x = true -> first_ok T x = false) ->
  first_ok T 46%N = false ->
  exists x rest, s = x :: rest /\ isspace x = false /\ is_digit x = false
                 /\ char_eqb 46%N x = false.
Proof.
  intros Ha Hn HT Hdot. destruct s as [|x rest].
  - rewrite (accepts_nullable Ha eq_refl) in Hn. discriminate.
  - pose proof (accepts_first Ha eq_refl) as F.
    exists x, rest. split; [reflexivity|].
    destruct (isspace x) eqn:E1; [rewrite HT in F by auto; discriminate|].
    destruct (is_digit x) eqn:E2; [rewrite HT in F by auto; discriminate|].
    destruct (char_eqb 46%N x) eqn:E3; [|auto].
    apply N.eqb_eq in E3. subst x. congruence.
Qed.

Lemma plain_pattern_text (T : re) (p s' : str) :
  accepts (Seq ws_star T) p s' -> nullable T = false ->
  (forall x, isspace x = true \/ is_digit x = true -> first_ok T x = false) ->
  first_ok T 46%N = false ->
  number_removed p.
Proof.
  intros Ha Hn HT Hdot.
  apply accepts_seq_inv in Ha as [s1 [Hw Ha]].
  apply accepts_star_inv in Hw as [w [-> Hw]].
  destruct (first_letter Ha Hn HT Hdot) as [x [rest [-> [Hx1 [Hx2 _]]]]].
  exists w, x, rest. split; [reflexivity|].
  split; [now apply forallb_number_spaces|]. split; [assumption|]. split; [assumption|].
  right. split; [assumption|]. now apply heading_number_none.
Qed.

Lemma numbered_pattern_text (k : ascii) (T : re) (p s' : str) :
  accepts (Seq ws_star (Seq (opt_number k) T)) p s' ->
  is_digit (N_of_ascii k) = true -> nullable T = false ->
  (forall x, isspace x = true \/ is_digit x = true -> first_ok T x = false) ->
  first_ok T 46%N = false ->
  number_removed p.
Proof.
  intros Ha Hk Hn HT Hdot.
  apply accepts_seq_inv in Ha as [s1 [Hw Ha]].
  apply accepts_star_inv in Hw as [w [-> Hw]].
  apply accepts_seq_inv in Ha as [s2 [Hopt Ha]].
  destruct (first_letter Ha Hn HT Hdot) as [x [rest [-> [Hx1 [Hx2 Hx3]]]]].
  apply opt_number_inv in Hopt as [->|[t [w3 [-> [Ht Hw3]]]]].
  - exists w, x, rest. split; [reflexivity|].
    split; [now apply forallb_number_spaces|]. split; [assumption|]. split; [assumption|].
    right. split; [assumption|]. now apply heading_number_none.
  - destruct Ht as [->| ->].
    + exists (w ++ N_of_ascii k :: w3), x, rest.
      split; [reassociate|]. split.
      * rewrite forallb_app. cbn [forallb].
        rewrite !forallb_number_spaces by assumption.
        unfold number_char at 1. now rewrite Hk, orb_true_r.
      * split; [assumption|]. split; [assumption|]. left. unfold re_sub_prefix.
        pose proof (@heading_number_strip w (N_of_ascii k) [] [] w3 x rest) as HS.
        cbn [app] in HS. unfold char in *. rewrite HS; auto.
    + exists (w ++ N_of_ascii k :: 46%N :: w3), x, rest.
      split; [reassociate|]. split.
      * rewrite forallb_app. cbn [forallb].
        rewrite !forallb_number_spaces by assumption.
        unfold number_char at 1. now rewrite Hk, orb_true_r.
      * split; [assumption|]. split; [assumption|]. left. unfold re_sub_prefix.
        pose proof (@heading_number_strip w (N_of_ascii k) [] [46%N] w3 x rest) as HS.
        cbn [app] in HS. unfold char in *. rewrite HS; auto.
Qed.

Lemma forallb_number_digits (ds : str) :
  forallb is_digit ds = true -> forallb number_char ds = true.
Proof.
  intros H. rewrite forallb_forall in *. intros c Hc.
  unfold number_char. now rewrite (H c Hc), orb_true_r.
Qed.

Lemma upper_is_letter (c : char) :
  is_upper_AZ c = true ->
  isspace c = false /\ is_digit c = false /\ char_eqb 46%N c = false.
Proof.
  intros H. apply in_range_spec in H. split; [|split].
  - destruct (isspace c) eqn:E; [|reflexivity].
    apply isspace_enum in E. unfold whitespace_code_points in E. simpl in E.
    repeat (destruct E as [E|E]; [lia|]). contradiction.
  - destruct (is_digit c) eqn:E; [|reflexivity]. apply is_digit_bounds in E. lia.
  - apply N.eqb_neq. lia.
Qed.

Lemma generic_heading_text (p s' : str) :
  accepts pat_numbered p s' -> number_removed p.
Proof.
  unfold pat_numbered. cbn [seq_all]. intros Ha.
  apply accepts_seq_inv in Ha as [s1 [Hw Ha]].
  apply accepts_star_inv in Hw as [w [-> Hw]].
  apply accepts_seq_inv in Ha as [s2 [Hd Ha]].
  apply accepts_plus_inv in Hd as [d [ds [-> [Hd Hds]]]].
  apply accepts_seq_inv in Ha as [s3 [Hdot Ha]].
  apply accepts_seq_inv in Ha as [s4 [Hws Hup]].
  apply accepts_plus_inv in Hws as [y [w2 [-> [Hy Hw2]]]].
  apply accepts_chr_inv in Hup as [x [-> Hx]].
  destruct (upper_is_letter x Hx) as [Hx1 [Hx2 Hx3]].
  assert (Hsp : forallb isspace (y :: w2) = true) by (simpl; now rewrite Hy, Hw2).
  apply accepts_opt_inv in Hdot as [Hdot| ->].
  - apply accepts_chr_inv in Hdot as [c [-> Hc]]. apply char_eqb_spec in Hc. subst c.
    change (N_of_ascii ".") with 46%N.
    exists (w ++ d :: ds ++ [46%N] ++ y :: w2), x, s'.
    split; [reassociate|]. split.
    + rewrite forallb_app. cbn [forallb]. rewrite forallb_app. cbn [forallb app].
      rewrite (forallb_number_spaces _ Hw), (forallb_number_digits _ Hds),
        (forallb_number_spaces _ Hw2).
      unfold number_char. now rewrite Hd, Hy, !orb_true_r.
    + split; [assumption|]. split; [assumption|]. left. unfold re_sub_prefix.
      pose proof (@heading_number_strip w d ds [46%N] (y :: w2) x s') as HS.
        cbn [app] in HS. unfold char in *. rewrite HS; auto.
  - exists (w ++ d :: ds ++ y :: w2), x, s'.
    split; [reassociate|]. split.
    + rewrite forallb_app. cbn [forallb]. rewrite forallb_app. cbn [forallb].
      rewrite (forallb_number_spaces _ Hw), (forallb_number_digits _ Hds),
        (forallb_number_spaces _ Hw2).
      unfold number_char. now rewrite Hd, Hy, !orb_true_r.
    + split; [assumption|]. split; [assumption|]. left. unfold re_sub_prefix.
      pose proof (@heading_number_strip w d ds [] (y :: w2) x s') as HS.
        cbn [app] in HS. unfold char in *. rewrite HS; auto.
Qed.

Lemma first_match_in (table : list (string * re)) (text : str) (ty : string) :
  first_match table text = Some ty ->
  exists pat, In (ty, pat) table /\ matches pat text = true.
Proof.
  induction table as [|[ty' pat] table IH]; simpl; [discriminate|].
  destruct (matches pat text) eqn:E.
  - intros H. injection H as <-. eauto.
  - intros H. destruct (IH H) as [pat' [Hin Hm]]. eauto.
Qed.

(** X10. Every paragraph the parser takes for a section heading is shown
    by [add_heading] without its number: the heading is a lead-in of
    whitespace, digits and periods followed by a character that is neither
    whitespace nor a digit, and the rendered text either starts at that
    character, or is the whole heading when the lead-in is whitespace
    only. *)
Theorem recognised_heading_loses_number (p : str) (ty : string) :
  _get_section_type p = Some ty -> number_removed p.
Proof.
  unfold _get_section_type. intros H.
  destruct (first_match SECTION_PATTERNS p) as [ty'|] eqn:E.
  - apply first_match_in in E as [pat [Hin Hm]].
    apply matches_accepts in Hm as [s' Ha].
    unfold SECTION_PATTERNS in Hin. simpl in Hin.
    repeat (destruct Hin as [Hin|Hin]; [injection Hin as <- <-|]); try contradiction.
    + eapply (@numbered_pattern_text "1"); [exact Ha|reflexivity|reflexivity| |reflexivity].
      words_start_with_letter ci_lit_false.
    + eapply (@numbered_pattern_text "2"); [exact Ha|reflexivity|reflexivity| |reflexivity].
      words_start_with_letter ci_lit_false.
    + eapply (@numbered_pattern_text "3"); [exact Ha|reflexivity|reflexivity| |reflexivity].
      words_start_with_letter ci_lit_false.
    + eapply (@numbered_pattern_text "4"); [exact Ha|reflexivity|reflexivity| |reflexivity].
      words_start_with_letter ci_lit_false.
    + eapply (@numbered_pattern_text "5"); [exact Ha|reflexivity|reflexivity| |reflexivity].
      words_start_with_letter ci_lit_false.
    + eapply (@numbered_pattern_text "6"); [exact Ha|reflexivity|reflexivity| |reflexivity].
      words_start_with_letter ci_lit_false.
    + eapply plain_pattern_text; [exact Ha|reflexivity| |reflexivity].
      words_start_with_letter ci_lit_false.
    + eapply plain_pattern_text; [exact Ha|reflexivity| |reflexivity].
      words_start_with_letter ci_lit_false.
  - destruct (matches pat_numbered p) eqn:M; [|discriminate].
    apply matches_accepts in M as [s' Ha]. now apply generic_heading_text in Ha.
Qed.

Lemma recognised_heading_loses_number_witness :
  number_removed (lit "1. Introduction").
Proof.
  apply (@recognised_heading_loses_number (lit "1. Introduction") "introduction").
  vm_compute. reflexivity.
Defined.

End HeadingTextFacts.

(** ** References in the sections and in the reference list *)

Section ReferencesTwiceFacts.

Lemma scan_open_plain (refs : list str) :
  Forall plain refs ->
  forall i cur body,
    scan_open refs i cur body = [(close_section cur (body ++ refs), body ++ refs)].
Proof.
  induction 1 as [|p refs Hp Hr IH]; intros i cur body; simpl.
  - now rewrite app_nil_r.
  - unfold plain in Hp. rewrite Hp, IH, <- app_assoc. reflexivity.
Qed.

Lemma scan_open_heading (ps : list str) (h : str) (ty : string) (refs : list str) :
  _get_section_type h = Some ty -> Forall plain refs ->
  forall i cur body,
    scan_open (ps ++ h :: refs) i cur body
    = scan_open ps i cur body
      ++ [(close_section {| cur_type := ty; cur_title := h; cur_start := i + length ps |} refs,
           refs)].
Proof.
  intros Hh Hr. induction ps as [|p ps IH]; intros i cur body; simpl.
  - rewrite Hh, scan_open_plain by assumption. now rewrite Nat.add_0_r.
  - destruct (_get_section_type p); rewrite IH;
      replace (S i + length ps) with (i + S (length ps)) by lia; reflexivity.
Qed.

Lemma scan_closed_heading (ps : list str) (h : str) (ty : string) (refs : list str) :
  _get_section_type h = Some ty -> Forall plain refs ->
  forall i,
    scan_closed (ps ++ h :: refs) i
    = scan_closed ps i
      ++ [(close_section {| cur_type := ty; cur_title := h; cur_start := i + length ps |} refs,
           refs)].
Proof.
  intros Hh Hr. induction ps as [|p ps IH]; intros i; simpl.
  - rewrite Hh, scan_open_plain by assumption. now rewrite Nat.add_0_r.
  - destruct (_get_section_type p).
    + rewrite (@scan_open_heading ps h ty refs Hh Hr).
      replace (S i + length ps) with (i + S (length ps)) by lia. reflexivity.
    + rewrite IH. replace (S i + length ps) with (i + S (length ps)) by lia. reflexivity.
Qed.

(** A references heading opens a section of level 1. *)
Lemma references_heading_type (h : str) :
  references_heading h = true ->
  exists ty, _get_section_type h = Some ty /\ _get_heading_level ty = 1.
Proof.
  unfold references_heading, _get_section_type, SECTION_PATTERNS. intros H.
  cbn [first_match]. rewrite H.
  repeat match goal with
         | |- context [if matches ?p h then _ else _] =>
             destruct (matches p h); [eexists; split; reflexivity|]
         end.
  eexists; split; reflexivity.
Qed.

Lemma plain_not_references (p : str) : plain p -> references_heading p = false.
Proof.
  unfold plain, references_heading, _get_section_type, SECTION_PATTERNS.
  cbn [first_match].
  repeat match goal with
         | |- context [if matches ?q p then _ else _] =>
             destruct (matches q p); [discriminate|]
         end.
  reflexivity.
Qed.

Lemma references_heading_kept (h : str) :
  references_heading h = true -> re_sub_prefix pat_heading_number h = h.
Proof.
  intros H. unfold re_sub_prefix.
  destruct (re_match pat_heading_number h) as [rest|] eqn:E; [|reflexivity].
  exfalso. apply re_match_sound in E as [Ha _].
  apply heading_number_digit in Ha as [w [d [t [-> [Hw Hd]]]]].
  destruct (@table_leading_digit "references" pat_references w d t) as [k [Hk _]];
    try assumption.
  - simpl. tauto.
  - simpl in Hk. repeat (destruct Hk as [Hk|Hk]; [discriminate|]). contradiction.
Qed.

Lemma reference_entries_texts (refs : list str) :
  forall i, map paragraph_text (reference_entries i refs) = reference_texts i refs.
Proof.
  induction refs as [|ref rest IH]; intros i; [reflexivity|].
  cbn [reference_entries map reference_texts]. rewrite IH. f_equal.
  unfold paragraph_text. cbn. now rewrite app_nil_r, <- !app_assoc.
Qed.

(** From the references heading on, the entries are what
    [extract_references] returns. *)
Lemma extract_references_tail (before : list str) (h : str) (refs : list str) :
  forallb (fun p => negb (references_heading p)) before = true ->
  references_heading h = true ->
  Forall plain refs -> Forall clean_paragraph refs ->
  extract_references (before ++ h :: refs) = refs.
Proof.
  intros Hb Hh Hp Hc. rewrite extract_references_after_heading by assumption.
  induction Hp as [|p refs Hp Hr IH]; [reflexivity|].
  inversion Hc as [|? ? [Hne _] Hc']; subst.
  cbn [filter]. rewrite (plain_not_references Hp).
  destruct p; [congruence|]. cbn. now rewrite IH.
Qed.

(** The texts given to the paragraphs of a pass over paragraphs that end
    with a references heading and its entries. *)
Lemma references_twice_texts (parser : ParseSections.parser)
  (before : list str) (h : str) (refs : list str) :
  parser_paragraphs parser = before ++ h :: refs ->
  Forall clean_paragraph (before ++ h :: refs) ->
  forallb (fun p => negb (references_heading p)) before = true ->
  references_heading h = true ->
  Forall plain refs ->
  refs <> [] ->
  exists front,
    map paragraph_text (styled_paragraphs (parse_sections parser))
    = front ++ h :: refs ++ lit "References" :: reference_texts 1 refs.
Proof.
  intros Hps Hclean Hb Hh Hplain Hne.
  assert (Hc2 : Forall clean_paragraph refs).
  { apply Forall_app in Hclean as [_ Hc]. now inversion Hc. }
  destruct (references_heading_type h Hh) as [ty [Hty Hlevel]].
  assert (Hrefs : references (parse_sections parser) = refs).
  { unfold parse_sections. cbn [references]. rewrite Hps.
    now apply extract_references_tail. }
  assert (Hsec : exists S0,
             sections (parse_sections parser)
             = S0 ++ [close_section {| cur_type := ty; cur_title := h;
                                       cur_start := 0 + length before |} refs]).
  { unfold parse_sections. cbn [sections]. rewrite Hps.
    unfold detect_sections. rewrite detect_loop_closed. cbn [app].
    rewrite (@scan_closed_heading before h ty refs Hty Hplain), map_app.
    eexists. reflexivity. }
  destruct Hsec as [S0 Hsec].
  set (parsed := parse_sections parser) in *.
  exists (map paragraph_text
            (title_part parsed ++ authors_part parsed ++ abstract_part parsed
             ++ keywords_part parsed ++ flat_map section_part S0)).
  unfold styled_paragraphs.
  rewrite Hsec, flat_map_app. cbn [flat_map]. rewrite app_nil_r.
  unfold references_part. rewrite Hrefs.
  destruct refs as [|r0 refs']; [congruence|].
  rewrite !map_app. rewrite <- !app_assoc. do 5 f_equal.
  unfold section_part, close_section. cbn [sec_title sec_type sec_content cur_title cur_type].
  rewrite content_lines_join by assumption.
  rewrite !map_cons, !paragraph_text_heading, references_heading_kept by assumption.
  rewrite map_map, (map_ext _ _ paragraph_text_body), map_id.
  rewrite reference_entries_texts.
  change (re_sub_prefix pat_heading_number (lit "References")) with (lit "References").
  rewrite ?paragraph_text_body. reflexivity.
Qed.

(** X11. When the paragraphs are made of characters [add_run] takes and
    end with a references heading followed by entries that open no
    section, a pass returns and renders the references twice: python-docx
    reads back the heading and the entries as the last section, then the
    heading "References" again and the entries numbered [1], [2], ...,
    every text as it was given but for a carriage return, which is read
    back as a line feed. *)
Theorem references_rendered_twice (parser : ParseSections.parser)
  (before : list str) (h : str) (refs : list str) :
  parser_paragraphs parser = before ++ h :: refs ->
  Forall clean_paragraph (before ++ h :: refs) ->
  forallb xml_compatible (before ++ h :: refs) = true ->
  forallb (fun p => negb (references_heading p)) before = true ->
  references_heading h = true ->
  Forall plain refs ->
  refs <> [] ->
  forall self : applier,
  exists st d front,
    apply_springer_style (parse_sections parser) self = Some st
    /\ document st = Some d
    /\ map docx_text (paragraphs d)
       = front
         ++ map read_back (h :: refs ++ lit "References" :: reference_texts 1 refs).
Proof.
  intros Hps Hclean Hxml Hb Hh Hplain Hne self.
  destruct (@references_twice_texts parser before h refs Hps Hclean Hb Hh Hplain Hne)
    as [front Hfront].
  rewrite <- Hps in Hxml.
  rewrite (@apply_springer_style_renderable (parse_sections parser) self
             (@parsed_renderable parser Hxml)).
  eexists. eexists. exists (map read_back front).
  split; [reflexivity|]. split; [reflexivity|].
  cbn [paragraphs]. unfold docx_text.
  rewrite <- (map_map paragraph_text read_back), Hfront, map_app. reflexivity.
Qed.

Lemma references_rendered_twice_witness :
  exists st d front,
    apply_springer_style (parse_sections scenario_parser) new_applier = Some st
    /\ document st = Some d
    /\ map docx_text (paragraphs d)
       = front
         ++ map read_back (lit "References" :: [lit "[1] Smith 2020"]
                           ++ lit "References" :: reference_texts 1 [lit "[1] Smith 2020"]).
Proof.
  apply (@references_rendered_twice scenario_parser
           (map lit ["A Study of X"; "Jane Doe jane@x.edu";
                     "Abstract. This work presents..."; "Keywords: ml, nlp";
                     "1. Introduction"; "Text."]%string)
           (lit "References") [lit "[1] Smith 2020"]).
  - reflexivity.
  - repeat constructor; try discriminate; vm_compute; reflexivity.
  - vm_compute. reflexivity.
  - vm_compute. reflexivity.
  - vm_compute. reflexivity.
  - constructor; [vm_compute; reflexivity | constructor].
  - discriminate.
Defined.

End ReferencesTwiceFacts.

(** ** From a text to the document *)

Section PipelineFacts.

(** X12. A text made of characters [add_run] takes is parsed and rendered
    without images into a document that has no paragraph exactly when the
    text is blank; for a blank text the parsed content is empty and the
    log holds the entry of the page layout only. *)
Theorem rendered_empty_iff_blank (path_exists : str -> bool)
  (picture_accepted : str -> QArith_base.Q -> bool)
  (text : str) :
  xml_compatible text = true ->
  exists parsed st d,
    parse_text_content text = Some parsed
    /\ App.process_document path_exists picture_accepted parsed [] = Some st
    /\ document st = Some d
    /\ (paragraphs d = [] <-> forallb isspace text = true)
    /\ (forallb isspace text = true ->
        parsed = nothing_parsed /\ changes_log st = [margins_entry]).
Proof.
  intros Hxml. apply loaded_compatible in Hxml.
  unfold parse_text_content. cbn [load_from_text].
  pose proof (no_paragraph_iff_blank text) as B.
  pose proof (title_facts text) as [T _]. cbv zeta in T.
  cbn [load_from_text snd parser_paragraphs] in B, T, Hxml.
  set (ps := map strip (filter (fun p => truthy (strip p))
                               (split_on (char_eqb newline) text))) in *.
  eexists. eexists. eexists.
  split; [reflexivity|]. split.
  { apply process_document_renderable; [|reflexivity|intros img []].
    now apply parsed_renderable. }
  split; [reflexivity|]. cbn [paragraphs changes_log figures_part figures_log].
  rewrite !app_nil_r. split.
  - split; intros H.
    + apply T. unfold styled_paragraphs, title_part in H.
      cbn [parse_sections title parser_paragraphs] in H.
      destruct (extract_title ps); [reflexivity | discriminate].
    + apply B in H. unfold parse_sections. cbn [parser_paragraphs]. rewrite H.
      reflexivity.
  - intros H. apply B in H. unfold parse_sections. cbn [parser_paragraphs].
    rewrite H. split; reflexivity.
Qed.

Lemma rendered_empty_iff_blank_witness :
  exists parsed st d,
    parse_text_content (join nl scenario_paragraphs) = Some parsed
    /\ App.process_document every_file every_picture parsed [] = Some st
    /\ document st = Some d
    /\ (paragraphs d = [] <-> forallb isspace (join nl scenario_paragraphs) = true)
    /\ (forallb isspace (join nl scenario_paragraphs) = true ->
        parsed = nothing_parsed /\ changes_log st = [margins_entry]).
Proof.
  apply (@rendered_empty_iff_blank every_file every_picture (join nl scenario_paragraphs)).
  vm_compute. reflexivity.
Defined.

End PipelineFacts.

(** ** Passes on one applier, and the convenience function *)

Section RepeatedPassFacts.

(** X13. For contents whose texts [add_run] takes, a second pass on the
    same applier returns as the first does; it builds the document a fresh
    applier would build and counts figures from 0 again, but its log goes
    on after the log of the first pass. *)
Theorem apply_springer_style_again (first second : parsed_content) (self : applier) :
  renderable first = true ->
  renderable second = true ->
  exists st1 st2 fresh,
    apply_springer_style first self = Some st1
    /\ apply_springer_style second st1 = Some st2
    /\ apply_springer_style second new_applier = Some fresh
    /\ document st2 = document fresh
    /\ figure_counter st2 = 0
    /\ changes_log st2 = changes_log st1 ++ changes_log fresh
    /\ changes_log st1 = changes_log self ++ margins_entry :: styled_log first.
Proof.
  intros H1 H2. eexists. eexists. eexists.
  split; [now apply apply_springer_style_renderable|].
  split; [now apply apply_springer_style_renderable|].
  split; [now apply apply_springer_style_renderable|].
  repeat split.
Qed.

Lemma apply_springer_style_again_witness :
  exists st1 st2 fresh,
    apply_springer_style section_only new_applier = Some st1
    /\ apply_springer_style scenario_parsed st1 = Some st2
    /\ apply_springer_style scenario_parsed new_applier = Some fresh
    /\ document st2 = document fresh
    /\ figure_counter st2 = 0
    /\ changes_log st2 = changes_log st1 ++ changes_log fresh
    /\ changes_log st1 = changes_log new_applier ++ margins_entry :: styled_log section_only.
Proof.
  apply (@apply_springer_style_again section_only scenario_parsed new_applier).
  - vm_compute. reflexivity.
  - vm_compute. reflexivity.
Defined.

(** X14. For content whose texts [add_run] takes, [apply_springer_format]
    returns: it reports the log of one pass on a fresh applier, a figure
    count of 0, the path it was given, and as [success] whether the
    rendered document could be saved. When [add_run] refuses a text of the
    pass, the function raises. *)
Theorem apply_springer_format_result (save : docx -> str -> bool)
  (parsed : parsed_content) (path : str) :
  (renderable parsed = true ->
   exists d,
     apply_springer_style parsed new_applier
       = Some {| document := Some d; figure_counter := 0; table_counter := 0;
                 changes_log := margins_entry :: styled_log parsed |}
     /\ apply_springer_format save parsed path
        = Some {| success := save d path;
                  output_path := path;
                  changes := margins_entry :: styled_log parsed;
                  figure_count := 0 |})
  /\ (forallb accepted (styled_paragraphs parsed) = false ->
      apply_springer_format save parsed path = None).
Proof.
  split.
  - intros H. unfold apply_springer_format.
    rewrite (@apply_springer_style_renderable parsed new_applier H).
    eexists. split; reflexivity.
  - intros H. unfold apply_springer_format.
    now rewrite apply_springer_style_spec, H.
Qed.

Lemma apply_springer_format_result_witness :
  renderable scenario_parsed = true
  /\ exists d,
       apply_springer_style scenario_parsed new_applier
         = Some {| document := Some d; figure_counter := 0; table_counter := 0;
                   changes_log := margins_entry :: styled_log scenario_parsed |}
       /\ apply_springer_format (fun _ _ => true) scenario_parsed (lit "out.docx")
          = Some {| success := true;
                    output_path := lit "out.docx";
                    changes := margins_entry :: styled_log scenario_parsed;
                    figure_count := 0 |}.
Proof.
  split; [vm_compute; reflexivity|].
  apply (proj1 (@apply_springer_format_result (fun _ _ => true) scenario_parsed
                  (lit "out.docx"))).
  vm_compute. reflexivity.
Defined.

End RepeatedPassFacts.

(** ** From the processed images to the figures *)

Section ImagesDataFacts.

Variable width_cm : Type.
Variable path_exists : str -> bool.
Variable base_name : str -> str.
Variable path_join : str -> str -> str.
Variable pil : str -> width_cm -> str -> pil_outcome.
Variable target_width_cm : width_cm.
Variable capitalize : str -> str.

(** Every saved result carries the number and the path computed from the
    length of [processed_images] at its call. *)
Lemma process_image_saved (image_path : str) (self : processor) :
  let r := fst (process_image path_exists base_name path_join pil image_path
                              target_width_cm self) in
  let self' := snd (process_image path_exists base_name path_join pil image_path
                                  target_width_cm self) in
  output_dir self' = output_dir self
  /\ processed_images self' = processed_images self ++ saved_results [r]
  /\ Forall (fun i =>
               figure_number i = length (processed_images self) + 1
               /\ processed_path i
                  = path_join (output_dir self)
                      (saved_name base_name (length (processed_images self) + 1)
                                  (original_path i)))
            (saved_results [r]).
Proof.
  unfold process_image. destruct (path_exists image_path); simpl.
  - destruct (outcome (pil image_path target_width_cm _)); simpl.
    + rewrite app_nil_r. repeat split. constructor.
    + repeat split. repeat constructor.
  - rewrite app_nil_r. repeat split. constructor.
Qed.

Lemma process_image_list_saved (image_paths : list str) :
  forall self,
    let done := process_image_list path_exists base_name path_join pil image_paths
                                   target_width_cm self in
    output_dir (snd done) = output_dir self
    /\ processed_images (snd done) = processed_images self ++ saved_results (fst done)
    /\ numbered base_name path_join (output_dir self)
                (length (processed_images self) + 1) (saved_results (fst done)).
Proof.
  induction image_paths as [|image_path rest IH]; intros self; cbv zeta;
    cbn [process_image_list].
  - simpl. rewrite app_nil_r. auto.
  - pose proof (process_image_saved image_path self) as H. cbv zeta in H.
    destruct (process_image path_exists base_name path_join pil image_path
                            target_width_cm self) as [r self1].
    cbn [fst snd] in H. destruct H as [Hd [Hp Hn]].
    specialize (IH self1). cbv zeta in IH.
    destruct (process_image_list path_exists base_name path_join pil rest
                                 target_width_cm self1) as [results self2].
    cbn [fst snd] in *. destruct IH as [Hd2 [Hp2 Hn2]].
    split; [congruence|]. rewrite Hp2, Hp, Hd in *.
    destruct r as [e|i]; cbn [saved_results] in *.
    + rewrite app_nil_r in *. auto.
    + rewrite <- app_assoc. split; [reflexivity|].
      inversion Hn as [|? ? [Hf Hpath] _]; subst.
      cbn [numbered]. split; [assumption|]. split; [assumption|].
      rewrite length_app in Hn2. cbn [length] in Hn2.
      replace (S (length (processed_images self) + 1))
        with (length (processed_images self) + 1 + 1) by lia.
      exact Hn2.
Qed.


Lemma success_numbers_saved (results : list result) :
  success_numbers results = map figure_number (saved_results results).
Proof.
  induction results as [|[e|i] rest IH]; simpl; congruence.
Qed.



(** X16. After a list of images was processed on a fresh processor there
    is one result per path, but the summary counts the saved images only:
    [total_processed] and [successful] are their number and [failed] is 0,
    whatever the number of paths that failed; [output_directory] is the
    directory given to the constructor, or "processed_images" when none
    or an empty one was given. *)
Theorem processing_summary_of_run (image_paths : list str) (dir : option str) :
  let done := process_image_list path_exists base_name path_join pil image_paths
                                 target_width_cm (init_processor dir) in
  let results := fst done in
  let summary := get_processing_summary (snd done) in
  length results = length image_paths
  /\ total_processed summary = length (success_numbers results)
  /\ successful summary = length (success_numbers results)
  /\ failed summary = 0
  /\ output_directory summary =
     match dir with
     | Some given => if truthy given then given else lit "processed_images"
     | None => lit "processed_images"
     end.
Proof.
  cbv zeta. unfold get_processing_summary.
  cbn [total_processed successful failed output_directory].
  pose proof (process_image_list_saved image_paths (init_processor dir)) as H.
  cbv zeta in H. destruct H as [Hd [Hp _]].
  cbn [init_processor processed_images output_dir app] in Hp, Hd.
  rewrite Hp, Hd, success_numbers_saved, length_map.
  assert (F : forall l : list image_result, filter succeeded l = l).
  { induction l as [|x l IH]; simpl; congruence. }
  rewrite F. repeat split; [|lia].
  pose proof (process_image_list_numbers path_exists base_name path_join pil
                target_width_cm image_paths (init_processor dir)) as [_ H2].
  symmetry. exact (Forall2_length H2).
Qed.

End ImagesDataFacts.

(** ** File names *)

Section FileNameFacts.

Lemma free_of_app (c : char) (a b : str) :
  free_of c (a ++ b) <-> free_of c a /\ free_of c b.
Proof. unfold free_of. rewrite forallb_app. apply andb_true_iff. Qed.

Lemma free_of_rev (c : char) (s : str) : free_of c s -> free_of c (rev s).
Proof. apply forallb_rev. Qed.

Lemma split_first_found (c : char) (a b : str) :
  free_of c a -> split_first c (a ++ c :: b) = Some (a, b).
Proof.
  unfold free_of. induction a as [|x a IH]; simpl; intros H.
  - unfold char_eqb. now rewrite N.eqb_refl.
  - apply andb_prop in H as [Hx Ha]. apply negb_true_iff in Hx.
    now rewrite Hx, (IH Ha).
Qed.

Lemma split_first_none (c : char) (s : str) :
  free_of c s -> split_first c s = None.
Proof.
  unfold free_of. induction s as [|x s IH]; simpl; intros H; [reflexivity|].
  apply andb_prop in H as [Hx Hs]. apply negb_true_iff in Hx.
  now rewrite Hx, (IH Hs).
Qed.

Lemma split_first_sound (c : char) (s : str) :
  match split_first c s with
  | Some (a, b) => s = a ++ c :: b /\ free_of c a
  | None => free_of c s
  end.
Proof.
  unfold free_of. induction s as [|x s IH]; simpl; [reflexivity|].
  destruct (char_eqb x c) eqn:E.
  - apply N.eqb_eq in E. subst x. now split.
  - destruct (split_first c s) as [[a b]|].
    + destruct IH as [-> Ha]. split; [reflexivity|]. simpl. now rewrite E.
    + simpl. exact IH.
Qed.

(** [rsplit] cuts at the last occurrence. *)
Lemma rsplit1_found (c : char) (a b : str) :
  free_of c b -> rsplit1 c (a ++ c :: b) = Some (a, b).
Proof.
  intros H. unfold rsplit1.
  rewrite rev_app_distr. cbn [rev]. rewrite <- app_assoc. cbn [app].
  rewrite split_first_found by now apply free_of_rev.
  now rewrite !rev_involutive.
Qed.

Lemma rsplit1_none (c : char) (s : str) : free_of c s -> rsplit1 c s = None.
Proof.
  intros H. unfold rsplit1. now rewrite split_first_none by now apply free_of_rev.
Qed.

Lemma rsplit1_sound (c : char) (s : str) :
  match rsplit1 c s with
  | Some (a, b) => s = a ++ c :: b /\ free_of c b
  | None => free_of c s
  end.
Proof.
  unfold rsplit1. pose proof (split_first_sound c (rev s)) as H.
  destruct (split_first c (rev s)) as [[a b]|].
  - destruct H as [E Ha]. split.
    + rewrite <- (rev_involutive s), E, rev_app_distr. cbn [rev].
      now rewrite <- app_assoc.
    + now apply free_of_rev.
  - rewrite <- (rev_involutive s). now apply free_of_rev.
Qed.

Lemma startswith_spec (w s : str) :
  startswith w s = true <-> exists t, s = w ++ t.
Proof.
  revert s. induction w as [|a w IH]; intros s; simpl.
  - split; eauto.
  - destruct s as [|c s].
    + split; [discriminate | intros [t H]; discriminate].
    + rewrite andb_true_iff, IH. unfold char_eqb. rewrite N.eqb_eq. split.
      * intros [-> [t ->]]. eauto.
      * intros [t H]. injection H as -> ->. eauto.
Qed.

Lemma endswith_spec (w s : str) :
  endswith w s = true <-> exists t, s = t ++ w.
Proof.
  unfold endswith. rewrite startswith_spec. split; intros [t H].
  - exists (rev t). rewrite <- (rev_involutive s), H, rev_app_distr.
    now rewrite rev_involutive.
  - exists (rev t). now rewrite H, rev_app_distr.
Qed.

Lemma existsb_str_eqb (x : str) (l : list str) :
  existsb (str_eqb x) l = true <-> In x l.
Proof.
  rewrite existsb_exists. unfold str_eqb. split.
  - intros [y [Hy E]]. destruct (str_eq_dec x y); [now subst | discriminate].
  - intros H. exists x. split; [assumption|]. now destruct (str_eq_dec x x).
Qed.

(** X17. A file name is allowed exactly when it has a period and the text
    after its last period is, in any letter case, one of the extensions
    of the requested kind ("doc" or "image"); no name is allowed for any
    other kind, and none is allowed both as a document and as an image. *)
Theorem allowed_file_extensions :
  (forall filename file_type,
      allowed_file filename file_type = true <->
      exists stem ext,
        filename = stem ++ dot :: ext /\ free_of dot ext
        /\ ((file_type = "doc"%string /\ In (lower_ascii ext) ALLOWED_DOC_EXTENSIONS)
            \/ (file_type = "image"%string
                /\ In (lower_ascii ext) ALLOWED_IMAGE_EXTENSIONS)))
  /\ (forall filename,
        allowed_file filename "doc" = true -> allowed_file filename "image" = false).
Proof.
  assert (Spec : forall filename file_type,
      allowed_file filename file_type = true <->
      exists stem ext,
        filename = stem ++ dot :: ext /\ free_of dot ext
        /\ ((file_type = "doc"%string /\ In (lower_ascii ext) ALLOWED_DOC_EXTENSIONS)
            \/ (file_type = "image"%string
                /\ In (lower_ascii ext) ALLOWED_IMAGE_EXTENSIONS))).
  { intros filename file_type. unfold allowed_file. split.
    - pose proof (rsplit1_sound 46%N filename) as H.
      destruct (rsplit1 46%N filename) as [[stem ext]|]; [|discriminate].
      destruct H as [E F]. cbv zeta. intros A. exists stem, ext.
      split; [exact E|]. split; [exact F|].
      destruct (String.eqb file_type "doc") eqn:D.
      + apply String.eqb_eq in D. left. split; [assumption|].
        now apply existsb_str_eqb.
      + destruct (String.eqb file_type "image") eqn:I; [|discriminate].
        apply String.eqb_eq in I. right. split; [assumption|].
        now apply existsb_str_eqb.
    - intros [stem [ext [-> [F H]]]]. unfold dot. rewrite rsplit1_found by assumption.
      cbv zeta. destruct H as [[-> H]|[-> H]]; cbn [String.eqb Ascii.eqb Bool.eqb];
        now apply existsb_str_eqb. }
  split; [exact Spec|].
  intros filename H.
  unfold allowed_file in *.
  destruct (rsplit1 46%N filename) as [[stem ext]|]; [|reflexivity].
  cbv zeta in *. cbn [String.eqb Ascii.eqb Bool.eqb] in *.
  apply existsb_str_eqb in H. unfold ALLOWED_DOC_EXTENSIONS in H. cbn [map In] in H.
  destruct H as [H|[H|[H|[]]]]; rewrite <- H; reflexivity.
Qed.

Lemma last_cut_unique (c : char) (a b a' b' : str) :
  a ++ c :: b = a' ++ c :: b' -> free_of c b -> free_of c b' -> a = a' /\ b = b'.
Proof.
  intros E F F'. pose proof (@rsplit1_found c a b F) as H.
  rewrite E, (@rsplit1_found c a' b' F') in H. now injection H as -> ->.
Qed.

(** X18. The name of the formatted file is "formatted_", the name of the
    uploaded document up to its last period (the whole name when it has
    none) and ".docx"; it always ends with ".docx". *)
Theorem output_filename_docx :
  (forall stem ext,
      free_of dot ext ->
      output_filename (stem ++ dot :: ext) = lit "formatted_" ++ stem ++ lit ".docx")
  /\ (forall filename,
        free_of dot filename ->
        output_filename filename = lit "formatted_" ++ filename ++ lit ".docx")
  /\ (forall filename, endswith (lit ".docx") (output_filename filename) = true).
Proof.
  assert (A : forall stem ext,
      free_of dot ext ->
      output_filename (stem ++ dot :: ext) = lit "formatted_" ++ stem ++ lit ".docx").
  { intros stem ext F. unfold output_filename. cbv zeta.
    destruct (endswith (lit ".docx") (lit "formatted_" ++ stem ++ dot :: ext)) eqn:E.
    - cbn [negb]. apply endswith_spec in E as [t E].
      rewrite app_assoc in E.
      change (lit ".docx") with (dot :: lit "docx") in E.
      apply last_cut_unique in E as [_ ->]; [reflexivity | assumption | reflexivity].
    - cbn [negb]. rewrite app_assoc. unfold dot.
      rewrite rsplit1_found by assumption. now rewrite <- app_assoc. }
  assert (B : forall filename,
      free_of dot filename ->
      output_filename filename = lit "formatted_" ++ filename ++ lit ".docx").
  { intros filename F. unfold output_filename. cbv zeta.
    assert (F' : free_of dot (lit "formatted_" ++ filename)).
    { apply free_of_app. split; [reflexivity | assumption]. }
    destruct (endswith (lit ".docx") (lit "formatted_" ++ filename)) eqn:E.
    - exfalso. apply endswith_spec in E as [t E]. rewrite E in F'.
      apply free_of_app in F' as [_ F']. discriminate.
    - cbn [negb]. unfold dot in F'. rewrite (@rsplit1_none 46%N _ F').
      now rewrite <- app_assoc. }
  split; [exact A|]. split; [exact B|].
  intros filename. pose proof (rsplit1_sound dot filename) as H.
  destruct (rsplit1 dot filename) as [[stem ext]|].
  - destruct H as [-> F]. rewrite (A stem ext F). apply endswith_spec.
    exists (lit "formatted_" ++ stem). now rewrite <- app_assoc.
  - rewrite (B filename H). apply endswith_spec.
    exists (lit "formatted_" ++ filename). now rewrite <- app_assoc.
Qed.

End FileNameFacts.

(** ** Template managers *)

Import TemplateManager.

Section TemplateFacts.

Variable files : Type.
Variable path_exists : files -> str -> bool.
Variable path_join : str -> str -> str.
Variable copy2 : files -> str -> str -> files * bool.
Variable title_case : str -> str.

Lemma str_eqb_refl (s : str) : str_eqb s s = true.
Proof. unfold str_eqb. now destruct (str_eq_dec s s). Qed.

Lemma lookup_app (template_id : str) (l more : list (str * template)) :
  lookup template_id (l ++ more)
  = match lookup template_id l with
    | Some entry => Some entry
    | None => lookup template_id more
    end.
Proof.
  induction l as [|[key entry] l IH]; simpl; [reflexivity|].
  destruct (str_eqb key template_id); [reflexivity | exact IH].
Qed.

(** An upload keeps every entry of the dict. *)
Lemma upload_keeps (w : world files) (uploader : manager) (file_path template_id : str)
  (key : str) (entry : template) :
  lookup key (available w) = Some entry ->
  lookup key (available (snd (upload_template path_exists path_join copy2 title_case
                                              w uploader file_path template_id)))
  = Some entry.
Proof.
  intros H. unfold upload_template.
  destruct (path_exists (file_system w) file_path); cbn [negb]; [|exact H].
  destruct (copy2 _ _ _) as [fs [|]]; [|exact H]. cbn [snd available].
  destruct (known template_id (available w)); [exact H|].
  now rewrite lookup_app, H.
Qed.

Lemma after_call_keeps (state : world files * manager) (c : call) (key : str)
  (entry : template) :
  lookup key (available (fst state)) = Some entry ->
  lookup key (available (fst (after_call path_exists path_join copy2 title_case state c)))
  = Some entry.
Proof.
  intros H. destruct c as [template_id|uploader file_path template_id]; cbn [after_call fst].
  - exact H.
  - now apply upload_keeps.
Qed.

Lemma after_call_current (state : world files * manager) (c : call) :
  known (current_template (snd state)) (available (fst state)) = true ->
  known (current_template
           (snd (after_call path_exists path_join copy2 title_case state c)))
        (available (fst (after_call path_exists path_join copy2 title_case state c)))
  = true.
Proof.
  intros H. destruct c as [template_id|uploader file_path template_id];
    cbn [after_call fst snd].
  - unfold set_current_template.
    destruct (known template_id (available (fst state))) eqn:K; cbn [snd current_template];
      assumption.
  - unfold known in *.
    destruct (lookup (current_template (snd state)) (available (fst state))) as [entry|] eqn:E;
      [|discriminate].
    now rewrite (upload_keeps _ _ _ _ _ E).
Qed.

(** X19. Whatever templates a manager selects and whatever is uploaded on
    any instance, its current template is known: [get_current_template]
    returns the entry of the current id, never [None]; the three built-in
    entries keep their values, and the directory of the manager does not
    change. *)
Theorem current_template_always_known (fs : files) (dir : option str)
  (calls : list call) :
  let state := after_calls path_exists path_join copy2 title_case
                 (initial_state fs dir) calls in
  (exists entry,
      get_current_template path_exists path_join (fst state) (snd state)
      = Some {| info := entry;
                info_id := current_template (snd state);
                has_file := _template_file_exists path_exists path_join (fst state)
                              (snd state) (current_template (snd state)) |})
  /\ (forall key entry,
        lookup key AVAILABLE_TEMPLATES = Some entry ->
        lookup key (available (fst state)) = Some entry)
  /\ templates_dir (snd state) = templates_dir (new_manager dir).
Proof.
  cbv zeta. unfold after_calls.
  assert (G : forall calls state,
             known (current_template (snd state)) (available (fst state)) = true ->
             known (current_template
                      (snd (fold_left (after_call path_exists path_join copy2 title_case)
                                      calls state)))
                   (available
                      (fst (fold_left (after_call path_exists path_join copy2 title_case)
                                      calls state))) = true
             /\ (forall key entry,
                   lookup key (available (fst state)) = Some entry ->
                   lookup key
                     (available
                        (fst (fold_left (after_call path_exists path_join copy2 title_case)
                                        calls state))) = Some entry)
             /\ templates_dir
                  (snd (fold_left (after_call path_exists path_join copy2 title_case)
                                  calls state))
                = templates_dir (snd state)).
  { clear calls. induction calls as [|c calls IH]; intros state H; cbn [fold_left].
    - auto.
    - destruct (IH _ (after_call_current state c H)) as [K [L D]].
      split; [exact K|]. split.
      + intros key entry E. apply L. now apply after_call_keeps.
      + rewrite D. destruct c as [template_id|uploader file_path template_id];
          cbn [after_call snd]; [|reflexivity].
        unfold set_current_template.
        destruct (known template_id (available (fst state))); reflexivity. }
  destruct (G calls (initial_state fs dir) eq_refl) as [K [L D]].
  split; [|split; [exact L | exact D]].
  unfold get_current_template, get_template_info. unfold known in K.
  destruct (lookup _ _) as [entry|]; [|discriminate]. now exists entry.
Qed.

(** X20. The dict of templates is shared: after an upload that succeeded
    on one instance, any other instance can select the uploaded id, which
    it refuses, keeping its state, as long as the id is unknown. *)
Theorem uploaded_template_is_shared (w : world files) (uploader other : manager)
  (file_path template_id : str) :
  fst (upload_template path_exists path_join copy2 title_case w uploader
                       file_path template_id) = true ->
  let w' := snd (upload_template path_exists path_join copy2 title_case w uploader
                                 file_path template_id) in
  set_current_template w' other template_id
  = (true, {| templates_dir := templates_dir other; current_template := template_id |})
  /\ (known template_id (available w) = false ->
      set_current_template w other template_id = (false, other)).
Proof.
  intros H. cbv zeta. split.
  - unfold set_current_template.
    assert (K : known template_id
                  (available (snd (upload_template path_exists path_join copy2 title_case
                                                   w uploader file_path template_id)))
                = true).
    { unfold upload_template in *.
      destruct (path_exists (file_system w) file_path); cbn [negb] in *; [|discriminate].
      destruct (copy2 _ _ _) as [fs [|]]; [|discriminate]. cbn [snd available].
      destruct (known template_id (available w)) eqn:K; [exact K|].
      unfold known in *. rewrite lookup_app.
      destruct (lookup template_id (available w)); [reflexivity|].
      cbn [lookup]. now rewrite str_eqb_refl. }
    now rewrite K.
  - intros K. unfold set_current_template. now rewrite K.
Qed.

End TemplateFacts.

Lemma uploaded_template_is_shared_witness :
  set_current_template
    (snd (upload_template listed slash_join copy_listed (fun s => s)
            {| available := AVAILABLE_TEMPLATES;
               file_system := [lit "uploads/house.docx"] |}
            (new_manager (Some (lit "a"))) (lit "uploads/house.docx") (lit "house_style")))
    (new_manager (Some (lit "b"))) (lit "house_style")
  = (true, {| templates_dir := lit "b"; current_template := lit "house_style" |}).
Proof.
  apply (proj1 (@uploaded_template_is_shared (list str) listed slash_join copy_listed
                  (fun s => s)
                  {| available := AVAILABLE_TEMPLATES;
                     file_system := [lit "uploads/house.docx"] |}
                  (new_manager (Some (lit "a"))) (new_manager (Some (lit "b")))
                  (lit "uploads/house.docx") (lit "house_style") eq_refl)).
Defined.

(** ** The scenario, from its text *)

Section ScenarioExamples.

Example scenario_parsed_from_text :
  parse_text_content (join nl scenario_paragraphs) = Some scenario_parsed.
Proof. vm_compute. reflexivity. Qed.

Example file_names :
  map (fun f => allowed_file (lit f) "doc") ["paper.docx"; "paper.TXT"; "paper"; "a.png"]%string
  = [true; true; false; false]
  /\ output_filename (lit "my.paper.TXT") = lit "formatted_my.paper.docx".
Proof. split; vm_compute; reflexivity. Qed.

End ScenarioExamples.
